(** * Weekly 1-1 matching: pool, pairing round, match lifecycle, reminders

    A shallow embedding of [cogs/one_on_ones.py] and of the 1-1 part of
    [db/actions.py] (tables of [db/schema.py]), with the properties of the
    weekly matching engine proved about it.

    - The two SQL tables are lists of rows, in insertion order; a query is a
      filter over the list, [fetch_one] takes the first row, an UPDATE maps
      over the rows its WHERE clause selects. No query of the 1-1 tables
      has an ORDER BY, so the order of an answer is the engine's (SQLite
      walks the pool by its primary key); the statements below are about
      membership, counts and rows, and hold for every order of the table
      and every supply of random draws.
    - Timestamps and week keys are the ISO strings the code stores; the
      store compares them as text, byte by byte ([String.le]). The texts
      that [date.isoformat] and [datetime.isoformat] produce are in the
      module [datetime].
    - The clock, the random generator and the messaging platform are inputs:
      a [Clock] record of readings, a supply of random draws, and a
      [Platform] record that answers every call the cog makes on Discord. *)

From Stdlib Require Import ZArith Lia.
From stdpp Require Import base decidable option list gmap sets strings.

Open Scope Z_scope.

#[local] Set Warnings "-clear-no-such-hyp".

(** ** Tables ([db/schema.py]) *)

(** The three literals the code writes into the status columns. *)
Inductive Status := pending | confirmed | declined.

Global Instance Status_eq_dec : EqDecision Status.
Proof. solve_decision. Defined.

(** A row of [one_on_one_pool]; primary key ([p_guild_id], [p_user_id]). *)
Record PoolRow := {
  p_guild_id : Z;
  p_user_id : Z;
  joined_at : string;
  skip_until : option string;
  sat_out_at : option string
}.

(** A row of [one_on_one_matches]; primary key [m_id]. *)
Record MatchRow := {
  m_id : Z;
  m_guild_id : Z;
  week_start : string;
  user1_id : Z;
  user2_id : Z;
  thread_id : option Z;
  user1_status : Status;
  user2_status : Status;
  reminder_count : Z;
  created_at : string;
  completed_at : option string
}.

Global Instance PoolRow_eq_dec : EqDecision PoolRow.
Proof. solve_decision. Defined.

Global Instance MatchRow_eq_dec : EqDecision MatchRow.
Proof. solve_decision. Defined.

(** The primary-key constraints of the two tables. *)
Definition pool_keys_unique (pool : list PoolRow) : Prop :=
  NoDup ((λ r, (p_guild_id r, p_user_id r)) <$> pool).

Definition match_ids_unique (ms : list MatchRow) : Prop :=
  NoDup (m_id <$> ms).

Global Instance pool_keys_unique_dec pool : Decision (pool_keys_unique pool).
Proof. unfold pool_keys_unique. apply _. Defined.

Global Instance match_ids_unique_dec ms : Decision (match_ids_unique ms).
Proof. unfold match_ids_unique. apply _. Defined.

(** Column setters, one per [.values(...)] the code issues. *)
Definition set_sat_out_at (t : option string) (r : PoolRow) : PoolRow :=
  {| p_guild_id := p_guild_id r; p_user_id := p_user_id r;
     joined_at := joined_at r; skip_until := skip_until r;
     sat_out_at := t |}.

Definition set_skip_until (t : option string) (r : PoolRow) : PoolRow :=
  {| p_guild_id := p_guild_id r; p_user_id := p_user_id r;
     joined_at := joined_at r; skip_until := t;
     sat_out_at := sat_out_at r |}.

Definition set_user1_status (s : Status) (r : MatchRow) : MatchRow :=
  {| m_id := m_id r; m_guild_id := m_guild_id r; week_start := week_start r;
     user1_id := user1_id r; user2_id := user2_id r; thread_id := thread_id r;
     user1_status := s; user2_status := user2_status r;
     reminder_count := reminder_count r; created_at := created_at r;
     completed_at := completed_at r |}.

Definition set_user2_status (s : Status) (r : MatchRow) : MatchRow :=
  {| m_id := m_id r; m_guild_id := m_guild_id r; week_start := week_start r;
     user1_id := user1_id r; user2_id := user2_id r; thread_id := thread_id r;
     user1_status := user1_status r; user2_status := s;
     reminder_count := reminder_count r; created_at := created_at r;
     completed_at := completed_at r |}.

Definition set_completed_at (t : option string) (r : MatchRow) : MatchRow :=
  {| m_id := m_id r; m_guild_id := m_guild_id r; week_start := week_start r;
     user1_id := user1_id r; user2_id := user2_id r; thread_id := thread_id r;
     user1_status := user1_status r; user2_status := user2_status r;
     reminder_count := reminder_count r; created_at := created_at r;
     completed_at := t |}.

Definition set_reminder_count (n : Z) (r : MatchRow) : MatchRow :=
  {| m_id := m_id r; m_guild_id := m_guild_id r; week_start := week_start r;
     user1_id := user1_id r; user2_id := user2_id r; thread_id := thread_id r;
     user1_status := user1_status r; user2_status := user2_status r;
     reminder_count := n; created_at := created_at r;
     completed_at := completed_at r |}.

(** [UPDATE t SET ... WHERE c]: every row that satisfies [c] is rewritten,
    the others and the order are kept. *)
Definition update_where {A} (c : A → bool) (f : A → A) (t : list A) : list A :=
  (λ r, if c r then f r else r) <$> t.

(** [fetch_one] of [SELECT ... WHERE c]: the first row that satisfies [c]. *)
Fixpoint fetch_one {A} (c : A → bool) (t : list A) : option A :=
  match t with
  | [] => None
  | r :: t' => if c r then Some r else fetch_one c t'
  end.

(** ** Data access ([db/actions.py]) *)

Module actions.

(** [skip_until IS NULL OR skip_until <= week_start], on text. *)
Definition not_skipping (wk : string) (r : PoolRow) : bool :=
  match skip_until r with
  | None => true
  | Some s => bool_decide (String.le s wk)
  end.

Definition join_one_on_one_pool (guild user : Z) (now : string)
    (pool : list PoolRow) : bool * list PoolRow :=
  match fetch_one (λ r, bool_decide (p_guild_id r = guild) &&
                        bool_decide (p_user_id r = user)) pool with
  | Some _ => (false, pool)
  | None =>
      (true, pool ++ [ {| p_guild_id := guild; p_user_id := user;
                          joined_at := now; skip_until := None;
                          sat_out_at := None |} ])
  end.

Definition leave_one_on_one_pool (guild user : Z)
    (pool : list PoolRow) : bool * list PoolRow :=
  match fetch_one (λ r, bool_decide (p_guild_id r = guild) &&
                        bool_decide (p_user_id r = user)) pool with
  | None => (false, pool)
  | Some _ =>
      (true, filter (λ r, ¬ (p_guild_id r = guild ∧ p_user_id r = user)) pool)
  end.

Definition set_one_on_one_skip (guild user : Z) (until : option string)
    (pool : list PoolRow) : list PoolRow :=
  update_where (λ r, bool_decide (p_guild_id r = guild) &&
                     bool_decide (p_user_id r = user))
               (set_skip_until until) pool.

Definition get_available_pool_members (guild : Z) (wk : string)
    (pool : list PoolRow) : list Z :=
  p_user_id <$>
    filter (λ r, p_guild_id r = guild ∧ not_skipping wk r) pool.

Definition mark_user_sat_out (guild user : Z) (now : string)
    (pool : list PoolRow) : list PoolRow :=
  update_where (λ r, bool_decide (p_guild_id r = guild) &&
                     bool_decide (p_user_id r = user))
               (set_sat_out_at (Some now)) pool.

(** [sat_out_at IS NOT NULL AND sat_out_at >= since], on text. *)
Definition sat_out_since (since : string) (r : PoolRow) : bool :=
  match sat_out_at r with
  | None => false
  | Some s => bool_decide (String.le since s)
  end.

Definition get_users_who_sat_out_recently (guild : Z) (since : string)
    (pool : list PoolRow) : list Z :=
  p_user_id <$>
    filter (λ r, p_guild_id r = guild ∧ sat_out_since since r) pool.

(** The autoincremented key: one more than the largest id in the table. *)
Definition next_match_id (ms : list MatchRow) : Z :=
  1 + foldr Z.max 0 (m_id <$> ms).

(** The INSERT fills the columns it names; the others take their server
    defaults ([pending], [pending], 0, now, NULL). *)
Definition create_one_on_one_match (guild : Z) (wk : string) (u1 u2 : Z)
    (thread : option Z) (now : string)
    (ms : list MatchRow) : Z * list MatchRow :=
  let i := next_match_id ms in
  (i, ms ++ [ {| m_id := i; m_guild_id := guild; week_start := wk;
                 user1_id := u1; user2_id := u2; thread_id := thread;
                 user1_status := pending; user2_status := pending;
                 reminder_count := 0; created_at := now;
                 completed_at := None |} ]).

Definition get_match_by_thread (thread : Z) (ms : list MatchRow)
    : option MatchRow :=
  fetch_one (λ r, bool_decide (thread_id r = Some thread)) ms.

Definition get_match_by_id (i : Z) (ms : list MatchRow) : option MatchRow :=
  fetch_one (λ r, bool_decide (m_id r = i)) ms.

Definition update_match_status (i user : Z) (s : Status)
    (ms : list MatchRow) : list MatchRow :=
  match get_match_by_id i ms with
  | None => ms
  | Some m =>
      if bool_decide (user1_id m = user) then
        update_where (λ r, bool_decide (m_id r = i)) (set_user1_status s) ms
      else if bool_decide (user2_id m = user) then
        update_where (λ r, bool_decide (m_id r = i)) (set_user2_status s) ms
      else ms
  end.

Definition complete_match (i : Z) (now : string)
    (ms : list MatchRow) : list MatchRow :=
  update_where (λ r, bool_decide (m_id r = i))
               (set_completed_at (Some now)) ms.

Definition increment_match_reminder (i : Z)
    (ms : list MatchRow) : list MatchRow :=
  match get_match_by_id i ms with
  | None => ms
  | Some m =>
      update_where (λ r, bool_decide (m_id r = i))
                   (set_reminder_count (reminder_count m + 1)) ms
  end.

Definition needs_reminder (guild : Z) (wk : string) (max_reminders : Z)
    (r : MatchRow) : Prop :=
  m_guild_id r = guild ∧ week_start r = wk ∧ completed_at r = None ∧
  reminder_count r < max_reminders ∧
  (user1_status r = pending ∨ user2_status r = pending).

Global Instance needs_reminder_dec g wk k r :
  Decision (needs_reminder g wk k r).
Proof. unfold needs_reminder. apply _. Defined.

Definition get_matches_needing_reminder (guild : Z) (wk : string)
    (max_reminders : Z) (ms : list MatchRow) : list MatchRow :=
  filter (needs_reminder guild wk max_reminders) ms.

Definition get_users_matched_this_week (guild : Z) (wk : string)
    (ms : list MatchRow) : gset Z :=
  foldl (λ users_set row, {[user2_id row]} ∪ ({[user1_id row]} ∪ users_set))
        ∅
        (filter (λ r, m_guild_id r = guild ∧ week_start r = wk) ms).

Definition get_user_partners_this_week (guild user : Z) (wk : string)
    (ms : list MatchRow) : gset Z :=
  foldl (λ partners row,
           if bool_decide (user1_id row = user)
           then {[user2_id row]} ∪ partners
           else {[user1_id row]} ∪ partners)
        ∅
        (filter (λ r, m_guild_id r = guild ∧ week_start r = wk ∧
                      (user1_id r = user ∨ user2_id r = user)) ms).

End actions.

(** ** The environment of the cog *)

(** The errors the platform reports: [discord.Forbidden], [discord.NotFound]
    and any other [discord.HTTPException]; all three are instances of
    [discord.HTTPException]. *)
Inductive HTTPError := Forbidden | NotFound | HTTPException.

Record Channel := { ch_id : Z; ch_name : string }.

(** What the cog reads of a [discord.Guild]: its id, its text channels and
    the threads in its cache ([guild.get_thread]). *)
Record Guild := {
  g_id : Z;
  text_channels : list Channel;
  cached_threads : list Z
}.

(** The messaging platform as the cog observes it. A call that can fail
    takes the number of platform calls made so far, so that two calls with
    the same arguments may have different outcomes; it succeeds or fails
    with one of the errors above, the ones the library documents for these
    calls. [fetch_user] followed by [send_dm] is [bot.fetch_user(id)] and
    [user.send(text)]. *)
Record Platform := {
  bot_user_id : Z;
  guilds : list Guild;
  cached_channels : list Z;
  create_thread : nat → Z → HTTPError + Z;
  send : nat → Z → option HTTPError;
  add_reaction : nat → Z → option HTTPError;
  fetch_channel : nat → Z → option HTTPError;
  fetch_user : nat → Z → option HTTPError;
  send_dm : nat → Z → option HTTPError
}.

(** Readings of the clock during one handler: [get_week_start()], the
    weekday and hour of [datetime.now(timezone.utc)], that instant minus
    four weeks, [datetime.utcnow().isoformat()], and the store's [now()]. *)
Record Clock := {
  get_week_start : string;
  weekday : nat;
  hour : nat;
  four_weeks_ago : string;
  utcnow : string;
  db_now : string
}.

Inductive Message :=
  | MatchIntro (u1 u2 : Z)
  | RematchIntro (u1 u2 : Z)
  | ReminderMsg (pending_users : list Z)
  | CompletionNotice
  | DeclineNotice (decliner partner : Z)
  | NoRematchNotice.

Inductive LogEntry :=
  | NoChannelFound (guild : Z)
  | MissingThreadPermissions (guild : Z)
  | FailedMatchThread (e : HTTPError)
  | ReminderThreadNotFound (thread : Z)
  | ReminderForbidden (thread : Z)
  | ReminderError (e : HTTPError)
  | CompletionMessageError
  | DeclineMessageError
  | DMFailed (user : Z)
  | RematchFailed (e : HTTPError)
  | MatchingError (guild : Z).

(** What the cog did on the platform, and what it logged. *)
Inductive Event :=
  | ThreadCreated (channel thread : Z)
  | Sent (channel : Z) (msg : Message)
  | Reacted (channel : Z) (emoji : string)
  | DirectMessage (user : Z) (msg : Message)
  | Logged (entry : LogEntry).

Record World := {
  pool : list PoolRow;
  matches : list MatchRow;
  rng : list nat;
  tick : nat;
  trace : list Event
}.

Definition with_pool (p : list PoolRow) (w : World) : World :=
  {| pool := p; matches := matches w; rng := rng w;
     tick := tick w; trace := trace w |}.

Definition with_matches (ms : list MatchRow) (w : World) : World :=
  {| pool := pool w; matches := ms; rng := rng w;
     tick := tick w; trace := trace w |}.

Definition with_rng (r : list nat) (w : World) : World :=
  {| pool := pool w; matches := matches w; rng := r;
     tick := tick w; trace := trace w |}.

(** One platform call was made; [evs] is what it left in the trace. *)
Definition called (evs : list Event) (w : World) : World :=
  {| pool := pool w; matches := matches w; rng := rng w;
     tick := S (tick w); trace := trace w ++ evs |}.

Definition logged (e : LogEntry) (w : World) : World :=
  {| pool := pool w; matches := matches w; rng := rng w;
     tick := tick w; trace := trace w ++ [Logged e] |}.

(** ** The [datetime] module: dates, aware datetimes and their ISO texts *)

Module datetime.

Record date := { year : Z; month : Z; day : Z }.

(** A [datetime] with [tzinfo=timezone.utc]. *)
Record datetime := {
  dt_date : date;
  dt_hour : Z;
  dt_minute : Z;
  dt_second : Z;
  dt_microsecond : Z
}.

(** The ranges the constructors accept ([MINYEAR] is 1, [MAXYEAR] 9999;
    the day is also bounded by the length of its month). *)
Definition date_in_range (d : date) : Prop :=
  1 ≤ year d ≤ 9999 ∧ 1 ≤ month d ≤ 12 ∧ 1 ≤ day d ≤ 31.

Global Instance date_in_range_dec d : Decision (date_in_range d).
Proof. unfold date_in_range. apply _. Defined.

(** Dates compare as their (year, month, day) triples. *)
Definition date_lt (d1 d2 : date) : Prop :=
  year d1 < year d2 ∨
  (year d1 = year d2 ∧
   (month d1 < month d2 ∨ (month d1 = month d2 ∧ day d1 < day d2))).

Definition date_le (d1 d2 : date) : Prop := d1 = d2 ∨ date_lt d1 d2.

Global Instance date_eq_dec : EqDecision date.
Proof. solve_decision. Defined.

Global Instance date_lt_dec d1 d2 : Decision (date_lt d1 d2).
Proof. unfold date_lt. apply _. Defined.

Global Instance date_le_dec d1 d2 : Decision (date_le d1 d2).
Proof. unfold date_le. apply _. Defined.

(** The last decimal digit of [n], as a character. *)
Definition digit (n : Z) : Ascii.ascii :=
  Ascii.ascii_of_N (Z.to_N (48 + n mod 10)).

(** ["%02d"], ["%04d"] and ["%06d"] of a number that fits. *)
Definition pad2 (n : Z) : string :=
  String (digit (n / 10)) (String (digit n) "").

Definition pad4 (n : Z) : string :=
  String (digit (n / 1000)) (String (digit (n / 100)) (pad2 n)).

Definition pad6 (n : Z) : string :=
  String (digit (n / 100000)) (String (digit (n / 10000)) (pad4 n)).

(** [date.isoformat()]: ["%04d-%02d-%02d"]. *)
Definition date_isoformat (d : date) : string :=
  pad4 (year d) +:+ "-" +:+ pad2 (month d) +:+ "-" +:+ pad2 (day d).

(** [datetime.isoformat()] of an aware datetime in UTC: the date, [T], the
    time, the microseconds when they are not zero, and the offset. *)
Definition isoformat (t : datetime) : string :=
  date_isoformat (dt_date t) +:+ "T" +:+
  pad2 (dt_hour t) +:+ ":" +:+ pad2 (dt_minute t) +:+ ":" +:+
  pad2 (dt_second t) +:+
  (if bool_decide (dt_microsecond t = 0) then ""
   else "." +:+ pad6 (dt_microsecond t)) +:+
  "+00:00".

End datetime.

(** ** The [random] module *)

(** [_randbelow(n)]: the next draw of the supply, reduced below [n]. *)
Definition randbelow (n : nat) (r : list nat) : nat * list nat :=
  match r with
  | [] => (0%nat, [])
  | d :: r' => ((d mod n)%nat, r')
  end.

(** [random.choice(seq)] is [seq[_randbelow(len(seq))]]; [None] stands for
    the IndexError on an empty sequence. *)
Definition choice {A} (seq : list A) (r : list nat) : option A * list nat :=
  let '(j, r') := randbelow (length seq) r in (seq !! j, r').

(** [x[i], x[j] = x[j], x[i]] *)
Definition swap {A} (i j : nat) (x : list A) : list A :=
  match x !! i, x !! j with
  | Some a, Some b => <[j:=a]> (<[i:=b]> x)
  | _, _ => x
  end.

(** The loop of [random.shuffle]:
    [for i in reversed(range(1, len(x))): j = randbelow(i + 1); swap]. *)
Fixpoint shuffle_from {A} (i : nat) (x : list A) (r : list nat)
    : list A * list nat :=
  match i with
  | O => (x, r)
  | S i' =>
      let '(j, r') := randbelow (S i) r in
      shuffle_from i' (swap i j x) r'
  end.

Definition shuffle {A} (x : list A) (r : list nat) : list A * list nat :=
  shuffle_from (length x - 1)%nat x r.

(** [list.remove(x)]: drops the first occurrence; [None] stands for the
    ValueError when there is none. *)
Fixpoint list_remove (x : Z) (l : list Z) : option (list Z) :=
  match l with
  | [] => None
  | y :: l' =>
      if bool_decide (y = x) then Some l'
      else (λ k, y :: k) <$> list_remove x l'
  end.

(** [[(a[i], a[i + 1]) for i in range(0, len(a), 2)]]; [None] stands for
    the IndexError on a list of odd length. *)
Fixpoint pair_up (a : list Z) : option (list (Z * Z)) :=
  match a with
  | [] => Some []
  | [_] => None
  | u1 :: u2 :: rest => (λ k, (u1, u2) :: k) <$> pair_up rest
  end.

(** ** The cog ([cogs/one_on_ones.py]) *)

Module one_on_ones.
Import actions.

Definition white_check_mark : string := "✅".
Definition cross_mark : string := "❌".

Record RawReactionActionEvent := {
  user_id : Z;
  emoji : string;
  channel_id : Z;
  guild_id : Z
}.

Definition _get_one_on_ones_channel (g : Guild) : option Channel :=
  fetch_one (λ c, bool_decide (ch_name c = "1-1s")) (text_channels g).

Definition get_guild (pf : Platform) (gid : Z) : option Guild :=
  fetch_one (λ g, bool_decide (g_id g = gid)) (guilds pf).

(** Lines 212-229 and 410-427: create the thread, post the instructions,
    add the two reactions; the first failure ends the unit. *)
Definition open_match_thread (pf : Platform) (ch : Z) (intro : Message)
    (w : World) : (HTTPError + Z) * World :=
  match create_thread pf (tick w) ch with
  | inl e => (inl e, called [] w)
  | inr th =>
      let w1 := called [ThreadCreated ch th] w in
      match send pf (tick w1) th with
      | Some e => (inl e, called [] w1)
      | None =>
          let w2 := called [Sent th intro] w1 in
          match add_reaction pf (tick w2) th with
          | Some e => (inl e, called [] w2)
          | None =>
              let w3 := called [Reacted th white_check_mark] w2 in
              match add_reaction pf (tick w3) th with
              | Some e => (inl e, called [] w3)
              | None => (inr th, called [Reacted th cross_mark] w3)
              end
          end
      end
  end.

(** The members left after the two filters of lines 171-177. *)
Definition eligible (clk : Clock) (gid : Z) (w : World) : list Z :=
  filter (λ u, u ∉ get_users_matched_this_week gid (get_week_start clk)
                     (matches w))
         (get_available_pool_members gid (get_week_start clk) (pool w)).

(** Lines 186-190: the members of [available] that did not sit out since
    four weeks ago. *)
Definition sit_out_candidates (clk : Clock) (gid : Z) (available : list Z)
    (w : World) : list Z :=
  let recently_sat_out : gset Z :=
    list_to_set (get_users_who_sat_out_recently gid (four_weeks_ago clk)
                   (pool w)) in
  filter (λ u, u ∉ recently_sat_out) available.

(** The outcome of lines 168-201: an early [return 0], an uncaught
    exception, or the sit-out, the pairs and the state they leave. *)
Inductive Round :=
  | TooFew
  | Crashed
  | Paired (sit_out_user : option Z) (pairs : list (Z * Z)) (w : World).

Definition pair_rest (sit_out_user : option Z) (available : list Z)
    (w : World) : Round :=
  let '(shuffled, r) := shuffle available (rng w) in
  match pair_up shuffled with
  | None => Crashed
  | Some pairs => Paired sit_out_user pairs (with_rng r w)
  end.

Definition pairing_round (clk : Clock) (gid : Z) (w : World) : Round :=
  let wk := get_week_start clk in
  let available := get_available_pool_members gid wk (pool w) in
  if (length available <? 2)%nat then TooFew else
  let available := eligible clk gid w in
  if (length available <? 2)%nat then TooFew else
  if (length available mod 2 =? 1)%nat then
    let candidates := sit_out_candidates clk gid available w in
    let '(picked, r) :=
      match candidates with
      | _ :: _ => choice candidates (rng w)
      | [] => choice available (rng w)
      end in
    match picked with
    | None => Crashed
    | Some sit_out_user =>
        match list_remove sit_out_user available with
        | None => Crashed
        | Some available =>
            pair_rest (Some sit_out_user) available
              (with_pool (mark_user_sat_out gid sit_out_user (utcnow clk)
                            (pool w))
                 (with_rng r w))
        end
    end
  else pair_rest None available w.

(** The two [except] clauses of the loop: [discord.Forbidden] first, then
    any other [discord.HTTPException]. *)
Definition thread_failure_log (gid : Z) (e : HTTPError) : LogEntry :=
  match e with
  | Forbidden => MissingThreadPermissions gid
  | _ => FailedMatchThread e
  end.

(** The loop of lines 209-237 over the pairs. *)
Fixpoint create_matches (pf : Platform) (clk : Clock) (gid ch : Z)
    (pairs : list (Z * Z)) (matches_created : nat) (w : World)
    : nat * World :=
  match pairs with
  | [] => (matches_created, w)
  | (user1, user2) :: rest =>
      match open_match_thread pf ch (MatchIntro user1 user2) w with
      | (inr th, w1) =>
          let ms := (create_one_on_one_match gid (get_week_start clk)
                       user1 user2 (Some th) (db_now clk) (matches w1)).2 in
          create_matches pf clk gid ch rest (S matches_created)
            (with_matches ms w1)
      | (inl e, w1) =>
          create_matches pf clk gid ch rest matches_created
            (logged (thread_failure_log gid e) w1)
      end
  end.

(** [None] is an exception that leaves the function. *)
Definition _run_matching_for_guild (pf : Platform) (clk : Clock) (g : Guild)
    (w : World) : option nat * World :=
  match pairing_round clk (g_id g) w with
  | TooFew => (Some 0%nat, w)
  | Crashed => (None, w)
  | Paired _ pairs w1 =>
      match _get_one_on_ones_channel g with
      | None => (Some 0%nat, logged (NoChannelFound (g_id g)) w1)
      | Some channel =>
          let '(n, w2) :=
            create_matches pf clk (g_id g) (ch_id channel) pairs 0%nat w1 in
          (Some n, w2)
      end
  end.

Definition weekly_matching (pf : Platform) (clk : Clock) (w : World)
    : World :=
  if negb (bool_decide (weekday clk = 6%nat)) ||
     negb (bool_decide (hour clk = 10%nat)) then w
  else
    foldl (λ w g,
             match _run_matching_for_guild pf clk g w with
             | (Some _, w') => w'
             | (None, w') => logged (MatchingError (g_id g)) w'
             end)
          w (guilds pf).

(** Lines 292-296: the sides of the snapshot that are still pending. *)
Definition pending_users (m : MatchRow) : list Z :=
  (if bool_decide (user1_status m = pending) then [user1_id m] else []) ++
  (if bool_decide (user2_status m = pending) then [user2_id m] else []).

Definition reminder_log (thread : Z) (e : HTTPError) : LogEntry :=
  match e with
  | NotFound => ReminderThreadNotFound thread
  | Forbidden => ReminderForbidden thread
  | HTTPException => ReminderError e
  end.

(** [if not thread_id]: NULL and 0 are both falsy. *)
Definition truthy_thread_id (m : MatchRow) : option Z :=
  match thread_id m with
  | None => None
  | Some thread => if bool_decide (thread = 0) then None else Some thread
  end.

(** [m] is the row as the selecting query returned it. *)
Definition _send_reminder (pf : Platform) (g : Guild) (m : MatchRow)
    (w : World) : World :=
  match truthy_thread_id m with
  | None => w
  | Some thread =>
      let located :=
        if bool_decide (thread ∈ cached_threads g) then (None, w)
        else (fetch_channel pf (tick w) thread, called [] w) in
      match located with
      | (Some e, w1) => logged (reminder_log thread e) w1
      | (None, w1) =>
          match pending_users m with
          | [] => w1
          | us =>
              match send pf (tick w1) thread with
              | Some e => logged (reminder_log thread e) (called [] w1)
              | None =>
                  let w2 := called [Sent thread (ReminderMsg us)] w1 in
                  with_matches
                    (increment_match_reminder (m_id m) (matches w2)) w2
              end
          end
      end
  end.

(** The body of the loop over [bot.guilds] in [send_reminders]. *)
Definition send_reminders_for_guild (pf : Platform) (clk : Clock)
    (g : Guild) (w : World) : World :=
  foldl (λ w m, _send_reminder pf g m w) w
        (get_matches_needing_reminder (g_id g) (get_week_start clk) 2
           (matches w)).

Definition send_reminders (pf : Platform) (clk : Clock) (w : World)
    : World :=
  if negb (bool_decide (weekday clk ∈ [1%nat; 3%nat])) then w
  else foldl (λ w g, send_reminders_for_guild pf clk g w) w (guilds pf).

(** Lines 371-384: in the pool, not skipping, not the user, not a partner
    of the user this week, not matched this week. *)
Definition rematch_candidates (clk : Clock) (gid uid : Z) (w : World)
    : list Z :=
  let wk := get_week_start clk in
  let available := get_available_pool_members gid wk (pool w) in
  let already_partnered :=
    get_user_partners_this_week gid uid wk (matches w) in
  let already_matched := get_users_matched_this_week gid wk (matches w) in
  filter (λ u, u ≠ uid ∧ (u ∉ already_partnered) ∧ (u ∉ already_matched))
         available.

Definition _attempt_rematch (pf : Platform) (clk : Clock) (gid uid : Z)
    (w : World) : World :=
  let wk := get_week_start clk in
  let candidates := rematch_candidates clk gid uid w in
  match candidates with
  | [] =>
      match fetch_user pf (tick w) uid with
      | Some _ => logged (DMFailed uid) (called [] w)
      | None =>
          let w1 := called [] w in
          match send_dm pf (tick w1) uid with
          | Some _ => logged (DMFailed uid) (called [] w1)
          | None => called [DirectMessage uid NoRematchNotice] w1
          end
      end
  | _ :: _ =>
      let '(picked, r) := choice candidates (rng w) in
      let w1 := with_rng r w in
      match picked with
      | None => w1
      | Some new_partner_id =>
          match get_guild pf gid with
          | None => w1
          | Some g =>
              match _get_one_on_ones_channel g with
              | None => w1
              | Some channel =>
                  match open_match_thread pf (ch_id channel)
                          (RematchIntro uid new_partner_id) w1 with
                  | (inr th, w2) =>
                      with_matches
                        (create_one_on_one_match gid wk uid new_partner_id
                           (Some th) (db_now clk) (matches w2)).2 w2
                  | (inl e, w2) => logged (RematchFailed e) w2
                  end
              end
          end
      end
  end.

(** [channel = bot.get_channel(id); if channel: await channel.send(msg)]
    inside [try ... except Exception]. *)
Definition notify_channel (pf : Platform) (ch : Z) (msg : Message)
    (err : LogEntry) (w : World) : World :=
  if bool_decide (ch ∈ cached_channels pf) then
    match send pf (tick w) ch with
    | Some _ => logged err (called [] w)
    | None => called [Sent ch msg] w
    end
  else w.

(** When the row is gone at the second read, the subscript on [None]
    raises and the handler ends there. *)
Definition _handle_confirm (pf : Platform) (clk : Clock)
    (payload : RawReactionActionEvent) (m : MatchRow) (w : World) : World :=
  let w1 :=
    with_matches
      (update_match_status (m_id m) (user_id payload) confirmed (matches w))
      w in
  match get_match_by_id (m_id m) (matches w1) with
  | None => w1
  | Some updated_match =>
      if bool_decide (user1_status updated_match = confirmed) &&
         bool_decide (user2_status updated_match = confirmed)
      then
        notify_channel pf (channel_id payload) CompletionNotice
          CompletionMessageError
          (with_matches (complete_match (m_id m) (utcnow clk) (matches w1))
             w1)
      else w1
  end.

Definition decline_partner (payload : RawReactionActionEvent)
    (m : MatchRow) : Z :=
  if bool_decide (user_id payload = user1_id m) then user2_id m
  else user1_id m.

(** The state of [_handle_decline] when it calls [_attempt_rematch]. *)
Definition decline_recorded (pf : Platform) (clk : Clock)
    (payload : RawReactionActionEvent) (m : MatchRow) (w : World) : World :=
  let ms :=
    complete_match (m_id m) (utcnow clk)
      (update_match_status (m_id m) (user_id payload) declined
         (matches w)) in
  notify_channel pf (channel_id payload)
    (DeclineNotice (user_id payload) (decline_partner payload m))
    DeclineMessageError (with_matches ms w).

Definition _handle_decline (pf : Platform) (clk : Clock)
    (payload : RawReactionActionEvent) (m : MatchRow) (w : World) : World :=
  _attempt_rematch pf clk (guild_id payload) (decline_partner payload m)
    (decline_recorded pf clk payload m w).

Definition on_raw_reaction_add (pf : Platform) (clk : Clock)
    (payload : RawReactionActionEvent) (w : World) : World :=
  if bool_decide (user_id payload = bot_user_id pf) then w
  else if negb (bool_decide
                  (emoji payload ∈ [white_check_mark; cross_mark])) then w
  else
    match get_match_by_thread (channel_id payload) (matches w) with
    | None => w
    | Some m =>
        if negb (bool_decide
                   (user_id payload ∈ [user1_id m; user2_id m])) then w
        else if bool_decide (emoji payload = white_check_mark) then
          _handle_confirm pf clk payload m w
        else if bool_decide (emoji payload = cross_mark) then
          _handle_decline pf clk payload m w
        else w
    end.

End one_on_ones.

(** ** Vocabulary of the statements *)

(** The users of a list of pairs, in order. *)
Definition members (ps : list (Z * Z)) : list Z :=
  ps ≫= λ p, [p.1; p.2].

(** A platform that accepts every thread creation, post and reaction. *)
Definition cooperative (pf : Platform) : Prop :=
  (∀ t c, ∃ th, create_thread pf t c = inr th) ∧
  (∀ t c, send pf t c = None) ∧
  (∀ t c, add_reaction pf t c = None).

(** One more reminder on a row. *)
Definition bump (r : MatchRow) : MatchRow :=
  set_reminder_count (reminder_count r + 1) r.

(** [r'] is [r] after some reminders: only [reminder_count] differs, it
    did not go past the cap unless it already was, and it rose only on an
    open match with a pending side. *)
Definition reminded_within_cap (r r' : MatchRow) : Prop :=
  r' = set_reminder_count (reminder_count r') r ∧
  reminder_count r ≤ reminder_count r' ∧
  reminder_count r' ≤ Z.max (reminder_count r) 2 ∧
  (reminder_count r < reminder_count r' →
   completed_at r = None ∧
   (user1_status r = pending ∨ user2_status r = pending)).

(** No reminder message among the events. *)
Definition no_reminder (evs : list Event) : Prop :=
  ∀ t us, Sent t (ReminderMsg us) ∉ evs.

(** The status column [update_match_status] writes for [u], by its
    [if]/[elif]. *)
Definition record_status (u : Z) (s : Status) (m : MatchRow) : MatchRow :=
  if bool_decide (user1_id m = u) then set_user1_status s m
  else if bool_decide (user2_id m = u) then set_user2_status s m
  else m.

Definition status_of (u : Z) (m : MatchRow) : Status :=
  if bool_decide (user1_id m = u) then user1_status m else user2_status m.

(** The match table after [_handle_confirm] for match [i] and user [u] at
    time [now]: lines 335-340 on the rows alone. *)
Definition confirm_rows (now : string) (i u : Z) (ms : list MatchRow)
    : list MatchRow :=
  let ms1 := actions.update_match_status i u confirmed ms in
  match actions.get_match_by_id i ms1 with
  | None => ms1
  | Some updated_match =>
      if bool_decide (user1_status updated_match = confirmed) &&
         bool_decide (user2_status updated_match = confirmed)
      then actions.complete_match i now ms1
      else ms1
  end.

(** ** A guild of seven available members, used to run the definitions *)

Module examples.
Import actions one_on_ones.

Definition member (g u : Z) (skip sat : option string) : PoolRow :=
  {| p_guild_id := g; p_user_id := u; joined_at := "2026-09-01 08:00:00";
     skip_until := skip; sat_out_at := sat |}.

(** Guild 1: 11 sat out two weeks ago, 12 skipped until the day before
    this Monday, 13 skips until next week; 15 belongs to guild 2. *)
Definition ex_pool : list PoolRow :=
  [ member 1 10 None None;
    member 1 11 None (Some "2026-10-20T10:00:00");
    member 1 12 (Some "2026-11-01T10:00:00+00:00") None;
    member 1 13 (Some "2026-11-09T10:00:00+00:00") None;
    member 1 14 None None;
    member 2 15 None None;
    member 1 16 None None;
    member 1 17 None None;
    member 1 18 None None ].

Definition ex_clock : Clock :=
  {| get_week_start := "2026-11-02"; weekday := 6; hour := 10;
     four_weeks_ago := "2026-10-06T10:00:00+00:00";
     utcnow := "2026-11-08T10:00:00"; db_now := "2026-11-08 10:00:00" |}.

Definition ex_later : Clock :=
  {| get_week_start := "2026-11-02"; weekday := 6; hour := 11;
     four_weeks_ago := "2026-10-06T11:30:00+00:00";
     utcnow := "2026-11-08T11:30:00"; db_now := "2026-11-08 11:30:00" |}.

Definition ex_guild : Guild :=
  {| g_id := 1;
     text_channels := [ {| ch_id := 501; ch_name := "general" |};
                        {| ch_id := 500; ch_name := "1-1s" |} ];
     cached_threads := [1000] |}.

Definition ex_guild_without_channel : Guild :=
  {| g_id := 1;
     text_channels := [ {| ch_id := 501; ch_name := "general" |} ];
     cached_threads := [] |}.

(** Every call succeeds except the fifth, which is refused. *)
Definition ex_platform : Platform :=
  {| bot_user_id := 99; guilds := [ex_guild]; cached_channels := [1000];
     create_thread := λ t _, if bool_decide (t = 4%nat) then inl Forbidden
                             else inr (1000 + Z.of_nat t);
     send := λ _ _, None; add_reaction := λ _ _, None;
     fetch_channel := λ _ _, None; fetch_user := λ _ _, None;
     send_dm := λ _ _, None |}.

Definition ex_world : World :=
  {| pool := ex_pool; matches := []; rng := [3; 1; 4; 1; 5; 9; 2; 6]%nat;
     tick := 0; trace := [] |}.

(** The state after the pairing round of [ex_world]: 16 sits out. *)
Definition ex_round_world : World :=
  with_pool (mark_user_sat_out 1 16 (utcnow ex_clock) ex_pool)
    (with_rng [2; 6]%nat ex_world).

Definition ex_match (i u1 u2 thread : Z) (s1 s2 : Status) (n : Z)
    (done_at : option string) : MatchRow :=
  {| m_id := i; m_guild_id := 1; week_start := "2026-11-02";
     user1_id := u1; user2_id := u2; thread_id := Some thread;
     user1_status := s1; user2_status := s2; reminder_count := n;
     created_at := "2026-11-02 10:00:00"; completed_at := done_at |}.

(** Match 1 is open, match 2 is completed by two confirmations, match 3 is
    open and has had its two reminders, match 4 waits for one side. *)
Definition ex_matches : list MatchRow :=
  [ ex_match 1 10 11 1000 pending pending 0 None;
    ex_match 2 12 14 1001 confirmed confirmed 1
      (Some "2026-11-03T09:00:00");
    ex_match 3 16 17 1002 pending confirmed 2 None;
    ex_match 4 18 19 1003 pending confirmed 1 None ].

Definition ex_world_matched : World :=
  {| pool := ex_pool; matches := ex_matches; rng := [2; 7]%nat;
     tick := 0; trace := [] |}.

Definition reaction (user : Z) (e : string) (thread : Z)
    : RawReactionActionEvent :=
  {| user_id := user; emoji := e; channel_id := thread; guild_id := 1 |}.

End examples.

(** ** The rest of the pool store, and the commands of the cog *)

Module pool_commands.
Import actions one_on_ones.

(** The dict [get_one_on_one_pool_status] returns: [joined_at],
    [skip_until], [sat_out_at]. *)
Definition get_one_on_one_pool_status (guild user : Z)
    (pool : list PoolRow) : option (string * option string * option string) :=
  (λ r, (joined_at r, skip_until r, sat_out_at r)) <$>
    fetch_one (λ r, bool_decide (p_guild_id r = guild) &&
                    bool_decide (p_user_id r = user)) pool.

(** What a command reads of its [discord.ApplicationContext]:
    [ctx.guild], [ctx.author.id], and whether the author passes
    [has_permissions(administrator=True)]. *)
Record ApplicationContext := {
  ctx_guild : option Guild;
  ctx_author : Z;
  ctx_administrator : bool
}.

(** The answers of [ctx.respond]. *)
Inductive Response :=
  | ServerOnly
  | JoinedPool
  | AlreadyInPool
  | LeftPool
  | NotInPool
  | JoinFirst
  | WillSkip (weeks : nat) (until : string)
  | MatchingComplete (count : nat).

(** [/1-1s join]; [now] is the store's clock, for [joined_at]. *)
Definition join (ctx : ApplicationContext) (now : string) (w : World)
    : Response * World :=
  match ctx_guild ctx with
  | None => (ServerOnly, w)
  | Some g =>
      let '(joined, p) :=
        join_one_on_one_pool (g_id g) (ctx_author ctx) now (pool w) in
      if joined then (JoinedPool, with_pool p w)
      else (AlreadyInPool, with_pool p w)
  end.

(** [/1-1s leave] *)
Definition leave (ctx : ApplicationContext) (w : World)
    : Response * World :=
  match ctx_guild ctx with
  | None => (ServerOnly, w)
  | Some g =>
      let '(removed, p) :=
        leave_one_on_one_pool (g_id g) (ctx_author ctx) (pool w) in
      if removed then (LeftPool, with_pool p w)
      else (NotInPool, with_pool p w)
  end.

(** [/1-1s skip weeks]; [until] is the ISO text of
    [datetime.now(timezone.utc) + timedelta(weeks=weeks)]. *)
Definition skip (ctx : ApplicationContext) (weeks : nat) (until : string)
    (w : World) : Response * World :=
  match ctx_guild ctx with
  | None => (ServerOnly, w)
  | Some g =>
      match get_one_on_one_pool_status (g_id g) (ctx_author ctx) (pool w) with
      | None => (JoinFirst, w)
      | Some _ =>
          (WillSkip weeks until,
           with_pool (set_one_on_one_skip (g_id g) (ctx_author ctx)
                        (Some until) (pool w)) w)
      end
  end.

(** [/1-1s run_matching]; [None] is a command that ends with an exception
    (the permission check, or one that leaves the run). *)
Definition run_matching (pf : Platform) (clk : Clock)
    (ctx : ApplicationContext) (w : World) : option Response * World :=
  if negb (ctx_administrator ctx) then (None, w)
  else
    match ctx_guild ctx with
    | None => (Some ServerOnly, w)
    | Some g =>
        match _run_matching_for_guild pf clk g w with
        | (Some count, w') => (Some (MatchingComplete count), w')
        | (None, w') => (None, w')
        end
    end.

(** One event of the cog: a tick of one of the two loops, a reaction, or
    one of the commands that write to the store, each with the platform
    and the clock readings of that moment. *)
Inductive step : World → World → Prop :=
  | step_weekly_matching pf clk w :
      step w (weekly_matching pf clk w)
  | step_send_reminders pf clk w :
      step w (send_reminders pf clk w)
  | step_reaction pf clk payload w :
      step w (on_raw_reaction_add pf clk payload w)
  | step_join ctx now w :
      step w (join ctx now w).2
  | step_leave ctx w :
      step w (leave ctx w).2
  | step_skip ctx weeks until w :
      step w (skip ctx weeks until w).2
  | step_run_matching pf clk ctx w :
      step w (run_matching pf clk ctx w).2.

End pool_commands.

(** ** Vocabulary of the lifecycle statements *)

(** The row of a match after a confirmation, and after a decline, by user
    [u] at time [now]. *)
Definition confirm_row (now : string) (u : Z) (r : MatchRow) : MatchRow :=
  let m1 := record_status u confirmed r in
  if bool_decide (user1_status m1 = confirmed) &&
     bool_decide (user2_status m1 = confirmed)
  then set_completed_at (Some now) m1 else m1.

Definition decline_row (now : string) (u : Z) (r : MatchRow) : MatchRow :=
  set_completed_at (Some now) (record_status u declined r).

(** [r'] is a later state of the match row [r]: the identity of the match
    (id, guild, week, the two users, thread, creation time) is the same,
    the reminder count did not go down nor past the cap, and a completion
    was not undone. *)
Definition evolves (r r' : MatchRow) : Prop :=
  m_id r' = m_id r ∧ m_guild_id r' = m_guild_id r ∧
  week_start r' = week_start r ∧
  user1_id r' = user1_id r ∧ user2_id r' = user2_id r ∧
  thread_id r' = thread_id r ∧ created_at r' = created_at r ∧
  reminder_count r ≤ reminder_count r' ∧
  reminder_count r' ≤ Z.max (reminder_count r) 2 ∧
  (completed_at r ≠ None → completed_at r' ≠ None).

(** The table [ms'] keeps every row of [ms], in place and evolved, and may
    have more rows after them. *)
Definition history_kept (ms ms' : list MatchRow) : Prop :=
  ∃ old' rows, ms' = old' ++ rows ∧ Forall2 evolves ms old'.

(** A match row as the cog makes and keeps it: two different users, at
    most two reminders, and while it is open nobody has declined and
    somebody is still pending. *)
Definition row_ok (r : MatchRow) : Prop :=
  user1_id r ≠ user2_id r ∧
  0 ≤ reminder_count r ∧ reminder_count r ≤ 2 ∧
  (completed_at r = None →
   user1_status r ≠ declined ∧ user2_status r ≠ declined ∧
   (user1_status r = pending ∨ user2_status r = pending)).

Definition well_formed (w : World) : Prop :=
  pool_keys_unique (pool w) ∧ match_ids_unique (matches w) ∧
  Forall row_ok (matches w).

(** [w'] follows [w]: if [w] is well formed, so is [w'], and its match
    table keeps the history of the one of [w]. *)
Definition follows (w w' : World) : Prop :=
  well_formed w →
  well_formed w' ∧ history_kept (matches w) (matches w').

(** ** The other tables of [db/actions.py]: users, guilds, personal
    channels, guild settings and reminders *)

Module guild_store.

Record UserRow := {
  u_user_id : Z;
  username : option string;
  u_created_at : string
}.

Record GuildRow := {
  gr_guild_id : Z;
  gr_name : option string
}.

(** A row of [user_private_channels]; primary key (guild, user). *)
Record PrivateChannelRow := {
  c_guild_id : Z;
  c_user_id : Z;
  c_channel_id : Z;
  c_created_at : string;
  last_journal_message : option string
}.

(** A row of [guild_settings]; primary key the guild. *)
Record SettingsRow := {
  s_guild_id : Z;
  welcome_message : option string;
  active_role_id : option Z;
  active_days : option Z
}.

(** A row of [reminders]; primary key [rem_id]. *)
Record ReminderRow := {
  rem_id : Z;
  rem_guild_id : Z;
  rem_user_id : Z;
  rem_channel_id : Z;
  message_link : string;
  message_preview : option string;
  remind_at : string;
  rem_created_at : string;
  completed : Z
}.

Record Db := {
  users : list UserRow;
  guilds : list GuildRow;
  user_private_channels : list PrivateChannelRow;
  guild_settings : list SettingsRow;
  reminders : list ReminderRow
}.

Definition with_users (t : list UserRow) (d : Db) : Db :=
  {| users := t; guilds := guilds d;
     user_private_channels := user_private_channels d;
     guild_settings := guild_settings d; reminders := reminders d |}.

Definition with_guilds (t : list GuildRow) (d : Db) : Db :=
  {| users := users d; guilds := t;
     user_private_channels := user_private_channels d;
     guild_settings := guild_settings d; reminders := reminders d |}.

Definition with_channels (t : list PrivateChannelRow) (d : Db) : Db :=
  {| users := users d; guilds := guilds d; user_private_channels := t;
     guild_settings := guild_settings d; reminders := reminders d |}.

Definition with_settings (t : list SettingsRow) (d : Db) : Db :=
  {| users := users d; guilds := guilds d;
     user_private_channels := user_private_channels d;
     guild_settings := t; reminders := reminders d |}.

Definition with_reminders (t : list ReminderRow) (d : Db) : Db :=
  {| users := users d; guilds := guilds d;
     user_private_channels := user_private_channels d;
     guild_settings := guild_settings d; reminders := t |}.

Definition set_channel_id (ch : Z) (r : PrivateChannelRow)
    : PrivateChannelRow :=
  {| c_guild_id := c_guild_id r; c_user_id := c_user_id r;
     c_channel_id := ch; c_created_at := c_created_at r;
     last_journal_message := last_journal_message r |}.

Definition set_last_journal_message (t : option string)
    (r : PrivateChannelRow) : PrivateChannelRow :=
  {| c_guild_id := c_guild_id r; c_user_id := c_user_id r;
     c_channel_id := c_channel_id r; c_created_at := c_created_at r;
     last_journal_message := t |}.

Definition set_welcome (m : option string) (r : SettingsRow) : SettingsRow :=
  {| s_guild_id := s_guild_id r; welcome_message := m;
     active_role_id := active_role_id r; active_days := active_days r |}.

Definition set_active_role (role : option Z) (r : SettingsRow)
    : SettingsRow :=
  {| s_guild_id := s_guild_id r; welcome_message := welcome_message r;
     active_role_id := role; active_days := active_days r |}.

Definition set_completed (c : Z) (r : ReminderRow) : ReminderRow :=
  {| rem_id := rem_id r; rem_guild_id := rem_guild_id r;
     rem_user_id := rem_user_id r; rem_channel_id := rem_channel_id r;
     message_link := message_link r; message_preview := message_preview r;
     remind_at := remind_at r; rem_created_at := rem_created_at r;
     completed := c |}.

(** "Ensure user exists": insert the user when no row has the id. *)
Definition ensure_user (user : Z) (name : option string) (now : string)
    (d : Db) : Db :=
  match fetch_one (λ r, bool_decide (u_user_id r = user)) (users d) with
  | Some _ => d
  | None =>
      with_users (users d ++ [ {| u_user_id := user; username := name;
                                  u_created_at := now |} ]) d
  end.

(** "Ensure guild exists" *)
Definition ensure_guild (guild : Z) (name : option string) (d : Db) : Db :=
  match fetch_one (λ r, bool_decide (gr_guild_id r = guild)) (guilds d) with
  | Some _ => d
  | None =>
      with_guilds (guilds d ++ [ {| gr_guild_id := guild;
                                    gr_name := name |} ]) d
  end.

Definition channel_key (guild user : Z) (r : PrivateChannelRow) : bool :=
  bool_decide (c_guild_id r = guild) && bool_decide (c_user_id r = user).

Definition get_user_channel (guild user : Z) (d : Db) : option Z :=
  c_channel_id <$> fetch_one (channel_key guild user) (user_private_channels d).

Definition create_user_channel (guild user channel : Z)
    (name guild_name : option string) (now : string) (d : Db) : Db :=
  let d := ensure_user user name now d in
  let d := ensure_guild guild guild_name d in
  match fetch_one (channel_key guild user) (user_private_channels d) with
  | Some _ =>
      with_channels (update_where (channel_key guild user)
                       (set_channel_id channel) (user_private_channels d)) d
  | None =>
      with_channels
        (user_private_channels d ++
           [ {| c_guild_id := guild; c_user_id := user;
                c_channel_id := channel; c_created_at := now;
                last_journal_message := None |} ]) d
  end.

Definition delete_user_channel (guild user : Z) (d : Db) : Db :=
  with_channels
    (filter (λ r, ¬ (c_guild_id r = guild ∧ c_user_id r = user))
       (user_private_channels d)) d.

Definition update_last_journal_message (guild user : Z) (now : string)
    (d : Db) : Db :=
  with_channels (update_where (channel_key guild user)
                   (set_last_journal_message (Some now))
                   (user_private_channels d)) d.

(** [last_journal_message >= cutoff], on text; NULL never passes. *)
Definition journaled_since (cutoff : string) (r : PrivateChannelRow) : bool :=
  match last_journal_message r with
  | None => false
  | Some t => bool_decide (String.le cutoff t)
  end.

Definition get_active_users (guild : Z) (cutoff : string) (d : Db)
    : list Z :=
  c_user_id <$>
    filter (λ r, c_guild_id r = guild ∧ journaled_since cutoff r)
           (user_private_channels d).

Definition get_all_user_channels (guild : Z) (d : Db) : list (Z * Z) :=
  (λ r, (c_user_id r, c_channel_id r)) <$>
    filter (λ r, c_guild_id r = guild) (user_private_channels d).

Definition settings_key (guild : Z) (r : SettingsRow) : bool :=
  bool_decide (s_guild_id r = guild).

(** [result["welcome_message"] if result else None] *)
Definition get_welcome_message (guild : Z) (d : Db) : option string :=
  match fetch_one (settings_key guild) (guild_settings d) with
  | Some r => welcome_message r
  | None => None
  end.

Definition get_active_role_id (guild : Z) (d : Db) : option Z :=
  match fetch_one (settings_key guild) (guild_settings d) with
  | Some r => active_role_id r
  | None => None
  end.

(** The INSERT names the guild and the message; the other columns of a
    new settings row are NULL. *)
Definition set_welcome_message (guild : Z) (message : string)
    (guild_name : option string) (d : Db) : Db :=
  let d := ensure_guild guild guild_name d in
  match fetch_one (settings_key guild) (guild_settings d) with
  | Some _ =>
      with_settings (update_where (settings_key guild)
                       (set_welcome (Some message)) (guild_settings d)) d
  | None =>
      with_settings
        (guild_settings d ++
           [ {| s_guild_id := guild; welcome_message := Some message;
                active_role_id := None; active_days := None |} ]) d
  end.

Definition set_active_role_id (guild role : Z) (guild_name : option string)
    (d : Db) : Db :=
  let d := ensure_guild guild guild_name d in
  match fetch_one (settings_key guild) (guild_settings d) with
  | Some _ =>
      with_settings (update_where (settings_key guild)
                       (set_active_role (Some role)) (guild_settings d)) d
  | None =>
      with_settings
        (guild_settings d ++
           [ {| s_guild_id := guild; welcome_message := None;
                active_role_id := Some role; active_days := None |} ]) d
  end.

Definition next_reminder_id (t : list ReminderRow) : Z :=
  1 + foldr Z.max 0 (rem_id <$> t).

(** [remind_at] is the ISO text of the time asked for; [now] is the
    store's clock, for [created_at]. *)
Definition create_reminder (guild user channel : Z) (link : string)
    (preview : option string) (remind_at : string) (now : string)
    (d : Db) : Db :=
  with_reminders
    (reminders d ++
       [ {| rem_id := next_reminder_id (reminders d); rem_guild_id := guild;
            rem_user_id := user; rem_channel_id := channel;
            message_link := link; message_preview := preview;
            remind_at := remind_at; rem_created_at := now;
            completed := 0 |} ]) d.

Definition get_due_reminders (now : string) (d : Db) : list ReminderRow :=
  filter (λ r, String.le (remind_at r) now ∧ completed r = 0) (reminders d).

Definition mark_reminder_completed (i : Z) (d : Db) : Db :=
  with_reminders (update_where (λ r, bool_decide (rem_id r = i))
                    (set_completed 1) (reminders d)) d.

End guild_store.

Global Instance row_ok_dec r : Decision (row_ok r).
Proof. unfold row_ok. apply _. Defined.

Global Instance well_formed_dec w : Decision (well_formed w).
Proof. unfold well_formed. apply _. Defined.

(** ** More of the example guild *)

Module more_examples.
Import actions one_on_ones pool_commands examples.

(** A platform that accepts every call. *)
Definition ex_platform_ok : Platform :=
  {| bot_user_id := 99; guilds := [ex_guild]; cached_channels := [1000];
     create_thread := λ t _, inr (2000 + Z.of_nat t);
     send := λ _ _, None; add_reaction := λ _ _, None;
     fetch_channel := λ _ _, None; fetch_user := λ _ _, None;
     send_dm := λ _ _, None |}.

(** The Tuesday after the matching of [ex_clock]'s week was made. *)
Definition ex_tuesday : Clock :=
  {| get_week_start := "2026-11-02"; weekday := 1; hour := 9;
     four_weeks_ago := "2026-10-06T09:00:00+00:00";
     utcnow := "2026-11-03T09:00:00"; db_now := "2026-11-03 09:00:00" |}.

(** Only match 1, between 10 and 11, has been made. *)
Definition ex_world_open : World :=
  {| pool := ex_pool;
     matches := [ex_match 1 10 11 1000 pending pending 0 None];
     rng := [4; 0]%nat; tick := 0; trace := [] |}.

Definition ex_ctx (author : Z) : ApplicationContext :=
  {| ctx_guild := Some ex_guild; ctx_author := author;
     ctx_administrator := false |}.

(** Three events on [ex_world_matched]: a reminder scan, the cross of user
    10 on match 1, and user 14 skipping two weeks. *)
Definition ex_after_scan : World :=
  send_reminders ex_platform ex_tuesday ex_world_matched.

Definition ex_after_decline : World :=
  on_raw_reaction_add ex_platform ex_later (reaction 10 cross_mark 1000)
    ex_after_scan.

Definition ex_after_skip : World :=
  (skip (ex_ctx 14) 2 "2026-11-22T11:40:00+00:00" ex_after_decline).2.

End more_examples.

(** ** Lists, draws and shuffles *)

Section random_facts.
Context {A : Type}.
Implicit Types (x : list A) (r : list nat).

Lemma randbelow_lt n r : (0 < n)%nat → ((randbelow n r).1 < n)%nat.
Proof.
  intros Hn. destruct r as [|d r']; simpl; [done|].
  apply Nat.mod_upper_bound. lia.
Qed.

Lemma choice_elem_of x r :
  x ≠ [] → ∃ a, (choice x r).1 = Some a ∧ a ∈ x.
Proof.
  intros Hx. unfold choice.
  pose proof (randbelow_lt (length x) r) as Hlt.
  destruct (randbelow (length x) r) as [j r'] eqn:Hj. simpl in *.
  destruct (lookup_lt_is_Some_2 x j) as [a Ha].
  { apply Hlt. destruct x; [done|simpl; lia]. }
  exists a. split; [done|]. by eapply list_elem_of_lookup_2.
Qed.

Lemma swap_perm i j x : swap i j x ≡ₚ x.
Proof.
  unfold swap.
  destruct (x !! i) as [a|] eqn:Hi; [|done].
  destruct (x !! j) as [b|] eqn:Hj; [|done].
  by apply Permutation_insert_swap.
Qed.

Lemma shuffle_from_perm i x r : (shuffle_from i x r).1 ≡ₚ x.
Proof.
  revert x r. induction i as [|i IH]; intros x r; simpl; [done|].
  destruct (randbelow (S (S i)) r) as [j r'].
  rewrite IH. apply swap_perm.
Qed.

Lemma shuffle_perm x r : (shuffle x r).1 ≡ₚ x.
Proof. apply shuffle_from_perm. Qed.

End random_facts.

Lemma list_remove_perm u l l' : list_remove u l = Some l' → l ≡ₚ u :: l'.
Proof.
  revert l'. induction l as [|y l IH]; intros l'; simpl; [done|].
  case_bool_decide as Hy.
  - intros [= <-]. by subst.
  - destruct (list_remove u l) as [k|]; simpl; [|done].
    intros [= <-]. rewrite (IH k eq_refl). apply Permutation_swap.
Qed.

Lemma list_remove_is_Some u l : u ∈ l → is_Some (list_remove u l).
Proof.
  induction l as [|y l IH]; simpl.
  - by intros ?%elem_of_nil.
  - intros Hin. case_bool_decide as Hy; [by eexists|].
    apply elem_of_cons in Hin as [->|Hin]; [done|].
    destruct (IH Hin) as [k ->]. by eexists.
Qed.

Lemma pair_up_even n a :
  length a = (2 * n)%nat →
  ∃ ps, pair_up a = Some ps ∧ length ps = n ∧ members ps = a.
Proof.
  revert a. induction n as [|n IH]; intros a Ha.
  - destruct a; [|done]. by exists [].
  - destruct a as [|u1 [|u2 rest]]; simpl in Ha; [lia..|].
    destruct (IH rest) as (ps & Hps & Hlen & Hmem); [lia|].
    exists ((u1, u2) :: ps). simpl. rewrite Hps. simpl.
    split; [done|]. split; [by rewrite Hlen|].
    unfold members in *. simpl. by rewrite Hmem.
Qed.

(** ** The store *)

Section store_facts.
Import actions.

Lemma elem_of_update_where {A} (c : A → bool) (f : A → A) t r' :
  r' ∈ update_where c f t ↔
  ∃ r, r ∈ t ∧ r' = (if c r then f r else r).
Proof.
  unfold update_where. rewrite list_elem_of_fmap. split.
  - intros (r & -> & ?). by exists r.
  - intros (r & ? & ->). by exists r.
Qed.

Lemma fetch_one_Some {A} (c : A → bool) t r :
  fetch_one c t = Some r → r ∈ t ∧ c r = true.
Proof.
  induction t as [|x t IH]; simpl; [done|].
  destruct (c x) eqn:Hc.
  - intros [= <-]. split; [left|done].
  - intros [? ?]%IH. split; [by right|done].
Qed.

Lemma fetch_one_None {A} (c : A → bool) t :
  fetch_one c t = None ↔ ∀ r, r ∈ t → c r = false.
Proof.
  induction t as [|x t IH]; simpl.
  - split; [|done]. by intros _ r ?%elem_of_nil.
  - destruct (c x) eqn:Hc.
    + split; [done|]. intros H. specialize (H x (list_elem_of_here _ _)).
      congruence.
    + rewrite IH. split.
      * intros H r [->|?]%elem_of_cons; auto.
      * intros H r ?. apply H. by right.
Qed.

Lemma elem_of_get_available g wk pool u :
  u ∈ get_available_pool_members g wk pool ↔
  ∃ r, r ∈ pool ∧ p_guild_id r = g ∧ p_user_id r = u ∧
       not_skipping wk r = true.
Proof.
  unfold get_available_pool_members. rewrite list_elem_of_fmap. split.
  - intros (r & -> & Hr). apply list_elem_of_filter in Hr as [[? ?] ?].
    exists r. repeat split; try done. by apply Is_true_true.
  - intros (r & ? & ? & ? & ?). exists r. split; [done|].
    apply list_elem_of_filter. repeat split; try done. by apply Is_true_true.
Qed.

Lemma elem_of_sat_out_recently g since pool u :
  u ∈ get_users_who_sat_out_recently g since pool ↔
  ∃ r, r ∈ pool ∧ p_guild_id r = g ∧ p_user_id r = u ∧
       sat_out_since since r = true.
Proof.
  unfold get_users_who_sat_out_recently. rewrite list_elem_of_fmap. split.
  - intros (r & -> & Hr). apply list_elem_of_filter in Hr as [[? ?] ?].
    exists r. repeat split; try done. by apply Is_true_true.
  - intros (r & ? & ? & ? & ?). exists r. split; [done|].
    apply list_elem_of_filter. repeat split; try done. by apply Is_true_true.
Qed.

(** Within one guild the user id alone is the key. *)
Lemma get_available_NoDup g wk pool :
  pool_keys_unique pool → NoDup (get_available_pool_members g wk pool).
Proof.
  unfold pool_keys_unique, get_available_pool_members.
  induction pool as [|r pool IH]; simpl; [constructor|].
  intros [Hr Hnd]%NoDup_cons. rewrite filter_cons.
  case_decide as Hc; [|by apply IH].
  simpl. apply NoDup_cons. split; [|by apply IH].
  intros (r' & Hu & Hr')%list_elem_of_fmap.
  apply list_elem_of_filter in Hr' as [[Hg' _] Hin].
  apply Hr. apply list_elem_of_fmap. exists r'. split; [|done].
  destruct Hc as [Hg _]. by rewrite Hu, Hg, Hg'.
Qed.

Lemma elem_of_matched_this_week g wk ms u :
  u ∈ get_users_matched_this_week g wk ms ↔
  ∃ r, r ∈ ms ∧ m_guild_id r = g ∧ week_start r = wk ∧
       (user1_id r = u ∨ user2_id r = u).
Proof.
  unfold get_users_matched_this_week.
  set (f := λ (s : gset Z) (row : MatchRow),
              {[user2_id row]} ∪ ({[user1_id row]} ∪ s)).
  assert (∀ l (acc : gset Z),
            u ∈ foldl f acc l ↔
            u ∈ acc ∨ ∃ r, r ∈ l ∧ (user1_id r = u ∨ user2_id r = u))
    as Hfold.
  { induction l as [|x l IH]; intros acc; simpl.
    - split; [auto|]. intros [?|(r & ?%elem_of_nil & _)]; done.
    - rewrite IH. unfold f. split.
      + intros [Hu|(r & ? & ?)].
        * apply elem_of_union in Hu as [Hu|Hu].
          { apply elem_of_singleton in Hu. right. exists x.
            split; [left|]; auto. }
          apply elem_of_union in Hu as [Hu|Hu]; [|by left].
          apply elem_of_singleton in Hu. right. exists x.
          split; [left|]; auto.
        * right. exists r. split; [by right|done].
      + intros [?|(r & [->|?]%elem_of_cons & Hr)].
        * left. set_solver.
        * left. set_solver.
        * right. by exists r. }
  rewrite Hfold. split.
  - intros [?%not_elem_of_empty|(r & Hr & ?)]; [done|].
    apply list_elem_of_filter in Hr as [[? ?] ?]. by exists r.
  - intros (r & ? & ? & ? & ?). right. exists r. split; [|done].
    by apply list_elem_of_filter.
Qed.

Lemma elem_of_partners_this_week g uid wk ms u :
  u ∈ get_user_partners_this_week g uid wk ms ↔
  ∃ r, r ∈ ms ∧ m_guild_id r = g ∧ week_start r = wk ∧
       ((user1_id r = uid ∧ user2_id r = u) ∨
        (user1_id r ≠ uid ∧ user2_id r = uid ∧ user1_id r = u)).
Proof.
  unfold get_user_partners_this_week.
  set (f := λ (s : gset Z) (row : MatchRow),
              if bool_decide (user1_id row = uid)
              then {[user2_id row]} ∪ s else {[user1_id row]} ∪ s).
  assert (∀ l (acc : gset Z),
            u ∈ foldl f acc l ↔
            u ∈ acc ∨ ∃ r, r ∈ l ∧
              ((user1_id r = uid ∧ user2_id r = u) ∨
               (user1_id r ≠ uid ∧ user1_id r = u)))
    as Hfold.
  { induction l as [|x l IH]; intros acc; simpl.
    - split; [auto|]. intros [?|(r & ?%elem_of_nil & _)]; done.
    - rewrite IH. unfold f. split.
      + intros [Hu|(r & ? & ?)].
        * case_bool_decide as Hx;
            apply elem_of_union in Hu as [Hu%elem_of_singleton|Hu];
            try (by left); right; exists x; (split; [left|]); auto.
        * right. exists r. split; [by right|done].
      + intros [?|(r & [->|?]%elem_of_cons & Hr)].
        * left. case_bool_decide; set_solver.
        * left. case_bool_decide; set_solver.
        * right. by exists r. }
  rewrite Hfold. split.
  - intros [?%not_elem_of_empty|(r & Hr & Hcase)]; [done|].
    apply list_elem_of_filter in Hr as [(? & ? & Hor) ?].
    exists r. repeat split; try done. naive_solver.
  - intros (r & ? & ? & ? & Hcase). right. exists r. split.
    + apply list_elem_of_filter. naive_solver.
    + naive_solver.
Qed.

Lemma mark_user_sat_out_marked g u now pool r' :
  r' ∈ mark_user_sat_out g u now pool →
  p_guild_id r' = g → p_user_id r' = u → sat_out_at r' = Some now.
Proof.
  unfold mark_user_sat_out. intros (r & Hr & ->)%elem_of_update_where Hg Hu.
  destruct (bool_decide (p_guild_id r = g) && bool_decide (p_user_id r = u))
    eqn:Hc; [done|].
  apply andb_false_iff in Hc as [Hc|Hc]; apply bool_decide_eq_false in Hc;
    done.
Qed.

Lemma mark_user_sat_out_row g u now pool r :
  r ∈ pool → p_guild_id r = g → p_user_id r = u →
  set_sat_out_at (Some now) r ∈ mark_user_sat_out g u now pool.
Proof.
  intros Hr Hg Hu. apply elem_of_update_where. exists r. split; [done|].
  by rewrite !bool_decide_eq_true_2.
Qed.

Lemma mark_user_sat_out_other g u now pool r' :
  r' ∈ mark_user_sat_out g u now pool →
  ¬ (p_guild_id r' = g ∧ p_user_id r' = u) → r' ∈ pool.
Proof.
  unfold mark_user_sat_out. intros (r & Hr & ->)%elem_of_update_where Hne.
  destruct (bool_decide (p_guild_id r = g) && bool_decide (p_user_id r = u))
    eqn:Hc; [|done].
  apply andb_true_iff in Hc as [Hg%bool_decide_eq_true Hu%bool_decide_eq_true].
  by destruct Hne.
Qed.

Lemma next_match_id_fresh ms r : r ∈ ms → m_id r < next_match_id ms.
Proof.
  unfold next_match_id. induction ms as [|x ms IH].
  - by intros ?%elem_of_nil.
  - rewrite fmap_cons. cbn [foldr].
    intros [->|Hr]%elem_of_cons; [lia|]. specialize (IH Hr). lia.
Qed.

(** The writes keep the primary keys unique. *)
Lemma create_one_on_one_match_ids_unique g wk u1 u2 th now ms :
  match_ids_unique ms →
  match_ids_unique (create_one_on_one_match g wk u1 u2 th now ms).2.
Proof.
  unfold match_ids_unique. simpl. intros Hnd. rewrite fmap_app. simpl.
  apply NoDup_app. split; [done|]. split; [|apply NoDup_singleton].
  intros i (r & -> & Hr)%list_elem_of_fmap Hi%list_elem_of_singleton.
  pose proof (next_match_id_fresh ms r Hr). lia.
Qed.

Lemma join_one_on_one_pool_keys_unique g u now pool :
  pool_keys_unique pool →
  pool_keys_unique (join_one_on_one_pool g u now pool).2.
Proof.
  unfold pool_keys_unique, join_one_on_one_pool. intros Hnd.
  destruct (fetch_one _ pool) as [r|] eqn:Hf; [done|]. simpl.
  rewrite fmap_app. simpl.
  apply NoDup_app. split; [done|]. split; [|apply NoDup_singleton].
  intros k (r & -> & Hr)%list_elem_of_fmap Hk%list_elem_of_singleton.
  rewrite fetch_one_None in Hf. specialize (Hf r Hr).
  injection Hk as Hg Hu.
  by rewrite !bool_decide_eq_true_2 in Hf.
Qed.

Lemma mark_user_sat_out_keys_unique g u now pool :
  pool_keys_unique pool → pool_keys_unique (mark_user_sat_out g u now pool).
Proof.
  unfold pool_keys_unique, mark_user_sat_out, update_where.
  rewrite <-list_fmap_compose. intros Hnd.
  erewrite list_fmap_ext; [exact Hnd|]. intros _ r _. simpl.
  by destruct (_ && _).
Qed.

End store_facts.

(** ** The pairing round *)

Section pairing_facts.
Import actions one_on_ones.

Lemma pair_rest_paired sit av w n :
  length av = (2 * n)%nat →
  ∃ pairs r,
    pair_rest sit av w = Paired sit pairs (with_rng r w) ∧
    length pairs = n ∧ members pairs ≡ₚ av.
Proof.
  intros Hlen. unfold pair_rest.
  pose proof (shuffle_perm av (rng w)) as Hperm.
  destruct (shuffle av (rng w)) as [shuffled r]. simpl in Hperm.
  destruct (pair_up_even n shuffled) as (ps & Hps & Hn & Hmem).
  { by rewrite (Permutation_length Hperm). }
  rewrite Hps. exists ps, r. by rewrite Hmem.
Qed.

Lemma eligible_length clk gid w :
  (length (eligible clk gid w) ≤
   length (get_available_pool_members gid (get_week_start clk) (pool w)))%nat.
Proof. unfold eligible. apply length_filter. Qed.

Lemma eligible_NoDup clk gid w :
  pool_keys_unique (pool w) → NoDup (eligible clk gid w).
Proof.
  intros Hk. unfold eligible. apply NoDup_filter. by apply get_available_NoDup.
Qed.

Lemma sit_out_candidates_subseteq clk gid av w u :
  u ∈ sit_out_candidates clk gid av w → u ∈ av.
Proof. unfold sit_out_candidates. by intros [_ ?]%list_elem_of_filter. Qed.

(** What a round that gets past the two size checks produces. *)
Lemma pairing_round_paired clk gid w :
  (2 ≤ length (eligible clk gid w))%nat →
  ∃ sit pairs w',
    pairing_round clk gid w = Paired sit pairs w' ∧
    length pairs = (length (eligible clk gid w) / 2)%nat ∧
    members pairs ++ option_list sit ≡ₚ eligible clk gid w ∧
    matches w' = matches w ∧ tick w' = tick w ∧ trace w' = trace w ∧
    match sit with
    | None =>
        (length (eligible clk gid w) mod 2 = 0)%nat ∧ pool w' = pool w
    | Some u =>
        (length (eligible clk gid w) mod 2 = 1)%nat ∧
        pool w' = mark_user_sat_out gid u (utcnow clk) (pool w) ∧
        let c := sit_out_candidates clk gid (eligible clk gid w) w in
        (c ≠ [] → u ∈ c) ∧ (c = [] → u ∈ eligible clk gid w)
    end.
Proof.
  intros Hge. unfold pairing_round.
  pose proof (eligible_length clk gid w) as Hle.
  destruct (Nat.ltb_spec
              (length (get_available_pool_members gid (get_week_start clk)
                         (pool w))) 2) as [?|_]; [lia|].
  destruct (Nat.ltb_spec (length (eligible clk gid w)) 2) as [?|_]; [lia|].
  set (av := eligible clk gid w) in *.
  destruct (Nat.eqb_spec (length av mod 2) 1) as [Hodd|Heven].
  - set (c := sit_out_candidates clk gid av w).
    assert (∃ u r, (match c with
                    | _ :: _ => choice c (rng w)
                    | [] => choice av (rng w)
                    end) = (Some u, r) ∧ u ∈ av ∧
                   (c ≠ [] → u ∈ c)) as (u & r & -> & Hu & Huc).
    { destruct c as [|c0 c'] eqn:Hc.
      - destruct (choice_elem_of av (rng w)) as (u & Hpick & Hin).
        { intros Hnil. rewrite Hnil in Hge. simpl in Hge. lia. }
        destruct (choice av (rng w)) as [p r]. simpl in Hpick. subst p.
        by exists u, r.
      - destruct (choice_elem_of (c0 :: c') (rng w)) as (u & Hpick & Hin);
          [done|].
        destruct (choice (c0 :: c') (rng w)) as [p r]. simpl in Hpick.
        subst p. exists u, r. split; [done|]. split; [|done].
        apply (sit_out_candidates_subseteq clk gid av w). fold c.
        by rewrite Hc. }
    destruct (list_remove_is_Some u av Hu) as [av' Hrm]. rewrite Hrm.
    pose proof (list_remove_perm _ _ _ Hrm) as Hperm.
    pose proof (Permutation_length Hperm) as Hlen. simpl in Hlen.
    pose proof (Nat.div_mod_eq (length av) 2) as Hdm.
    destruct (pair_rest_paired (Some u) av'
                (with_pool (mark_user_sat_out gid u (utcnow clk) (pool w))
                   (with_rng r w)) (length av / 2))
      as (pairs & r' & -> & Hn & Hmem); [lia|].
    eexists _, _, _. split_and!; try done.
    simpl. rewrite Hmem, Hperm. by rewrite <-Permutation_cons_append.
  - assert (length av mod 2 = 0)%nat as Hev.
    { pose proof (Nat.mod_upper_bound (length av) 2). lia. }
    pose proof (Nat.div_mod_eq (length av) 2) as Hdm.
    destruct (pair_rest_paired None av w (length av / 2))
      as (pairs & r' & -> & Hn & Hmem); [lia|].
    eexists _, _, _. split_and!; try done.
    simpl. by rewrite app_nil_r.
Qed.

Lemma pairing_round_inv clk gid w sit pairs w' :
  pairing_round clk gid w = Paired sit pairs w' →
  (2 ≤ length (eligible clk gid w))%nat.
Proof.
  unfold pairing_round.
  destruct (Nat.ltb_spec
              (length (get_available_pool_members gid (get_week_start clk)
                         (pool w))) 2) as [?|_]; [done|].
  destruct (Nat.ltb_spec (length (eligible clk gid w)) 2) as [?|?]; done.
Qed.

Lemma eligible_in_pool clk gid w u :
  u ∈ eligible clk gid w →
  ∃ r, r ∈ pool w ∧ p_guild_id r = gid ∧ p_user_id r = u.
Proof.
  unfold eligible. intros [_ Hu]%list_elem_of_filter.
  apply elem_of_get_available in Hu as (r & ? & ? & ? & _). by exists r.
Qed.

Lemma sit_out_in_eligible (ms : list Z) u av :
  ms ++ option_list (Some u) ≡ₚ av → u ∈ av.
Proof. intros <-. simpl. apply elem_of_app. right. by left. Qed.

(** C3. For every eligible set of size n >= 2 (pool members of the guild
    that are not skipping and not yet matched this week) one weekly pairing
    run forms exactly n / 2 pairs in which no user appears twice, all taken
    from the eligible set; when n is even the pairs cover the eligible set,
    and when n is odd exactly one eligible member sits out: that member is in
    no pair, the pairs cover everyone else, and the member's pool row gets
    [sat_out_at] set to the time of the run. These are the pairs the run
    hands to the thread-and-match creation loop. *)
Theorem weekly_pairing_partition pf clk g w :
  pool_keys_unique (pool w) →
  (2 ≤ length (eligible clk (g_id g) w))%nat →
  ∃ sit pairs w',
    pairing_round clk (g_id g) w = Paired sit pairs w' ∧
    _run_matching_for_guild pf clk g w =
      match _get_one_on_ones_channel g with
      | None => (Some 0%nat, logged (NoChannelFound (g_id g)) w')
      | Some channel =>
          let '(n, w2) :=
            create_matches pf clk (g_id g) (ch_id channel) pairs 0%nat w' in
          (Some n, w2)
      end ∧
    length pairs = (length (eligible clk (g_id g) w) / 2)%nat ∧
    NoDup (members pairs) ∧
    (∀ u, u ∈ members pairs → u ∈ eligible clk (g_id g) w) ∧
    match sit with
    | None =>
        (length (eligible clk (g_id g) w) mod 2 = 0)%nat ∧
        members pairs ≡ₚ eligible clk (g_id g) w ∧
        pool w' = pool w
    | Some u =>
        (length (eligible clk (g_id g) w) mod 2 = 1)%nat ∧
        u ∈ eligible clk (g_id g) w ∧
        (u ∉ members pairs) ∧
        u :: members pairs ≡ₚ eligible clk (g_id g) w ∧
        (∃ r, r ∈ pool w' ∧ p_guild_id r = g_id g ∧ p_user_id r = u) ∧
        (∀ r, r ∈ pool w' → p_guild_id r = g_id g → p_user_id r = u →
              sat_out_at r = Some (utcnow clk))
    end.
Proof.
  intros Hkeys Hge.
  destruct (pairing_round_paired clk (g_id g) w Hge)
    as (sit & pairs & w' & Hround & Hlen & Hperm & _ & _ & _ & Hsit).
  pose proof (eligible_NoDup clk (g_id g) w Hkeys) as Hnd.
  rewrite <-Hperm in Hnd. apply NoDup_app in Hnd as (Hnd & Hdisj & _).
  exists sit, pairs, w'. split; [done|]. split.
  { unfold _run_matching_for_guild. by rewrite Hround. }
  split; [done|]. split; [done|]. split.
  { intros u Hu. rewrite <-Hperm. apply elem_of_app. by left. }
  destruct sit as [u|]; simpl in *.
  - destruct Hsit as (Hodd & Hpool & _).
    assert (u ∈ eligible clk (g_id g) w) as Hu
      by (by eapply sit_out_in_eligible).
    split; [done|]. split; [done|]. split.
    { intros Hin. apply (Hdisj u Hin). by left. }
    split. { by rewrite <-Hperm, <-Permutation_cons_append. }
    rewrite Hpool. split.
    + destruct (eligible_in_pool _ _ _ _ Hu) as (r & Hr & Hg & Hru).
      exists (set_sat_out_at (Some (utcnow clk)) r). split; [|done].
      by apply mark_user_sat_out_row.
    + intros r Hr Hg Hru. by eapply mark_user_sat_out_marked.
  - destruct Hsit as (Heven & Hpool). rewrite app_nil_r in Hperm. done.
Qed.

(** A member is listed by the sit-out query exactly when one of its pool
    rows in the guild has [sat_out_at] set and at or after [since]. *)
Lemma sat_out_recently_rows g since pool v :
  v ∈ get_users_who_sat_out_recently g since pool ↔
  ∃ r t, r ∈ pool ∧ p_guild_id r = g ∧ p_user_id r = v ∧
         sat_out_at r = Some t ∧ String.le since t.
Proof.
  rewrite elem_of_sat_out_recently. unfold sat_out_since. split.
  - intros (r & Hr & Hg & Hu & Hs).
    destruct (sat_out_at r) as [t|] eqn:Ht; [|done].
    exists r, t. by apply bool_decide_eq_true in Hs.
  - intros (r & t & Hr & Hg & Hu & Ht & Hle). exists r.
    rewrite Ht. split_and!; try done. by apply bool_decide_eq_true.
Qed.

(** C4. When a round picks a sit-out, the eligible count is odd and the
    sit-out is an eligible member. Call a member recent when a pool row of
    it in the guild has [sat_out_at] set and at or after the clock's
    four-weeks-ago reading, in text order. The round draws from exactly the
    eligible members that are not recent; the sit-out is not recent
    whenever some eligible member is not; hence a recent member is picked
    only if every eligible member is recent. *)
Theorem sit_out_prefers_not_recent clk gid w u pairs w' :
  pairing_round clk gid w = Paired (Some u) pairs w' →
  let av := eligible clk gid w in
  let recent v :=
    ∃ r t, r ∈ pool w ∧ p_guild_id r = gid ∧ p_user_id r = v ∧
           sat_out_at r = Some t ∧ String.le (four_weeks_ago clk) t in
  (length av mod 2 = 1)%nat ∧
  u ∈ av ∧
  (∀ v, v ∈ sit_out_candidates clk gid av w ↔ v ∈ av ∧ ¬ recent v) ∧
  ((∃ v, v ∈ av ∧ ¬ recent v) → ¬ recent u) ∧
  (recent u → ∀ v, v ∈ av → recent v).
Proof.
  intros Hround av recent.
  pose proof (pairing_round_inv _ _ _ _ _ _ Hround) as Hge.
  destruct (pairing_round_paired clk gid w Hge)
    as (sit & pairs0 & w0 & Hround0 & _ & _ & _ & _ & _ & Hsit).
  rewrite Hround in Hround0. injection Hround0 as <- <- <-.
  simpl in Hsit. destruct Hsit as (Hodd & _ & Hc & Hnil).
  set (c := sit_out_candidates clk gid av w) in *.
  assert (∀ v, recent v ↔
               v ∈ get_users_who_sat_out_recently gid (four_weeks_ago clk)
                     (pool w)) as Hrec.
  { intros v. by rewrite sat_out_recently_rows. }
  assert (∀ v, v ∈ c ↔ v ∈ av ∧ ¬ recent v) as Hmem.
  { intros v. unfold c, sit_out_candidates.
    rewrite list_elem_of_filter, elem_of_list_to_set, Hrec. tauto. }
  assert ((∃ v, v ∈ av ∧ ¬ recent v) → ¬ recent u) as Hpref.
  { intros (v & Hv & Hnv).
    assert (v ∈ c) as Hvc by (by apply Hmem).
    assert (c ≠ []) as Hne by (intros Heq; rewrite Heq in Hvc; inversion Hvc).
    by apply Hc, Hmem in Hne as [_ Hnu]. }
  split; [done|]. split.
  { destruct (decide (c = [])) as [Hcs|Hcs]; [by apply Hnil|].
    apply (Hmem u). by apply Hc. }
  split; [done|]. split; [done|].
  intros Hu v Hv.
  destruct (decide (v ∈ get_users_who_sat_out_recently gid
                          (four_weeks_ago clk) (pool w))) as [Hin|Hnv].
  - by apply Hrec.
  - exfalso. apply Hpref; [|done]. exists v. split; [done|].
    by rewrite Hrec.
Qed.

(** C10. The sit-out is marked before the channel lookup: when the eligible
    count is odd (and at least 2) and the guild has no [1-1s] channel, the
    run returns 0 and leaves the match table as it was, yet one eligible
    member's pool row already carries the new [sat_out_at]. *)
Theorem sit_out_marked_before_channel_check pf clk g w :
  (2 ≤ length (eligible clk (g_id g) w))%nat →
  (length (eligible clk (g_id g) w) mod 2 = 1)%nat →
  _get_one_on_ones_channel g = None →
  ∃ u w',
    _run_matching_for_guild pf clk g w = (Some 0%nat, w') ∧
    matches w' = matches w ∧
    u ∈ eligible clk (g_id g) w ∧
    pool w' = mark_user_sat_out (g_id g) u (utcnow clk) (pool w) ∧
    (∃ r, r ∈ pool w' ∧ p_guild_id r = g_id g ∧ p_user_id r = u ∧
          sat_out_at r = Some (utcnow clk)).
Proof.
  intros Hge Hodd Hch.
  destruct (pairing_round_paired clk (g_id g) w Hge)
    as (sit & pairs & w' & Hround & _ & Hperm & Hms & _ & _ & Hsit).
  destruct sit as [u|]; [|destruct Hsit as [Hev _]; lia].
  destruct Hsit as (_ & Hpool & _).
  assert (u ∈ eligible clk (g_id g) w) as Hu
    by (by eapply sit_out_in_eligible).
  exists u, (logged (NoChannelFound (g_id g)) w').
  unfold _run_matching_for_guild. rewrite Hround, Hch.
  split; [done|]. split; [done|]. split; [done|]. split; [done|].
  simpl. rewrite Hpool.
  destruct (eligible_in_pool _ _ _ _ Hu) as (r & Hr & Hg & Hru).
  exists (set_sat_out_at (Some (utcnow clk)) r).
  split; [by apply mark_user_sat_out_row|done].
Qed.

End pairing_facts.

(** ** The creation loop *)

Section creation_facts.
Import actions one_on_ones.

Lemma open_match_thread_frame pf ch intro w :
  matches (open_match_thread pf ch intro w).2 = matches w ∧
  pool (open_match_thread pf ch intro w).2 = pool w ∧
  rng (open_match_thread pf ch intro w).2 = rng w.
Proof.
  unfold open_match_thread.
  repeat (match goal with
          | |- context [match ?x with _ => _ end] => destruct x
          end; simpl); done.
Qed.

Lemma open_match_thread_fails pf ch intro w e :
  create_thread pf (tick w) ch = inl e →
  open_match_thread pf ch intro w = (inl e, called [] w).
Proof. intros He. unfold open_match_thread. by rewrite He. Qed.

Lemma create_matches_failure pf clk gid ch u1 u2 rest n w e :
  create_thread pf (tick w) ch = inl e →
  create_matches pf clk gid ch ((u1, u2) :: rest) n w =
  create_matches pf clk gid ch rest n
    (logged (thread_failure_log gid e) (called [] w)).
Proof.
  intros He. simpl. by rewrite (open_match_thread_fails _ _ _ _ _ He).
Qed.

Lemma create_matches_app pf clk gid ch l1 l2 n w :
  create_matches pf clk gid ch (l1 ++ l2) n w =
  create_matches pf clk gid ch l2
    (create_matches pf clk gid ch l1 n w).1
    (create_matches pf clk gid ch l1 n w).2.
Proof.
  revert n w. induction l1 as [|[u1 u2] l1 IH]; intros n w; simpl; [done|].
  destruct (open_match_thread pf ch (MatchIntro u1 u2) w) as [[e|th] w1].
  - apply IH.
  - apply IH.
Qed.

(** The rows a loop over [pairs] appends, and nothing else changes in the
    store. *)
Lemma create_matches_rows pf clk gid ch pairs n w :
  ∃ rows,
    matches (create_matches pf clk gid ch pairs n w).2 = matches w ++ rows ∧
    (create_matches pf clk gid ch pairs n w).1 = (n + length rows)%nat ∧
    pool (create_matches pf clk gid ch pairs n w).2 = pool w ∧
    Forall (λ r, (user1_id r, user2_id r) ∈ pairs ∧
                 m_guild_id r = gid ∧
                 week_start r = get_week_start clk ∧
                 user1_status r = pending ∧ user2_status r = pending ∧
                 completed_at r = None) rows.
Proof.
  revert n w. induction pairs as [|[u1 u2] rest IH]; intros n w.
  { exists []. simpl. rewrite app_nil_r. split_and!; try done; lia. }
  simpl.
  pose proof (open_match_thread_frame pf ch (MatchIntro u1 u2) w)
    as (Hms & Hpool & _).
  destruct (open_match_thread pf ch (MatchIntro u1 u2) w) as [[e|th] w1];
    simpl in Hms, Hpool.
  - destruct (IH n (logged (thread_failure_log gid e) w1))
      as (rows & H1 & H2 & H3 & H4).
    exists rows. simpl in *. rewrite H1, H2, H3, Hms, Hpool.
    split_and!; try done.
    eapply Forall_impl; [exact H4|]. intros r (? & ?). split; [|done].
    by right.
  - match goal with
    | |- context [create_matches _ _ _ _ rest (S n) ?w2] =>
        destruct (IH (S n) w2) as (rows & H1 & H2 & H3 & H4)
    end.
    eexists (_ :: rows). simpl in *. rewrite H1, H2, H3, Hms, Hpool.
    rewrite <-app_assoc. simpl. split_and!; try done; try lia.
    constructor.
    + simpl. split_and!; try done. by left.
    + eapply Forall_impl; [exact H4|]. intros r (? & ?). split; [|done].
      by right.
Qed.

Lemma members_middle l1 u1 u2 l2 :
  members (l1 ++ (u1, u2) :: l2) ≡ₚ u1 :: u2 :: members (l1 ++ l2).
Proof.
  unfold members. rewrite !bind_app, bind_cons. simpl.
  by rewrite <-!Permutation_middle.
Qed.

Lemma elem_of_members_pair u1 u2 l : (u1, u2) ∈ l → u1 ∈ members l.
Proof.
  intros Hin. unfold members. apply list_elem_of_bind.
  exists (u1, u2). split; [|done]. simpl. by left.
Qed.

Lemma create_matches_cooperative pf clk gid ch pairs n w :
  cooperative pf →
  (create_matches pf clk gid ch pairs n w).1 = (n + length pairs)%nat.
Proof.
  intros (Hth & Hsend & Hreact). revert n w.
  induction pairs as [|[u1 u2] rest IH]; intros n w; simpl; [lia|].
  unfold open_match_thread. destruct (Hth (tick w) ch) as [th ->].
  rewrite Hsend, !Hreact. rewrite IH. lia.
Qed.

(** On a cooperative platform with a [1-1s] channel the run returns the
    number of pairs, half the eligible count. *)
Lemma _run_matching_for_guild_cooperative pf clk g w channel :
  cooperative pf →
  (2 ≤ length (eligible clk (g_id g) w))%nat →
  _get_one_on_ones_channel g = Some channel →
  (_run_matching_for_guild pf clk g w).1 =
  Some (length (eligible clk (g_id g) w) / 2)%nat.
Proof.
  intros Hpf Hge Hch.
  destruct (pairing_round_paired clk (g_id g) w Hge)
    as (sit & pairs & w' & Hround & Hlen & _).
  unfold _run_matching_for_guild. rewrite Hround, Hch.
  pose proof (create_matches_cooperative pf clk (g_id g) (ch_id channel)
                pairs 0%nat w' Hpf) as Hn.
  destruct (create_matches _ _ _ _ pairs 0%nat w') as [n w2]. simpl in *.
  by rewrite Hn, Hlen.
Qed.

(** The two users of a pair of a round are distinct. *)
Lemma members_NoDup_distinct pairs u1 u2 :
  NoDup (members pairs) → (u1, u2) ∈ pairs → u1 ≠ u2.
Proof.
  intros Hnd Hin.
  apply list_elem_of_split in Hin as (l1 & l2 & ->).
  rewrite members_middle in Hnd.
  apply NoDup_cons in Hnd as [Hu1 _]. intros ->. apply Hu1. left.
Qed.

(** C9. When thread creation fails for a pair of a weekly run, the run
    writes no match row for that pair and does not count it, and goes on
    with the pairs after it: the run ends as the loop over the remaining
    pairs does from the state the failure left (same store, same count, one
    log entry). Every row the run adds belongs to one of the other pairs,
    and the returned count is the number of rows added. *)
Theorem thread_failure_skips_pair pf clk g w sit l1 u1 u2 l2 w0 channel
    n1 w1 e :
  pool_keys_unique (pool w) →
  pairing_round clk (g_id g) w = Paired sit (l1 ++ (u1, u2) :: l2) w0 →
  _get_one_on_ones_channel g = Some channel →
  create_matches pf clk (g_id g) (ch_id channel) l1 0%nat w0 = (n1, w1) →
  create_thread pf (tick w1) (ch_id channel) = inl e →
  ∃ n w' rows,
    _run_matching_for_guild pf clk g w = (Some n, w') ∧
    (n, w') =
      create_matches pf clk (g_id g) (ch_id channel) l2 n1
        (logged (thread_failure_log (g_id g) e) (called [] w1)) ∧
    matches (logged (thread_failure_log (g_id g) e) (called [] w1)) =
      matches w1 ∧
    matches w' = matches w ++ rows ∧
    n = length rows ∧
    ((u1, u2) ∉ l1 ++ l2) ∧
    Forall (λ r, (user1_id r, user2_id r) ∈ l1 ++ l2) rows.
Proof.
  intros Hkeys Hround Hch Hl1 He.
  pose proof (pairing_round_inv _ _ _ _ _ _ Hround) as Hge.
  destruct (pairing_round_paired clk (g_id g) w Hge)
    as (sit' & pairs' & w0' & Hround' & _ & Hperm & Hms0 & _ & _ & _).
  rewrite Hround in Hround'. injection Hround' as <- <- <-.
  set (w2 := logged (thread_failure_log (g_id g) e) (called [] w1)).
  assert (create_matches pf clk (g_id g) (ch_id channel)
            (l1 ++ (u1, u2) :: l2) 0%nat w0 =
          create_matches pf clk (g_id g) (ch_id channel) l2 n1 w2) as Hrun.
  { rewrite create_matches_app, Hl1. simpl fst. simpl snd.
    by apply create_matches_failure. }
  destruct (create_matches_rows pf clk (g_id g) (ch_id channel) l1 0%nat w0)
    as (rows1 & Hm1 & Hn1 & _ & Hrows1).
  rewrite Hl1 in Hm1, Hn1. simpl in Hm1, Hn1.
  destruct (create_matches_rows pf clk (g_id g) (ch_id channel) l2 n1 w2)
    as (rows2 & Hm2 & Hn2 & _ & Hrows2).
  destruct (create_matches pf clk (g_id g) (ch_id channel) l2 n1 w2)
    as [n w'] eqn:Hl2. simpl in Hm2, Hn2.
  exists n, w', (rows1 ++ rows2).
  split. { unfold _run_matching_for_guild. by rewrite Hround, Hch, Hrun. }
  split; [done|]. split; [done|]. split.
  { rewrite Hm2. unfold w2. simpl. by rewrite Hm1, Hms0, app_assoc. }
  split. { rewrite length_app. lia. }
  split.
  { intros Hin. apply elem_of_members_pair in Hin.
    pose proof (eligible_NoDup clk (g_id g) w Hkeys) as Hnd.
    rewrite <-Hperm in Hnd. apply NoDup_app in Hnd as (Hnd & _ & _).
    rewrite members_middle in Hnd.
    apply NoDup_cons in Hnd as [Hu1 _]. apply Hu1. by right. }
  apply Forall_app. split.
  - eapply Forall_impl; [exact Hrows1|]. intros r (? & _).
    apply elem_of_app. by left.
  - eapply Forall_impl; [exact Hrows2|]. intros r (? & _).
    apply elem_of_app. by right.
Qed.

End creation_facts.

(** ** The reminder scan *)

Section reminder_facts.
Import actions one_on_ones.

Lemma unique_id_eq ms r r' :
  match_ids_unique ms → r ∈ ms → r' ∈ ms → m_id r = m_id r' → r = r'.
Proof.
  unfold match_ids_unique. induction ms as [|x ms IH]; simpl.
  - by intros _ ?%elem_of_nil.
  - intros [Hx Hnd]%NoDup_cons Hr Hr' Hid.
    apply elem_of_cons in Hr as [->|Hr];
      apply elem_of_cons in Hr' as [->|Hr']; auto.
    + destruct Hx. rewrite Hid. by apply list_elem_of_fmap_2.
    + destruct Hx. rewrite <-Hid. by apply list_elem_of_fmap_2.
Qed.

Lemma get_match_by_id_unique ms m :
  match_ids_unique ms → m ∈ ms → get_match_by_id (m_id m) ms = Some m.
Proof.
  intros Hu Hm. unfold get_match_by_id.
  destruct (fetch_one (λ r, bool_decide (m_id r = m_id m)) ms) as [r|] eqn:Hf.
  - apply fetch_one_Some in Hf as [Hr Hid%bool_decide_eq_true].
    f_equal. by eapply unique_id_eq.
  - rewrite fetch_one_None in Hf. specialize (Hf m Hm).
    by apply bool_decide_eq_false in Hf.
Qed.

Lemma update_where_ids c (f : MatchRow → MatchRow) ms :
  (∀ r, m_id (f r) = m_id r) →
  m_id <$> update_where c f ms = m_id <$> ms.
Proof.
  intros Hf. unfold update_where. rewrite <-list_fmap_compose.
  apply list_fmap_ext. intros _ r _. simpl. by destruct (c r).
Qed.

Lemma increment_unique i ms :
  match_ids_unique ms →
  increment_match_reminder i ms =
  update_where (λ r, bool_decide (m_id r = i)) bump ms.
Proof.
  intros Hu. unfold increment_match_reminder, get_match_by_id.
  destruct (fetch_one (λ r, bool_decide (m_id r = i)) ms) as [m|] eqn:Hf.
  - apply fetch_one_Some in Hf as [Hm Hid%bool_decide_eq_true].
    unfold update_where. apply list_fmap_ext. intros _ r Hr%list_elem_of_lookup_2.
    case_bool_decide as Hri; [|done].
    assert (r = m) as -> by (eapply unique_id_eq; eauto; congruence). done.
  - rewrite fetch_one_None in Hf.
    unfold update_where. rewrite <-(list_fmap_id ms) at 1.
    apply list_fmap_ext. intros _ r Hr%list_elem_of_lookup_2.
    by rewrite (Hf r Hr).
Qed.

Lemma _send_reminder_step pf g m w :
  pool (_send_reminder pf g m w) = pool w ∧
  ((matches (_send_reminder pf g m w) = matches w ∧
    ∃ evs, trace (_send_reminder pf g m w) = trace w ++ evs ∧
           no_reminder evs) ∨
   (∃ t, truthy_thread_id m = Some t ∧ pending_users m ≠ [] ∧
         matches (_send_reminder pf g m w) =
           increment_match_reminder (m_id m) (matches w) ∧
         trace (_send_reminder pf g m w) =
           trace w ++ [Sent t (ReminderMsg (pending_users m))])).
Proof.
  assert (no_reminder []) as Hnil by (intros t us ?%elem_of_nil; done).
  assert (∀ l, no_reminder [Logged l]) as Hlog.
  { intros l t us [?|?%elem_of_nil]%elem_of_cons; done. }
  unfold _send_reminder.
  destruct (truthy_thread_id m) as [t|].
  2:{ split; [done|]. left. split; [done|]. exists []. by rewrite app_nil_r. }
  set (located := if bool_decide (t ∈ cached_threads g) then (None, w)
                  else (fetch_channel pf (tick w) t, called [] w)).
  assert (∃ res w1, located = (res, w1) ∧ pool w1 = pool w ∧
                    matches w1 = matches w ∧ trace w1 = trace w)
    as (res & w1 & -> & Hp & Hm & Ht).
  { unfold located. case_bool_decide; eexists _, _; split; try done.
    simpl. by rewrite app_nil_r. }
  destruct res as [e|].
  { split; [done|]. left. split; [done|]. eexists. simpl. by rewrite Ht. }
  destruct (pending_users m) as [|u us] eqn:Hpend.
  { split; [done|]. left. split; [done|]. exists []. by rewrite app_nil_r. }
  destruct (send pf (tick w1) t) as [e|].
  { split; [done|]. left. split; [done|]. eexists. simpl.
    by rewrite app_nil_r, Ht. }
  split; [done|]. right. exists t. simpl. by rewrite Hm, Ht.
Qed.

Lemma truthy_thread_id_Some m t :
  truthy_thread_id m = Some t → thread_id m = Some t.
Proof.
  unfold truthy_thread_id. destruct (thread_id m) as [t'|]; [|done].
  by case_bool_decide; intros [= <-].
Qed.

Lemma scan_invariant pf g sel w :
  NoDup (m_id <$> sel) →
  match_ids_unique (matches w) →
  ∃ (done_ids : list Z) evs,
    pool (foldl (λ w m, _send_reminder pf g m w) w sel) = pool w ∧
    matches (foldl (λ w m, _send_reminder pf g m w) w sel) =
      update_where (λ r, bool_decide (m_id r ∈ done_ids)) bump (matches w) ∧
    trace (foldl (λ w m, _send_reminder pf g m w) w sel) = trace w ++ evs ∧
    (∀ i, i ∈ done_ids →
       ∃ m t, m ∈ sel ∧ m_id m = i ∧ thread_id m = Some t ∧
              Sent t (ReminderMsg (pending_users m)) ∈ evs) ∧
    (∀ t us, Sent t (ReminderMsg us) ∈ evs →
       ∃ m, m ∈ sel ∧ thread_id m = Some t ∧ us = pending_users m ∧
            us ≠ []).
Proof.
  revert w. induction sel as [|m sel IH]; intros w Hnd Hu.
  { exists [], []. simpl. rewrite app_nil_r. split_and!; try done.
    - unfold update_where. rewrite <-(list_fmap_id (matches w)) at 1.
      apply list_fmap_ext. by intros _ r _.
    - by intros i ?%elem_of_nil.
    - by intros t us ?%elem_of_nil. }
  simpl in Hnd. apply NoDup_cons in Hnd as [Hm Hnd]. simpl.
  destruct (_send_reminder_step pf g m w)
    as (Hp1 & [(Hm1 & evs1 & Ht1 & Hno)|(t & Hth & Hpend & Hm1 & Ht1)]).
  - destruct (IH (_send_reminder pf g m w) Hnd)
      as (ids & evs & Hp & Hms & Ht & Hids & Hevs); [by rewrite Hm1|].
    exists ids, (evs1 ++ evs). rewrite Hp, Hms, Ht, Hp1, Hm1, Ht1, app_assoc.
    split_and!; try done.
    + intros i Hi. destruct (Hids i Hi) as (m' & t' & ? & ? & ? & ?).
      exists m', t'. split_and!; try done; [by right|].
      apply elem_of_app. by right.
    + intros t us [Hin|Hin]%elem_of_app; [by apply Hno in Hin|].
      destruct (Hevs t us Hin) as (m' & ? & ?). exists m'.
      split; [by right|done].
  - rewrite (increment_unique _ _ Hu) in Hm1.
    destruct (IH (_send_reminder pf g m w) Hnd)
      as (ids & evs & Hp & Hms & Ht & Hids & Hevs).
    { unfold match_ids_unique. rewrite Hm1, update_where_ids; done. }
    exists (m_id m :: ids), (Sent t (ReminderMsg (pending_users m)) :: evs).
    rewrite Hp, Hms, Ht, Hp1, Hm1, Ht1, <-app_assoc.
    assert (m_id m ∉ ids) as Hfresh.
    { intros Hin. destruct (Hids _ Hin) as (m' & _ & Hm' & Heq & _).
      apply Hm. rewrite <-Heq. by apply list_elem_of_fmap_2. }
    split_and!; try done.
    + unfold update_where. rewrite <-list_fmap_compose.
      apply list_fmap_ext. intros _ r _. simpl.
      destruct (decide (m_id r = m_id m)) as [Heq|Hne].
      * rewrite (bool_decide_eq_true_2 _ Heq).
        rewrite (bool_decide_eq_false_2 (m_id (bump r) ∈ ids))
          by (simpl; by rewrite Heq).
        by rewrite bool_decide_eq_true_2 by (rewrite Heq; left).
      * rewrite (bool_decide_eq_false_2 _ Hne).
        rewrite (bool_decide_ext (m_id r ∈ m_id m :: ids) (m_id r ∈ ids));
          [done|].
        rewrite elem_of_cons. naive_solver.
    + intros i [->|Hi]%elem_of_cons.
      * exists m, t. split; [left|]. split; [done|].
        split; [by apply truthy_thread_id_Some|left].
      * destruct (Hids i Hi) as (m' & t' & ? & ? & ? & ?).
        exists m', t'. split_and!; try done; by right.
    + intros t' us [Heq|Hin]%elem_of_cons.
      * injection Heq as -> ->. exists m. split; [left|].
        split; [by apply truthy_thread_id_Some|done].
      * destruct (Hevs t' us Hin) as (m' & ? & ?). exists m'.
        split; [by right|done].
Qed.

(** C6. One reminder scan of a guild leaves every match row as it was or
    with [reminder_count] raised by exactly one; a row is raised only if,
    when the scan started, it was a match of the guild for the current week
    with [completed_at] unset, [reminder_count] below 2 and a pending side,
    so the new count is at most 2, and only after the reminder was posted
    in its thread. Every reminder the scan posts goes to the thread of such
    a row: never to a completed match, never to one both sides confirmed. *)
Theorem reminders_respect_cap_and_completion pf clk g w :
  match_ids_unique (matches w) →
  ∃ evs,
    trace (send_reminders_for_guild pf clk g w) = trace w ++ evs ∧
    pool (send_reminders_for_guild pf clk g w) = pool w ∧
    Forall2
      (λ r r',
         r' = r ∨
         (r' = set_reminder_count (reminder_count r + 1) r ∧
          needs_reminder (g_id g) (get_week_start clk) 2 r ∧
          reminder_count r' ≤ 2 ∧
          ∃ t, thread_id r = Some t ∧
               Sent t (ReminderMsg (pending_users r)) ∈ evs))
      (matches w) (matches (send_reminders_for_guild pf clk g w)) ∧
    (∀ t us, Sent t (ReminderMsg us) ∈ evs →
       ∃ r, r ∈ matches w ∧ thread_id r = Some t ∧
            us = pending_users r ∧ us ≠ [] ∧
            completed_at r = None ∧ reminder_count r < 2 ∧
            ¬ (user1_status r = confirmed ∧ user2_status r = confirmed)).
Proof.
  intros Hu. unfold send_reminders_for_guild, get_matches_needing_reminder.
  set (sel := filter (needs_reminder (g_id g) (get_week_start clk) 2)
                (matches w)).
  assert (∀ m, m ∈ sel → m ∈ matches w ∧
                         needs_reminder (g_id g) (get_week_start clk) 2 m)
    as Hsel.
  { intros m Hm. apply list_elem_of_filter in Hm. tauto. }
  destruct (scan_invariant pf g sel w)
    as (ids & evs & Hp & Hms & Ht & Hids & Hevs); [|done|].
  { apply (NoDup_fmap_2_strong m_id).
    - intros r r' [Hr _]%Hsel [Hr' _]%Hsel Hid. by eapply unique_id_eq.
    - apply NoDup_filter. by eapply NoDup_fmap_1. }
  exists evs. split; [done|]. split; [done|]. split.
  - rewrite Hms. unfold update_where. apply Forall2_fmap_r.
    apply Forall_Forall2_diag, Forall_forall. intros r Hr. cbv beta.
    unfold compose.
    destruct (bool_decide (m_id r ∈ ids)) eqn:Hin; [|by left]. right.
    apply bool_decide_eq_true in Hin.
    destruct (Hids _ Hin) as (m & t & Hm & Hid & Hth & Hsent).
    destruct (Hsel m Hm) as [Hmw Hneed].
    assert (m = r) as -> by (by eapply unique_id_eq).
    split; [done|]. split; [done|]. split; [|by exists t].
    simpl. destruct Hneed as (_ & _ & _ & Hlt & _). lia.
  - intros t us Hin. destruct (Hevs t us Hin) as (m & Hm & Hth & Hus & Hne).
    destruct (Hsel m Hm) as [Hmw (_ & _ & Hc & Hlt & Hpend)].
    exists m. split_and!; try done.
    intros [H1 H2]. destruct Hpend as [Hp'|Hp']; congruence.
Qed.

Lemma reminded_within_cap_refl r : reminded_within_cap r r.
Proof. unfold reminded_within_cap. destruct r; simpl. split_and!; try done; lia. Qed.

Lemma reminded_within_cap_trans r1 r2 r3 :
  reminded_within_cap r1 r2 → reminded_within_cap r2 r3 →
  reminded_within_cap r1 r3.
Proof.
  unfold reminded_within_cap.
  intros (E12 & L12 & U12 & O12) (E23 & L23 & U23 & O23).
  split_and!; try lia.
  - rewrite E23, E12. by destruct r1.
  - intros Hlt. destruct (decide (reminder_count r1 < reminder_count r2))
      as [Hl|Hl]; [by apply O12|].
    destruct O23 as [Hc Hp]; [lia|]. rewrite E12 in Hc, Hp. done.
Qed.

(** The rows a scan selects are rows of the table that need a reminder,
    with distinct ids. *)
Lemma selected_rows g wk ms :
  match_ids_unique ms →
  NoDup (m_id <$> get_matches_needing_reminder g wk 2 ms) ∧
  ∀ m, m ∈ get_matches_needing_reminder g wk 2 ms →
       m ∈ ms ∧ needs_reminder g wk 2 m.
Proof.
  intros Hu. unfold get_matches_needing_reminder.
  assert (∀ m, m ∈ filter (needs_reminder g wk 2) ms →
               m ∈ ms ∧ needs_reminder g wk 2 m) as Hsel.
  { intros m Hm. apply list_elem_of_filter in Hm. tauto. }
  split; [|done]. apply (NoDup_fmap_2_strong m_id).
  - intros r r' [Hr _]%Hsel [Hr' _]%Hsel Hid. by eapply unique_id_eq.
  - apply NoDup_filter. by eapply NoDup_fmap_1.
Qed.

Lemma send_reminders_for_guild_within_cap pf clk g w :
  match_ids_unique (matches w) →
  Forall2 reminded_within_cap (matches w)
    (matches (send_reminders_for_guild pf clk g w)).
Proof.
  intros Hu. unfold send_reminders_for_guild.
  destruct (selected_rows (g_id g) (get_week_start clk) (matches w) Hu)
    as [Hnd Hsel].
  destruct (scan_invariant pf g _ w Hnd Hu)
    as (ids & evs & _ & Hms & _ & Hids & _).
  rewrite Hms. unfold update_where. apply Forall2_fmap_r.
  apply Forall_Forall2_diag, Forall_forall. intros r Hr. unfold compose.
  destruct (bool_decide (m_id r ∈ ids)) eqn:Hin;
    [|apply reminded_within_cap_refl].
  apply bool_decide_eq_true in Hin.
  destruct (Hids _ Hin) as (m & t & Hm & Hid & _).
  destruct (Hsel m Hm) as [Hmw (_ & _ & Hc & Hlt & Hp)].
  assert (m = r) as -> by (by apply (unique_id_eq (matches w))).
  unfold reminded_within_cap, bump. simpl.
  split; [done|]. split; [lia|]. split; [lia|]. done.
Qed.

(** The whole scan of [send_reminders], over every guild of the bot: no
    row is raised past the cap, and a row is raised only while it is open
    with a pending side. *)
Lemma send_reminders_within_cap pf clk w :
  match_ids_unique (matches w) →
  Forall2 reminded_within_cap (matches w) (matches (send_reminders pf clk w)).
Proof.
  intros Hu. unfold send_reminders.
  destruct (negb _);
    [by apply Forall_Forall2_diag, Forall_forall;
        intros; apply reminded_within_cap_refl|].
  generalize (guilds pf). intros gs. revert w Hu.
  induction gs as [|g gs IH]; intros w Hu; simpl.
  { apply Forall_Forall2_diag, Forall_forall. intros.
    apply reminded_within_cap_refl. }
  pose proof (send_reminders_for_guild_within_cap pf clk g w Hu) as Hstep.
  eapply Forall2_trans; [|exact Hstep|apply IH].
  - intros r1 r2 r3. apply reminded_within_cap_trans.
  - unfold match_ids_unique in *.
    assert (m_id <$> matches (send_reminders_for_guild pf clk g w) =
            m_id <$> matches w) as ->; [|done].
    clear -Hstep. induction Hstep as [|r r' l l' Hr _ IHl]; [done|].
    rewrite !fmap_cons, IHl. f_equal. destruct Hr as [-> _]. done.
Qed.

End reminder_facts.

(** ** Rematch *)

Section rematch_facts.
Import actions one_on_ones.

Lemma _attempt_rematch_frame pf clk gid uid w :
  pool (_attempt_rematch pf clk gid uid w) = pool w ∧
  ∃ rows, matches (_attempt_rematch pf clk gid uid w) = matches w ++ rows.
Proof.
  unfold _attempt_rematch.
  destruct (rematch_candidates clk gid uid w) as [|c0 cs].
  { destruct (fetch_user pf (tick w) uid); [|destruct (send_dm pf _ uid)];
      (split; [done|]); exists []; by rewrite app_nil_r. }
  destruct (choice (c0 :: cs) (rng w)) as [[p|] r]; simpl.
  2:{ split; [done|]. exists []. by rewrite app_nil_r. }
  destruct (get_guild pf gid) as [g|].
  2:{ split; [done|]. exists []. by rewrite app_nil_r. }
  destruct (_get_one_on_ones_channel g) as [ch|].
  2:{ split; [done|]. exists []. by rewrite app_nil_r. }
  pose proof (open_match_thread_frame pf (ch_id ch) (RematchIntro uid p)
                (with_rng r w)) as (Hm & Hp & _).
  destruct (open_match_thread pf (ch_id ch) (RematchIntro uid p)
              (with_rng r w)) as [[e|th] w2]; simpl in *.
  - split; [done|]. exists []. by rewrite app_nil_r.
  - split; [done|]. rewrite Hm. by eexists [_].
Qed.

(** C7. A rematch attempt for a user either leaves the match table as it
    was or appends one pending match of the user with a partner taken from
    the available pool members of the guild; that partner is not the user,
    appears in no match row of the guild for this week, and is not a
    partner the user already had this week. When there is no candidate, no
    match is created and the attempt ends normally with a direct message to
    the user (the notice when the platform delivers it, a log entry when it
    does not). *)
Theorem rematch_partner_is_fresh pf clk gid uid w :
  pool (_attempt_rematch pf clk gid uid w) = pool w ∧
  (matches (_attempt_rematch pf clk gid uid w) = matches w ∨
   ∃ r p,
     matches (_attempt_rematch pf clk gid uid w) = matches w ++ [r] ∧
     user1_id r = uid ∧ user2_id r = p ∧
     m_guild_id r = gid ∧ week_start r = get_week_start clk ∧
     user1_status r = pending ∧ user2_status r = pending ∧
     completed_at r = None ∧
     p ≠ uid ∧
     p ∈ get_available_pool_members gid (get_week_start clk) (pool w) ∧
     (∀ r0, r0 ∈ matches w → m_guild_id r0 = gid →
            week_start r0 = get_week_start clk →
            user1_id r0 ≠ p ∧ user2_id r0 ≠ p) ∧
     (p ∉ get_user_partners_this_week gid uid (get_week_start clk)
            (matches w))) ∧
  (rematch_candidates clk gid uid w = [] →
   matches (_attempt_rematch pf clk gid uid w) = matches w ∧
   trace (_attempt_rematch pf clk gid uid w) =
     trace w ++
       [match fetch_user pf (tick w) uid,
              send_dm pf (S (tick w)) uid with
        | None, None => DirectMessage uid NoRematchNotice
        | _, _ => Logged (DMFailed uid)
        end]).
Proof.
  split; [apply _attempt_rematch_frame|]. split.
  - unfold _attempt_rematch.
    destruct (rematch_candidates clk gid uid w) as [|c0 cs] eqn:Hc.
    { left. destruct (fetch_user pf (tick w) uid);
        [|destruct (send_dm pf _ uid)]; done. }
    destruct (choice_elem_of (c0 :: cs) (rng w)) as (p & Hpick & Hin);
      [done|].
    destruct (choice (c0 :: cs) (rng w)) as [picked r]. simpl in Hpick.
    subst picked. simpl.
    destruct (get_guild pf gid) as [g|]; [|by left].
    destruct (_get_one_on_ones_channel g) as [ch|]; [|by left].
    pose proof (open_match_thread_frame pf (ch_id ch) (RematchIntro uid p)
                  (with_rng r w)) as (Hm & _ & _).
    destruct (open_match_thread pf (ch_id ch) (RematchIntro uid p)
                (with_rng r w)) as [[e|th] w2]; simpl in *; [by left|].
    right. rewrite Hm. eexists _, p. split; [done|]. simpl.
    rewrite <-Hc in Hin. unfold rematch_candidates in Hin.
    apply list_elem_of_filter in Hin as [(Hne & Hnp & Hnm) Hav].
    split_and!; try done.
    intros r0 Hr0 Hg Hw. split; intros Hu; apply Hnm;
      apply elem_of_matched_this_week; exists r0; auto.
  - intros Hc. unfold _attempt_rematch. rewrite Hc.
    destruct (fetch_user pf (tick w) uid); simpl.
    { by rewrite app_nil_r. }
    destruct (send_dm pf (S (tick w)) uid); simpl; by rewrite ?app_nil_r.
Qed.

End rematch_facts.

(** ** Reactions *)

Section update_facts.
Context {A : Type}.
Implicit Types (c : A → bool) (f g : A → A) (t : list A).

Lemma fetch_one_update_where c c' f t :
  (∀ r, c (f r) = c r) →
  fetch_one c (update_where c' f t) =
  (λ r, if c' r then f r else r) <$> fetch_one c t.
Proof.
  intros Hc. unfold update_where. induction t as [|x t IH]; simpl; [done|].
  destruct (c' x) eqn:Hx; rewrite ?Hc; destruct (c x); simpl;
    rewrite ?Hx; auto.
Qed.

Lemma update_where_compose c f g t :
  (∀ r, c (g r) = c r) →
  update_where c f (update_where c g t) = update_where c (f ∘ g) t.
Proof.
  intros Hc. unfold update_where. rewrite <-list_fmap_compose.
  apply list_fmap_ext. intros _ r _. simpl.
  destruct (c r) eqn:Hr; [by rewrite Hc, Hr|by rewrite Hr].
Qed.

Lemma update_where_ext c f g t :
  (∀ r, f r = g r) → update_where c f t = update_where c g t.
Proof.
  intros Hfg. unfold update_where. apply list_fmap_ext. intros _ r _.
  by rewrite Hfg.
Qed.

Lemma fetch_one_app c t1 t2 r :
  fetch_one c t1 = Some r → fetch_one c (t1 ++ t2) = Some r.
Proof.
  induction t1 as [|x t1 IH]; simpl; [done|]. by destruct (c x).
Qed.

End update_facts.

Section reaction_facts.
Import actions one_on_ones.

Lemma notify_channel_frame pf ch msg err w :
  matches (notify_channel pf ch msg err w) = matches w ∧
  pool (notify_channel pf ch msg err w) = pool w.
Proof.
  unfold notify_channel. case_bool_decide; [|done].
  by destruct (send pf (tick w) ch).
Qed.

(** What [update_match_status] followed by a read of the row gives. *)
Lemma update_match_status_row i u s ms :
  update_match_status i u s ms =
    match get_match_by_id i ms with
    | None => ms
    | Some m =>
        update_where (λ r, bool_decide (m_id r = i))
          (if bool_decide (user1_id m = u) then set_user1_status s
           else if bool_decide (user2_id m = u) then set_user2_status s
           else λ r, r) ms
    end.
Proof.
  unfold update_match_status. destruct (get_match_by_id i ms) as [m|]; [|done].
  repeat case_bool_decide; try done.
  unfold update_where. rewrite <-(list_fmap_id ms) at 1.
  apply list_fmap_ext. intros _ r _. by destruct (bool_decide _).
Qed.

Lemma get_after_update_match_status i u s ms :
  get_match_by_id i (update_match_status i u s ms) =
  record_status u s <$> get_match_by_id i ms.
Proof.
  rewrite update_match_status_row.
  destruct (get_match_by_id i ms) as [m|] eqn:Hget; [|by rewrite Hget].
  unfold get_match_by_id in *.
  rewrite fetch_one_update_where by (intros r; by repeat case_bool_decide).
  rewrite Hget. simpl.
  apply fetch_one_Some in Hget as [_ ->]. f_equal.
  unfold record_status. by repeat case_bool_decide.
Qed.

Lemma get_after_complete_match i now ms :
  get_match_by_id i (complete_match i now ms) =
  set_completed_at (Some now) <$> get_match_by_id i ms.
Proof.
  unfold get_match_by_id, complete_match.
  rewrite fetch_one_update_where by done.
  destruct (fetch_one _ ms) as [m|] eqn:Hget; [|done]. simpl.
  by apply fetch_one_Some in Hget as [_ ->].
Qed.

Lemma decline_recorded_row pf clk payload m w :
  get_match_by_id (m_id m) (matches w) = Some m →
  get_match_by_id (m_id m) (matches (decline_recorded pf clk payload m w)) =
  Some (set_completed_at (Some (utcnow clk))
          (record_status (user_id payload) declined m)).
Proof.
  intros Hget. unfold decline_recorded.
  rewrite (proj1 (notify_channel_frame _ _ _ _ _)). simpl.
  by rewrite get_after_complete_match, get_after_update_match_status, Hget.
Qed.

Lemma _handle_decline_row pf clk payload m w :
  get_match_by_id (m_id m) (matches w) = Some m →
  get_match_by_id (m_id m) (matches (_handle_decline pf clk payload m w)) =
  Some (set_completed_at (Some (utcnow clk))
          (record_status (user_id payload) declined m)).
Proof.
  intros Hget. unfold _handle_decline.
  destruct (_attempt_rematch_frame pf clk (guild_id payload)
              (decline_partner payload m)
              (decline_recorded pf clk payload m w)) as (_ & rows & ->).
  apply fetch_one_app. by apply decline_recorded_row.
Qed.

(** C8. For a match of the table and a decliner that is one of its two
    (distinct) participants, the decline handler records the decline and
    then runs the rematch attempt for the other participant, never for the
    decliner; the match row then has the decliner's status [declined], the
    partner's status as it was, and [completed_at] set to the time of the
    decline, whatever the two statuses and [completed_at] were before. *)
Theorem decline_completes_and_rematches_partner pf clk payload m w :
  match_ids_unique (matches w) →
  m ∈ matches w →
  user_id payload ∈ [user1_id m; user2_id m] →
  user1_id m ≠ user2_id m →
  let p := decline_partner payload m in
  _handle_decline pf clk payload m w =
    _attempt_rematch pf clk (guild_id payload) p
      (decline_recorded pf clk payload m w) ∧
  p ≠ user_id payload ∧
  p ∈ [user1_id m; user2_id m] ∧
  ∃ m',
    get_match_by_id (m_id m)
      (matches (_handle_decline pf clk payload m w)) = Some m' ∧
    status_of (user_id payload) m' = declined ∧
    status_of p m' = status_of p m ∧
    completed_at m' = Some (utcnow clk) ∧
    reminder_count m' = reminder_count m.
Proof.
  intros Hu Hm Hpart Hne p. split; [done|].
  assert (user_id payload = user1_id m ∧ p = user2_id m ∨
          user_id payload = user2_id m ∧ p = user1_id m) as Hcase.
  { unfold p, decline_partner. case_bool_decide as H1; [by left|right].
    apply elem_of_cons in Hpart as [?|Hpart]; [done|].
    by apply list_elem_of_singleton in Hpart. }
  split; [destruct Hcase as [[-> ->]|[-> ->]]; done|].
  split.
  { destruct Hcase as [[_ ->]|[_ ->]]; [right; left|left]. }
  eexists. split.
  { apply _handle_decline_row. by apply get_match_by_id_unique. }
  unfold status_of, record_status.
  destruct Hcase as [[-> ->]|[-> ->]]; simpl;
    repeat (case_bool_decide; simpl; try done).
Qed.

Lemma _handle_confirm_matches pf clk payload m w :
  matches (_handle_confirm pf clk payload m w) =
  confirm_rows (utcnow clk) (m_id m) (user_id payload) (matches w).
Proof.
  unfold _handle_confirm, confirm_rows. simpl.
  destruct (get_match_by_id _ _) as [um|]; [|done].
  destruct (_ && _); [|done].
  by rewrite (proj1 (notify_channel_frame _ _ _ _ _)).
Qed.

Lemma status_setter_cases (u : Z) (s : Status) (m : MatchRow) :
  let F := if bool_decide (user1_id m = u) then set_user1_status s
           else if bool_decide (user2_id m = u) then set_user2_status s
           else λ r, r in
  (∀ r, F (F r) = F r) ∧
  (∀ r t, F (set_completed_at t r) = set_completed_at t (F r)) ∧
  (∀ r, m_id (F r) = m_id r).
Proof. simpl. by repeat case_bool_decide. Qed.

Lemma update_match_status_idem i u s ms :
  update_match_status i u s (update_match_status i u s ms) =
  update_match_status i u s ms.
Proof.
  rewrite (update_match_status_row i u s (update_match_status _ _ _ _)).
  rewrite get_after_update_match_status, (update_match_status_row i u s ms).
  destruct (get_match_by_id i ms) as [m|]; [|done]. simpl.
  destruct (status_setter_cases u s m) as (Hidem & _ & Hid).
  assert (user1_id (record_status u s m) = user1_id m ∧
          user2_id (record_status u s m) = user2_id m) as [-> ->]
    by (unfold record_status; by repeat case_bool_decide).
  rewrite update_where_compose by (intros r; by rewrite Hid).
  apply update_where_ext. intros r. apply Hidem.
Qed.

Lemma update_match_status_complete i u s now ms :
  update_match_status i u s (complete_match i now ms) =
  complete_match i now (update_match_status i u s ms).
Proof.
  rewrite (update_match_status_row i u s (complete_match _ _ _)).
  rewrite get_after_complete_match, (update_match_status_row i u s ms).
  destruct (get_match_by_id i ms) as [m|]; [|done]. simpl.
  destruct (status_setter_cases u s m) as (_ & Hcomm & Hid).
  unfold complete_match.
  rewrite !update_where_compose by (intros r; by rewrite ?Hid).
  apply update_where_ext. intros r. apply Hcomm.
Qed.

Lemma complete_match_absorb i t1 t2 ms :
  complete_match i t2 (complete_match i t1 ms) = complete_match i t2 ms.
Proof.
  unfold complete_match. rewrite update_where_compose by done.
  by apply update_where_ext.
Qed.

(** Confirming at [t1] and again at [t2] gives the rows of one
    confirmation at [t2]. *)
Lemma confirm_rows_twice t1 t2 i u ms :
  confirm_rows t2 i u (confirm_rows t1 i u ms) = confirm_rows t2 i u ms.
Proof.
  unfold confirm_rows. cbv zeta.
  set (ms1 := update_match_status i u confirmed ms).
  assert (update_match_status i u confirmed ms1 = ms1) as Hidem
    by apply update_match_status_idem.
  destruct (get_match_by_id i ms1) as [um|] eqn:Hget.
  - destruct (bool_decide (user1_status um = confirmed) &&
              bool_decide (user2_status um = confirmed)) eqn:Hboth.
    + rewrite update_match_status_complete, Hidem.
      rewrite get_after_complete_match, Hget. simpl. rewrite Hboth.
      apply complete_match_absorb.
    + by rewrite Hidem, Hget, Hboth.
  - by rewrite Hidem, Hget.
Qed.

(** C2 (as the code has it). Applying the confirm handler twice for the
    same match and user gives the match table of a single application made
    at the time of the second one. Compared with the table after the first
    application, every row is unchanged except that the rows of the match,
    when the first application completed it, have [completed_at]
    overwritten with the time of the second application; both status
    columns and [reminder_count] are as after the first application, and
    [completed_at] is set after the second exactly when it was after the
    first. With the same clock reading twice the table is unchanged. *)
Theorem confirm_twice pf clk1 clk2 payload m w :
  matches (_handle_confirm pf clk2 payload m
             (_handle_confirm pf clk1 payload m w)) =
    matches (_handle_confirm pf clk2 payload m w) ∧
  matches (_handle_confirm pf clk1 payload m
             (_handle_confirm pf clk1 payload m w)) =
    matches (_handle_confirm pf clk1 payload m w) ∧
  Forall2
    (λ r1 r2,
       r2 = r1 ∨
       (m_id r1 = m_id m ∧ completed_at r1 = Some (utcnow clk1) ∧
        r2 = set_completed_at (Some (utcnow clk2)) r1))
    (matches (_handle_confirm pf clk1 payload m w))
    (matches (_handle_confirm pf clk2 payload m
                (_handle_confirm pf clk1 payload m w))).
Proof.
  rewrite !_handle_confirm_matches, !confirm_rows_twice.
  split; [done|]. split; [done|].
  unfold confirm_rows. cbv zeta.
  set (ms1 := update_match_status (m_id m) (user_id payload) confirmed
                (matches w)).
  destruct (get_match_by_id (m_id m) ms1) as [um|];
    [|by apply Forall_Forall2_diag, Forall_forall; left].
  destruct (_ && _); [|by apply Forall_Forall2_diag, Forall_forall; left].
  unfold complete_match, update_where.
  apply Forall2_fmap, Forall_Forall2_diag, Forall_forall. intros r _.
  case_bool_decide; [right|by left]. done.
Qed.

Lemma get_after_confirm_rows now i u ms :
  get_match_by_id i (confirm_rows now i u ms) =
  (λ m, let m1 := record_status u confirmed m in
        if bool_decide (user1_status m1 = confirmed) &&
           bool_decide (user2_status m1 = confirmed)
        then set_completed_at (Some now) m1 else m1) <$>
    get_match_by_id i ms.
Proof.
  unfold confirm_rows. cbv zeta.
  pose proof (get_after_update_match_status i u confirmed ms) as Hget.
  destruct (get_match_by_id i (update_match_status i u confirmed ms))
    as [um|] eqn:Hum.
  - destruct (get_match_by_id i ms) as [m|]; [|done].
    simpl in Hget. injection Hget as ->. simpl.
    destruct (_ && _); [|by rewrite Hum].
    by rewrite get_after_complete_match, Hum.
  - rewrite Hum. by destruct (get_match_by_id i ms).
Qed.

Lemma status_of_record_status u s m :
  u ∈ [user1_id m; user2_id m] → status_of u (record_status u s m) = s.
Proof.
  intros Hu. unfold status_of, record_status.
  repeat (case_bool_decide; simpl; try done).
  apply elem_of_cons in Hu as [?|Hu]; [done|].
  by apply list_elem_of_singleton in Hu.
Qed.

(** C1 (as the code has it). A reaction changes the state only if it is
    not the bot's own, its emoji is the check mark or the cross, its
    channel is the thread of a match in the table and the reacting user is
    one of the two participants. Whether the match is completed is not
    looked at: for every such reaction, on a completed match as on an open
    one, the confirm handler (check mark) or the decline handler (cross)
    runs and the match row then carries the new status of the reacting
    user. *)
Theorem reaction_dispatch pf clk payload w :
  (on_raw_reaction_add pf clk payload w ≠ w →
   ∃ m, get_match_by_thread (channel_id payload) (matches w) = Some m ∧
        user_id payload ≠ bot_user_id pf ∧
        user_id payload ∈ [user1_id m; user2_id m] ∧
        emoji payload ∈ [white_check_mark; cross_mark]) ∧
  (∀ m,
     match_ids_unique (matches w) →
     get_match_by_thread (channel_id payload) (matches w) = Some m →
     user_id payload ≠ bot_user_id pf →
     user_id payload ∈ [user1_id m; user2_id m] →
     emoji payload ∈ [white_check_mark; cross_mark] →
     on_raw_reaction_add pf clk payload w =
       (if bool_decide (emoji payload = white_check_mark)
        then _handle_confirm pf clk payload m w
        else _handle_decline pf clk payload m w) ∧
     ∃ m',
       get_match_by_id (m_id m)
         (matches (on_raw_reaction_add pf clk payload w)) = Some m' ∧
       status_of (user_id payload) m' =
         (if bool_decide (emoji payload = white_check_mark)
          then confirmed else declined)).
Proof.
  split.
  - unfold on_raw_reaction_add. intros Hchg.
    case_bool_decide as Hbot; [done|].
    case_bool_decide as Hem; [|done]. simpl in Hchg.
    destruct (get_match_by_thread _ _) as [m|]; [|done].
    case_bool_decide as Hpart; [|done]. by exists m.
  - intros m Hu Hget Hbot Hpart Hem.
    assert (on_raw_reaction_add pf clk payload w =
            (if bool_decide (emoji payload = white_check_mark)
             then _handle_confirm pf clk payload m w
             else _handle_decline pf clk payload m w)) as Heq.
    { unfold on_raw_reaction_add.
      rewrite (bool_decide_eq_false_2 _ Hbot), (bool_decide_eq_true_2 _ Hem).
      simpl. rewrite Hget, (bool_decide_eq_true_2 _ Hpart). simpl.
      case_bool_decide as Hc; [done|].
      rewrite bool_decide_eq_true_2; [done|].
      apply elem_of_cons in Hem as [?|Hem]; [done|].
      by apply list_elem_of_singleton in Hem. }
    split; [done|]. rewrite Heq.
    assert (get_match_by_id (m_id m) (matches w) = Some m) as Hid.
    { apply get_match_by_id_unique; [done|].
      by apply fetch_one_Some in Hget as [? _]. }
    case_bool_decide.
    + rewrite _handle_confirm_matches, get_after_confirm_rows, Hid. simpl.
      eexists. split; [done|].
      pose proof (status_of_record_status (user_id payload) confirmed m Hpart)
        as Hst.
      destruct (_ && _); [|done].
      revert Hst. unfold status_of. simpl. done.
    + rewrite (_handle_decline_row _ _ _ _ _ Hid).
      eexists. split; [done|].
      pose proof (status_of_record_status (user_id payload) declined m Hpart)
        as Hst.
      revert Hst. unfold status_of. simpl. done.
Qed.

End reaction_facts.

(** ** ISO texts in text order *)

Section iso_text_order.
Import datetime.

Lemma string_le_compare s t : String.le s t ↔ String.compare s t ≠ Gt.
Proof.
  unfold String.le, String.leb. destruct (String.compare s t); simpl.
  - split; [discriminate|done].
  - split; [discriminate|done].
  - split; [intros []|congruence].
Qed.

Lemma append_String c s t : String c s +:+ t = String c (s +:+ t).
Proof. done. Qed.

Lemma append_empty t : "" +:+ t = t.
Proof. done. Qed.

Lemma compare_String c1 c2 s t :
  String.compare (String c1 s) (String c2 t) =
  match Ascii.compare c1 c2 with Eq => String.compare s t | c => c end.
Proof. simpl. by destruct (Ascii.compare c1 c2). Qed.

Lemma digit_compare a b :
  Ascii.compare (digit a) (digit b) = (a mod 10 ?= b mod 10).
Proof.
  unfold digit, Ascii.compare.
  pose proof (Z.mod_pos_bound a 10 ltac:(lia)).
  pose proof (Z.mod_pos_bound b 10 ltac:(lia)).
  rewrite !Ascii.N_ascii_embedding by lia.
  rewrite Z2N.inj_compare by lia.
  by rewrite Z.add_compare_mono_l.
Qed.

Lemma digit_mod a b : a mod 10 = b mod 10 → digit a = digit b.
Proof. unfold digit. by intros ->. Qed.

Lemma compare_pad2 a b s t :
  0 ≤ a < 100 → 0 ≤ b < 100 →
  String.compare (pad2 a +:+ s) (pad2 b +:+ t) =
  match a ?= b with Eq => String.compare s t | c => c end.
Proof.
  intros Ha Hb. unfold pad2.
  rewrite !append_String, !append_empty, !compare_String, !digit_compare.
  destruct (Z.compare_spec ((a / 10) mod 10) ((b / 10) mod 10));
    destruct (Z.compare_spec (a mod 10) (b mod 10));
    destruct (Z.compare_spec a b); try done; exfalso;
    Z.div_mod_to_equations; lia.
Qed.

Lemma compare_pad4 a b s t :
  0 ≤ a < 10000 → 0 ≤ b < 10000 →
  String.compare (pad4 a +:+ s) (pad4 b +:+ t) =
  match a ?= b with Eq => String.compare s t | c => c end.
Proof.
  intros Ha Hb.
  assert (∀ n u, 0 ≤ n < 10000 →
            pad4 n +:+ u = pad2 (n / 100) +:+ pad2 (n mod 100) +:+ u) as Hsplit.
  { intros n u Hn. unfold pad4, pad2.
    rewrite !append_String, !append_empty.
    repeat (f_equal; try (apply digit_mod; Z.div_mod_to_equations; lia)). }
  rewrite !Hsplit by done.
  rewrite compare_pad2 by (Z.div_mod_to_equations; lia).
  rewrite compare_pad2 by (Z.div_mod_to_equations; lia).
  destruct (Z.compare_spec (a / 100) (b / 100));
    destruct (Z.compare_spec (a mod 100) (b mod 100));
    destruct (Z.compare_spec a b); try done; exfalso;
    Z.div_mod_to_equations; lia.
Qed.

Lemma compare_date_isoformat d1 d2 s t :
  date_in_range d1 → date_in_range d2 →
  String.compare (date_isoformat d1 +:+ s) (date_isoformat d2 +:+ t) =
  match year d1 ?= year d2 with
  | Eq => match month d1 ?= month d2 with
          | Eq => match day d1 ?= day d2 with
                  | Eq => String.compare s t
                  | c => c
                  end
          | c => c
          end
  | c => c
  end.
Proof.
  intros (Hy1 & Hm1 & Hd1) (Hy2 & Hm2 & Hd2).
  change (date_isoformat d1 +:+ s) with
    (pad4 (year d1) +:+ "-" +:+ pad2 (month d1) +:+ "-" +:+
     pad2 (day d1) +:+ s).
  change (date_isoformat d2 +:+ t) with
    (pad4 (year d2) +:+ "-" +:+ pad2 (month d2) +:+ "-" +:+
     pad2 (day d2) +:+ t).
  rewrite compare_pad4 by lia.
  destruct (year d1 ?= year d2); try done.
  change (String.compare ("-" +:+ ?u) ("-" +:+ ?v)) with (String.compare u v).
  rewrite compare_pad2 by lia.
  destruct (month d1 ?= month d2); try done.
  change (String.compare ("-" +:+ ?u) ("-" +:+ ?v)) with (String.compare u v).
  by rewrite compare_pad2 by lia.
Qed.

Lemma date_lt_compare d1 d2 :
  date_lt d1 d2 ↔
  match year d1 ?= year d2 with
  | Eq => match month d1 ?= month d2 with
          | Eq => match day d1 ?= day d2 with
                  | Eq => Gt
                  | c => c
                  end
          | c => c
          end
  | c => c
  end = Lt.
Proof.
  unfold date_lt.
  destruct (Z.compare_spec (year d1) (year d2));
    destruct (Z.compare_spec (month d1) (month d2));
    destruct (Z.compare_spec (day d1) (day d2));
    split; try done; intros; lia.
Qed.

(** The text of an aware datetime is at most the text of a date exactly
    when its day is before that date. *)
Lemma isoformat_le_date t d :
  date_in_range (dt_date t) → date_in_range d →
  String.le (isoformat t) (date_isoformat d) ↔ date_lt (dt_date t) d.
Proof.
  intros Ht Hd. rewrite string_le_compare, date_lt_compare.
  unfold isoformat.
  replace (date_isoformat d) with (date_isoformat d +:+ "")
    by (by destruct d).
  rewrite compare_date_isoformat by done.
  destruct (year (dt_date t) ?= year d); try done.
  destruct (month (dt_date t) ?= month d); try done.
  destruct (day (dt_date t) ?= day d); try done.
Qed.

Lemma date_le_not_lt d1 d2 : date_le d1 d2 ↔ ¬ date_lt d2 d1.
Proof.
  unfold date_le, date_lt. destruct d1 as [y1 m1 a1], d2 as [y2 m2 a2].
  simpl. split.
  - intros [[= -> -> ->]|H]; lia.
  - intros H.
    destruct (decide (y1 = y2 ∧ m1 = m2 ∧ a1 = a2)) as [(-> & -> & ->)|Hne];
      [by left|right; lia].
Qed.

End iso_text_order.

(** ** Skipping members *)

Section skip_facts.
Import actions one_on_ones datetime.

Lemma unique_key_eq pool r r' :
  pool_keys_unique pool → r ∈ pool → r' ∈ pool →
  p_guild_id r = p_guild_id r' → p_user_id r = p_user_id r' → r = r'.
Proof.
  unfold pool_keys_unique. induction pool as [|x pool IH]; simpl.
  - by intros _ ?%elem_of_nil.
  - intros [Hx Hnd]%NoDup_cons Hr Hr' Hg Hu.
    apply elem_of_cons in Hr as [->|Hr];
      apply elem_of_cons in Hr' as [->|Hr']; auto.
    + destruct Hx. apply list_elem_of_fmap. exists r'. by rewrite Hg, Hu.
    + destruct Hx. apply list_elem_of_fmap. exists r. by rewrite Hg, Hu.
Qed.

Lemma not_skipping_true wk r :
  not_skipping wk r = true ↔
  skip_until r = None ∨ ∃ s, skip_until r = Some s ∧ String.le s wk.
Proof.
  unfold not_skipping. destruct (skip_until r) as [s|].
  - rewrite bool_decide_eq_true. split; [eauto|].
    by intros [?|(s' & [= ->] & ?)].
  - split; [auto|done].
Qed.

(** The filter of [get_available_pool_members] on a member's own row. *)
Lemma available_iff_not_skipping wk pool r :
  pool_keys_unique pool →
  r ∈ pool →
  p_user_id r ∈ get_available_pool_members (p_guild_id r) wk pool ↔
  skip_until r = None ∨ ∃ s, skip_until r = Some s ∧ String.le s wk.
Proof.
  intros Hk Hr. rewrite <-not_skipping_true, elem_of_get_available. split.
  - intros (r' & Hr' & Hg & Hu & Hns).
    by rewrite <-(unique_key_eq pool r' r Hk Hr' Hr Hg Hu).
  - intros Hns. by exists r.
Qed.

(** C5. The week key is the ISO text of a Monday; [skip_until] is unset or
    the text the [skip] command stored, the ISO text of an aware datetime.
    The member of such a row is in the available list of its guild exactly
    when [skip_until] is unset or its day is before that Monday. So a
    member whose skip day is that Monday or later is in neither the
    available list, the eligible list of the weekly pairing nor anybody's
    rematch candidates, and an eligible member or rematch candidate has
    [skip_until] unset or a skip day strictly before the Monday. *)
Theorem skipping_member_excluded clk w r monday skip :
  pool_keys_unique (pool w) →
  r ∈ pool w →
  get_week_start clk = date_isoformat monday →
  date_in_range monday →
  skip_until r = isoformat <$> skip →
  (∀ t, skip = Some t → date_in_range (dt_date t)) →
  let gid := p_guild_id r in
  let u := p_user_id r in
  let before := skip = None ∨
                ∃ t, skip = Some t ∧ date_lt (dt_date t) monday in
  (u ∈ get_available_pool_members gid (get_week_start clk) (pool w) ↔
   before) ∧
  (∀ t, skip = Some t → date_le monday (dt_date t) →
        (u ∉ get_available_pool_members gid (get_week_start clk) (pool w)) ∧
        (u ∉ eligible clk gid w) ∧
        ∀ uid, u ∉ rematch_candidates clk gid uid w) ∧
  (u ∈ eligible clk gid w → before) ∧
  (∀ uid, u ∈ rematch_candidates clk gid uid w → before).
Proof.
  intros Hk Hr Hwk Hmon Hskip Hrange gid u before.
  assert (u ∈ get_available_pool_members gid (get_week_start clk) (pool w) ↔
          before) as Hav.
  { unfold u, gid. rewrite available_iff_not_skipping by done.
    rewrite Hskip, Hwk. unfold before. destruct skip as [t|]; simpl.
    - pose proof (isoformat_le_date t monday (Hrange t eq_refl) Hmon) as Hle.
      split.
      + intros [?|(s & [= <-] & Hs)]; [done|]. right. exists t.
        split; [done|]. by apply Hle.
      + intros [?|(t' & [= <-] & Hlt)]; [done|]. right.
        exists (isoformat t). split; [done|]. by apply Hle.
    - split; intros _; by left. }
  assert (u ∈ eligible clk gid w → before) as Hel.
  { unfold eligible. intros [_ Hu]%list_elem_of_filter. by apply Hav. }
  assert (∀ uid, u ∈ rematch_candidates clk gid uid w → before) as Hre.
  { intros uid. unfold rematch_candidates.
    intros [_ Hu]%list_elem_of_filter. by apply Hav. }
  split; [done|]. split; [|done].
  intros t -> Hle.
  assert (¬ before) as Hnot.
  { intros [?|(t' & [= <-] & Hlt)]; [done|].
    by apply date_le_not_lt in Hle. }
  split; [by rewrite Hav|]. split; [by intros ?%Hel|].
  intros uid ?%Hre. done.
Qed.

End skip_facts.

(** ** The statements on the example guild *)

Section example_runs.
Import actions one_on_ones examples.

(** Decide a closed proposition by running its decision procedure. *)
Local Ltac by_compute := apply (bool_decide_unpack _); vm_compute; exact I.

(** The claim of C1 fails: user 12 puts a cross on match 2, completed two
    days before by two confirmations, and the row gets [declined]. *)
Lemma completed_match_status_rewritten :
  ¬ (∀ pf clk payload w m m',
       m ∈ matches w → completed_at m ≠ None →
       get_match_by_id (m_id m)
         (matches (on_raw_reaction_add pf clk payload w)) = Some m' →
       user1_status m' = user1_status m ∧
       user2_status m' = user2_status m).
Proof.
  intros Hclaim.
  destruct (Hclaim ex_platform ex_clock (reaction 12 cross_mark 1001)
              ex_world_matched
              (ex_match 2 12 14 1001 confirmed confirmed 1
                 (Some "2026-11-03T09:00:00"))
              (ex_match 2 12 14 1001 declined confirmed 1
                 (Some "2026-11-08T10:00:00"))) as [Hs _].
  - right. left.
  - done.
  - by vm_compute.
  - discriminate Hs.
Qed.

(** The cross of user 12 on the completed match 2 is dispatched. *)
Lemma reaction_dispatch_witness :
  ∃ m',
    get_match_by_id 2
      (matches (on_raw_reaction_add ex_platform ex_clock
                  (reaction 12 cross_mark 1001) ex_world_matched))
      = Some m' ∧
    status_of 12 m' = declined.
Proof.
  destruct (proj2 (reaction_dispatch ex_platform ex_clock
                     (reaction 12 cross_mark 1001) ex_world_matched)
              (ex_match 2 12 14 1001 confirmed confirmed 1
                 (Some "2026-11-03T09:00:00")))
    as (_ & m' & Hget & Hst).
  - by_compute.
  - vm_compute. reflexivity.
  - vm_compute. discriminate.
  - by_compute.
  - by_compute.
  - exists m'. split; [exact Hget|exact Hst].
Defined.

(** The claim of C2 fails: user 18 confirms match 4 (19 had confirmed) at
    10:00 and again at 11:30; the second application moves
    [completed_at]. *)
Lemma second_confirm_moves_completed_at :
  ¬ (∀ pf clk1 clk2 payload m w,
       m ∈ matches w →
       user_id payload ∈ [user1_id m; user2_id m] →
       matches (_handle_confirm pf clk2 payload m
                  (_handle_confirm pf clk1 payload m w)) =
       matches (_handle_confirm pf clk1 payload m w)).
Proof.
  intros Hclaim.
  specialize (Hclaim ex_platform ex_clock ex_later
                (reaction 18 white_check_mark 1003)
                (ex_match 4 18 19 1003 pending confirmed 1 None)
                ex_world_matched).
  assert (matches (_handle_confirm ex_platform ex_later
                     (reaction 18 white_check_mark 1003)
                     (ex_match 4 18 19 1003 pending confirmed 1 None)
                     (_handle_confirm ex_platform ex_clock
                        (reaction 18 white_check_mark 1003)
                        (ex_match 4 18 19 1003 pending confirmed 1 None)
                        ex_world_matched)) ≠
          matches (_handle_confirm ex_platform ex_clock
                     (reaction 18 white_check_mark 1003)
                     (ex_match 4 18 19 1003 pending confirmed 1 None)
                     ex_world_matched)) as Hne.
  { vm_compute. discriminate. }
  apply Hne, Hclaim.
  - do 3 right. left.
  - left.
Qed.

(** Member 13 skips until Monday the 9th: excluded in the week of the 2nd,
    from the available list, the pairing and every rematch. *)
Lemma skipping_member_excluded_witness :
  (13 ∉ get_available_pool_members 1 "2026-11-02" ex_pool) ∧
  13 ∉ eligible ex_clock 1 ex_world.
Proof.
  destruct (skipping_member_excluded ex_clock ex_world
              (member 1 13 (Some "2026-11-09T10:00:00+00:00") None)
              {| datetime.year := 2026; datetime.month := 11;
                 datetime.day := 2 |}
              (Some {| datetime.dt_date :=
                         {| datetime.year := 2026; datetime.month := 11;
                            datetime.day := 9 |};
                       datetime.dt_hour := 10; datetime.dt_minute := 0;
                       datetime.dt_second := 0;
                       datetime.dt_microsecond := 0 |}))
    as (_ & Hout & _).
  - by_compute.
  - do 3 right. left.
  - reflexivity.
  - by_compute.
  - reflexivity.
  - intros t [= <-]. by_compute.
  - destruct (Hout _ eq_refl) as (Hav & Hel & _).
    + by_compute.
    + split; [exact Hav|exact Hel].
Defined.

(** Seven eligible members: three pairs, no user twice. *)
Lemma weekly_pairing_partition_witness :
  ∃ sit pairs w',
    pairing_round ex_clock 1 ex_world = Paired sit pairs w' ∧
    length pairs = 3%nat ∧ NoDup (members pairs).
Proof.
  destruct (weekly_pairing_partition ex_platform ex_clock ex_guild ex_world)
    as (sit & pairs & w' & Hround & _ & Hlen & Hnd & _).
  - by_compute.
  - vm_compute. lia.
  - exists sit, pairs, w'. split; [exact Hround|].
    split; [exact Hlen|exact Hnd].
Defined.

(** The round of [ex_world] sits out 16, which has no [sat_out_at], and
    not 11, which sat out on October 20th. *)
Lemma sit_out_prefers_not_recent_witness :
  16 ∈ eligible ex_clock 1 ex_world ∧
  ¬ (∃ r t, r ∈ ex_pool ∧ p_guild_id r = 1 ∧ p_user_id r = 16 ∧
            sat_out_at r = Some t ∧
            String.le (four_weeks_ago ex_clock) t).
Proof.
  destruct (sit_out_prefers_not_recent ex_clock 1 ex_world 16
              [(10, 14); (12, 18); (17, 11)] ex_round_world)
    as (_ & Hin & _ & Hpref & _).
  - vm_compute. reflexivity.
  - split; [exact Hin|]. apply Hpref. exists 10. split; [by_compute|].
    intros (r & t & Hr & _ & Hu & Hs & _). simpl in Hr.
    repeat (apply elem_of_cons in Hr as [->|Hr];
            [vm_compute in Hu, Hs; congruence|]).
    by apply elem_of_nil in Hr.
Defined.

(** The same round in a guild without the channel. *)
Lemma sit_out_marked_before_channel_check_witness :
  ∃ u w',
    _run_matching_for_guild ex_platform ex_clock ex_guild_without_channel
      ex_world = (Some 0%nat, w') ∧
    matches w' = matches ex_world ∧
    ∃ r, r ∈ pool w' ∧ p_guild_id r = 1 ∧ p_user_id r = u ∧
         sat_out_at r = Some (utcnow ex_clock).
Proof.
  destruct (sit_out_marked_before_channel_check ex_platform ex_clock
              ex_guild_without_channel ex_world)
    as (u & w' & Hrun & Hms & _ & _ & Hrow).
  - vm_compute. lia.
  - vm_compute. reflexivity.
  - vm_compute. reflexivity.
  - exists u, w'. split; [exact Hrun|]. split; [exact Hms|exact Hrow].
Defined.

(** The platform refuses the thread of the second pair, (12, 18); the
    first and the third pair get their match. *)
Lemma thread_failure_skips_pair_witness :
  ∃ n w' rows,
    _run_matching_for_guild ex_platform ex_clock ex_guild ex_world =
      (Some n, w') ∧
    matches w' = matches ex_world ++ rows ∧
    n = length rows ∧
    Forall (λ r, (user1_id r, user2_id r) ∈ [(10, 14)] ++ [(17, 11)]) rows.
Proof.
  destruct (thread_failure_skips_pair ex_platform ex_clock ex_guild ex_world
              (Some 16) [(10, 14)] 12 18 [(17, 11)] ex_round_world
              {| ch_id := 500; ch_name := "1-1s" |} 1%nat
              (create_matches ex_platform ex_clock 1 500 [(10, 14)] 0%nat
                 ex_round_world).2 Forbidden)
    as (n & w' & rows & Hrun & _ & _ & Hms & Hn & _ & Hrows).
  - by_compute.
  - vm_compute. reflexivity.
  - vm_compute. reflexivity.
  - vm_compute. reflexivity.
  - vm_compute. reflexivity.
  - exists n, w', rows. split; [exact Hrun|]. split; [exact Hms|].
    split; [exact Hn|exact Hrows].
Defined.

(** A scan over [ex_matches]: matches 1 and 4 are reminded, the completed
    match 2 and the capped match 3 are not. *)
Lemma reminders_respect_cap_and_completion_witness :
  ∃ evs,
    trace (send_reminders_for_guild ex_platform ex_clock ex_guild
             ex_world_matched) = trace ex_world_matched ++ evs ∧
    ∀ t us, Sent t (ReminderMsg us) ∈ evs →
      ∃ r, r ∈ ex_matches ∧ thread_id r = Some t ∧
           completed_at r = None ∧ reminder_count r < 2.
Proof.
  destruct (reminders_respect_cap_and_completion ex_platform ex_clock
              ex_guild ex_world_matched)
    as (evs & Htrace & _ & _ & Hsent).
  - by_compute.
  - exists evs. split; [exact Htrace|]. intros t us Hin.
    destruct (Hsent t us Hin) as (r & Hr & Hth & _ & _ & Hc & Hlt & _).
    exists r. split; [exact Hr|]. split; [exact Hth|].
    split; [exact Hc|exact Hlt].
Defined.

(** Everyone is matched: the rematch of 14 ends with the notice. *)
Lemma rematch_partner_is_fresh_witness :
  matches (_attempt_rematch ex_platform ex_clock 1 14 ex_world_matched) =
    matches ex_world_matched ∧
  trace (_attempt_rematch ex_platform ex_clock 1 14 ex_world_matched) =
    trace ex_world_matched ++ [DirectMessage 14 NoRematchNotice].
Proof.
  apply (proj2 (proj2 (rematch_partner_is_fresh ex_platform ex_clock 1 14
                         ex_world_matched))).
  vm_compute. reflexivity.
Defined.

(** User 11 declines match 1; the rematch is for user 10. *)
Lemma decline_completes_and_rematches_partner_witness :
  decline_partner (reaction 11 cross_mark 1000)
    (ex_match 1 10 11 1000 pending pending 0 None) ≠ 11 ∧
  ∃ m',
    get_match_by_id 1
      (matches (_handle_decline ex_platform ex_clock
                  (reaction 11 cross_mark 1000)
                  (ex_match 1 10 11 1000 pending pending 0 None)
                  ex_world_matched)) = Some m' ∧
    status_of 11 m' = declined ∧
    completed_at m' = Some (utcnow ex_clock).
Proof.
  destruct (decline_completes_and_rematches_partner ex_platform ex_clock
              (reaction 11 cross_mark 1000)
              (ex_match 1 10 11 1000 pending pending 0 None)
              ex_world_matched)
    as (_ & Hp & _ & m' & Hget & Hst & _ & Hc & _).
  - by_compute.
  - left.
  - by_compute.
  - vm_compute. discriminate.
  - split; [exact Hp|]. exists m'. split; [exact Hget|].
    split; [exact Hst|exact Hc].
Defined.

End example_runs.

(** ** Match rows over time *)

Section row_facts.
Import actions one_on_ones.

Lemma with_pool_same w : with_pool (pool w) w = w.
Proof. by destruct w. Qed.

Lemma evolves_refl r : evolves r r.
Proof. unfold evolves. split_and!; try done; lia. Qed.

Lemma evolves_trans r1 r2 r3 : evolves r1 r2 → evolves r2 r3 → evolves r1 r3.
Proof.
  unfold evolves.
  intros (A1 & A2 & A3 & A4 & A5 & A6 & A7 & A8 & A9 & A10)
         (B1 & B2 & B3 & B4 & B5 & B6 & B7 & B8 & B9 & B10).
  split_and!; try congruence; try lia. auto.
Qed.

Lemma history_kept_refl ms : history_kept ms ms.
Proof.
  exists ms, []. rewrite app_nil_r. split; [done|].
  apply Forall_Forall2_diag, Forall_forall. intros. apply evolves_refl.
Qed.

Lemma history_kept_trans ms1 ms2 ms3 :
  history_kept ms1 ms2 → history_kept ms2 ms3 → history_kept ms1 ms3.
Proof.
  intros (o1 & r1 & -> & H1) (o2 & r2 & -> & H2).
  apply Forall2_app_inv_l in H2 as (k1 & k2 & Hk1 & _ & ->).
  exists k1, (k2 ++ r2). rewrite app_assoc. split; [done|].
  eapply Forall2_trans; [|exact H1|exact Hk1].
  intros ???. apply evolves_trans.
Qed.

Lemma history_kept_app ms rows : history_kept ms (ms ++ rows).
Proof.
  exists ms, rows. split; [done|].
  apply Forall_Forall2_diag, Forall_forall. intros. apply evolves_refl.
Qed.

Lemma history_kept_update_where c f ms :
  (∀ r, evolves r (f r)) → history_kept ms (update_where c f ms).
Proof.
  intros Hf. exists (update_where c f ms), []. rewrite app_nil_r.
  split; [done|]. unfold update_where. apply Forall2_fmap_r.
  apply Forall_Forall2_diag, Forall_forall. intros r _. unfold compose.
  destruct (c r); [apply Hf|apply evolves_refl].
Qed.

Lemma Forall_update_where {A} (P : A → Prop) c f (t : list A) :
  (∀ r, P r → P (f r)) → Forall P t → Forall P (update_where c f t).
Proof.
  intros Hf Ht. unfold update_where. apply Forall_fmap.
  eapply Forall_impl; [exact Ht|]. intros r Hr. unfold compose.
  destruct (c r); auto.
Qed.

Lemma update_where_ext_in {A} c (f g : A → A) (t : list A) :
  (∀ r, r ∈ t → c r = true → f r = g r) →
  update_where c f t = update_where c g t.
Proof.
  intros Hfg. unfold update_where. apply list_fmap_ext.
  intros _ r Hr%list_elem_of_lookup_2. destruct (c r) eqn:Hc; auto.
Qed.

(** With unique ids the writes of the handlers are row-wise. *)
Lemma update_match_status_unique i u s ms :
  match_ids_unique ms →
  update_match_status i u s ms =
  update_where (λ r, bool_decide (m_id r = i)) (record_status u s) ms.
Proof.
  intros Hu. rewrite update_match_status_row. unfold get_match_by_id.
  destruct (fetch_one _ ms) as [m|] eqn:Hget.
  - apply fetch_one_Some in Hget as [Hm Hid%bool_decide_eq_true].
    apply update_where_ext_in. intros r Hr Hc%bool_decide_eq_true.
    assert (r = m) as -> by (apply (unique_id_eq ms); congruence).
    unfold record_status. by repeat case_bool_decide.
  - rewrite fetch_one_None in Hget.
    unfold update_where. rewrite <-(list_fmap_id ms) at 1.
    apply list_fmap_ext. intros _ r Hr%list_elem_of_lookup_2.
    by rewrite (Hget r Hr).
Qed.

Lemma confirm_rows_unique now i u ms :
  match_ids_unique ms →
  confirm_rows now i u ms =
  update_where (λ r, bool_decide (m_id r = i)) (confirm_row now u) ms.
Proof.
  intros Hu. unfold confirm_rows. cbv zeta.
  rewrite get_after_update_match_status, update_match_status_unique by done.
  unfold get_match_by_id.
  destruct (fetch_one _ ms) as [m|] eqn:Hget; simpl.
  - apply fetch_one_Some in Hget as [Hm Hid%bool_decide_eq_true].
    destruct (_ && _) eqn:Hboth.
    + unfold complete_match.
      rewrite update_where_compose
        by (intros r; unfold record_status; by repeat case_bool_decide).
      apply update_where_ext_in. intros r Hr Hc%bool_decide_eq_true.
      assert (r = m) as -> by (apply (unique_id_eq ms); congruence).
      unfold confirm_row, compose. cbv zeta. by rewrite Hboth.
    + apply update_where_ext_in. intros r Hr Hc%bool_decide_eq_true.
      assert (r = m) as -> by (apply (unique_id_eq ms); congruence).
      unfold confirm_row. cbv zeta. by rewrite Hboth.
  - rewrite fetch_one_None in Hget.
    apply update_where_ext_in. intros r Hr Hc. by rewrite (Hget r Hr) in Hc.
Qed.

Lemma decline_rows_unique now i u ms :
  match_ids_unique ms →
  complete_match i now (update_match_status i u declined ms) =
  update_where (λ r, bool_decide (m_id r = i)) (decline_row now u) ms.
Proof.
  intros Hu. rewrite update_match_status_unique by done.
  unfold complete_match.
  by rewrite update_where_compose
    by (intros r; unfold record_status; by repeat case_bool_decide).
Qed.

Lemma record_status_fields u s r :
  m_id (record_status u s r) = m_id r ∧
  m_guild_id (record_status u s r) = m_guild_id r ∧
  week_start (record_status u s r) = week_start r ∧
  user1_id (record_status u s r) = user1_id r ∧
  user2_id (record_status u s r) = user2_id r ∧
  thread_id (record_status u s r) = thread_id r ∧
  created_at (record_status u s r) = created_at r ∧
  reminder_count (record_status u s r) = reminder_count r ∧
  completed_at (record_status u s r) = completed_at r.
Proof. unfold record_status. by repeat case_bool_decide. Qed.

Lemma evolves_confirm_row now u r : evolves r (confirm_row now u r).
Proof.
  destruct (record_status_fields u confirmed r)
    as (E1 & E2 & E3 & E4 & E5 & E6 & E7 & E8 & E9).
  unfold evolves, confirm_row. cbv zeta.
  destruct (_ && _); simpl; rewrite ?E1, ?E2, ?E3, ?E4, ?E5, ?E6, ?E7, ?E8,
    ?E9; split_and!; try done; lia.
Qed.

Lemma evolves_decline_row now u r : evolves r (decline_row now u r).
Proof.
  destruct (record_status_fields u declined r)
    as (E1 & E2 & E3 & E4 & E5 & E6 & E7 & E8 & E9).
  unfold evolves, decline_row. simpl.
  rewrite ?E1, ?E2, ?E3, ?E4, ?E5, ?E6, ?E7, ?E8.
  split_and!; try done; lia.
Qed.

Lemma evolves_reminded r r' : reminded_within_cap r r' → evolves r r'.
Proof.
  intros (E & L & U & _). unfold evolves. rewrite E. simpl.
  split_and!; try done.
Qed.

Lemma row_ok_confirm_row now u r : row_ok r → row_ok (confirm_row now u r).
Proof.
  unfold row_ok, confirm_row, record_status. cbv zeta.
  intros (Hne & H0 & H2 & Hopen).
  repeat case_bool_decide; simpl in *; split_and!; try done;
    intros Hc; destruct (Hopen Hc) as (D1 & D2 & [P|P]);
    split_and!; try done; try congruence;
    destruct (user1_status r), (user2_status r); simpl in *;
    try done; auto.
Qed.

Lemma row_ok_decline_row now u r : row_ok r → row_ok (decline_row now u r).
Proof.
  unfold row_ok, decline_row, record_status.
  intros (Hne & H0 & H2 & _).
  repeat case_bool_decide; simpl; split_and!; done.
Qed.

Lemma row_ok_reminded r r' :
  reminded_within_cap r r' → row_ok r → row_ok r'.
Proof.
  intros (E & L & U & _) (Hne & H0 & H2 & Hopen). unfold row_ok.
  pose proof (f_equal user1_id E) as E1.
  pose proof (f_equal user2_id E) as E2.
  pose proof (f_equal user1_status E) as E3.
  pose proof (f_equal user2_status E) as E4.
  pose proof (f_equal completed_at E) as E5.
  simpl in *. rewrite E1, E2, E3, E4, E5. split_and!; try done; lia.
Qed.

End row_facts.

(** ** Every event keeps the store well formed *)

Section follows_facts.
Import actions one_on_ones pool_commands.

Lemma follows_refl w : follows w w.
Proof. intros Hwf. split; [done|apply history_kept_refl]. Qed.

Lemma follows_trans w1 w2 w3 : follows w1 w2 → follows w2 w3 → follows w1 w3.
Proof.
  intros H12 H23 Hwf. destruct (H12 Hwf) as [Hwf2 Hk12].
  destruct (H23 Hwf2) as [Hwf3 Hk23]. split; [done|].
  by eapply history_kept_trans.
Qed.

Lemma follows_same_store w w' :
  pool w' = pool w → matches w' = matches w → follows w w'.
Proof.
  intros Hp Hm (Hk & Hu & Hok). unfold well_formed. rewrite Hp, Hm.
  split; [done|apply history_kept_refl].
Qed.

Lemma follows_pool w w' :
  matches w' = matches w →
  (pool_keys_unique (pool w) → pool_keys_unique (pool w')) →
  follows w w'.
Proof.
  intros Hm Hp (Hk & Hu & Hok). unfold well_formed. rewrite Hm.
  split; [auto|apply history_kept_refl].
Qed.

Lemma follows_update_where w w' i f :
  pool w' = pool w →
  matches w' = update_where (λ r, bool_decide (m_id r = i)) f (matches w) →
  (∀ r, evolves r (f r)) → (∀ r, row_ok r → row_ok (f r)) →
  follows w w'.
Proof.
  intros Hp Hm Hev Hok (Hk & Hu & Hrows). unfold well_formed.
  rewrite Hp, Hm. split; [split_and!|].
  - done.
  - unfold match_ids_unique. rewrite update_where_ids; [done|].
    intros r. by destruct (Hev r) as [? _].
  - by apply Forall_update_where.
  - by apply history_kept_update_where.
Qed.

Lemma follows_create w w' g wk u1 u2 th now :
  u1 ≠ u2 →
  pool w' = pool w →
  matches w' = (create_one_on_one_match g wk u1 u2 th now (matches w)).2 →
  follows w w'.
Proof.
  intros Hne Hp Hm (Hk & Hu & Hrows). unfold well_formed. rewrite Hp, Hm.
  split; [split_and!|].
  - done.
  - by apply create_one_on_one_match_ids_unique.
  - simpl. apply Forall_app. split; [done|]. constructor; [|done].
    unfold row_ok. simpl. split_and!; try done. intros _. auto.
  - simpl. apply history_kept_app.
Qed.

Lemma Forall2_evolves_ids ms ms' :
  Forall2 evolves ms ms' → m_id <$> ms' = m_id <$> ms.
Proof.
  induction 1 as [|r r' l l' Hr _ IH]; [done|].
  rewrite !fmap_cons, IH. f_equal. by destruct Hr as [-> _].
Qed.

Lemma foldl_follows {A} (f : World → A → World) (l : list A) w :
  (∀ w a, follows w (f w a)) → follows w (foldl f w l).
Proof.
  intros Hf. revert w. induction l as [|a l IH]; intros w; simpl.
  - apply follows_refl.
  - eapply follows_trans; [apply Hf|apply IH].
Qed.

Lemma send_reminders_pool pf clk w : pool (send_reminders pf clk w) = pool w.
Proof.
  assert (∀ g sel w0, pool (foldl (λ w m, _send_reminder pf g m w) w0 sel)
                      = pool w0) as Hscan.
  { intros g sel. induction sel as [|m sel IH]; intros w0; simpl; [done|].
    rewrite IH. by destruct (_send_reminder_step pf g m w0) as [-> _]. }
  unfold send_reminders. destruct (negb _); [done|].
  generalize (guilds pf). intros gs. revert w.
  induction gs as [|g gs IH]; intros w; simpl; [done|].
  rewrite IH. apply Hscan.
Qed.

Lemma send_reminders_follows pf clk w : follows w (send_reminders pf clk w).
Proof.
  intros (Hk & Hu & Hrows).
  pose proof (send_reminders_within_cap pf clk w Hu) as Hcap.
  assert (Forall2 evolves (matches w) (matches (send_reminders pf clk w)))
    as Hev.
  { eapply Forall2_impl; [exact Hcap|]. apply evolves_reminded. }
  split; [split_and!|].
  - by rewrite send_reminders_pool.
  - unfold match_ids_unique. by rewrite (Forall2_evolves_ids _ _ Hev).
  - clear Hev. induction Hcap as [|r r' l l' Hr _ IH]; [done|].
    apply Forall_cons in Hrows as [Hr0 Hl]. constructor.
    + by eapply row_ok_reminded.
    + apply IH; [|done]. unfold match_ids_unique in *.
      rewrite fmap_cons in Hu. by apply NoDup_cons in Hu as [_ ?].
  - exists (matches (send_reminders pf clk w)), []. by rewrite app_nil_r.
Qed.

Lemma create_matches_follows pf clk gid ch pairs n w :
  Forall (λ p, p.1 ≠ p.2) pairs →
  follows w (create_matches pf clk gid ch pairs n w).2.
Proof.
  revert n w. induction pairs as [|[u1 u2] rest IH]; intros n w Hd.
  { apply follows_refl. }
  apply Forall_cons in Hd as [Hne Hd]. simpl in Hne. simpl.
  pose proof (open_match_thread_frame pf ch (MatchIntro u1 u2) w)
    as (Hm & Hp & _).
  destruct (open_match_thread pf ch (MatchIntro u1 u2) w) as [[e|th] w1];
    simpl in Hm, Hp.
  - eapply follows_trans; [|by apply IH]. by apply follows_same_store.
  - eapply follows_trans; [|by apply IH].
    eapply (follows_create _ _ gid _ u1 u2 (Some th)); [done|done|].
    simpl. by rewrite Hm.
Qed.

Lemma pairing_round_follows clk gid w sit pairs w0 :
  pairing_round clk gid w = Paired sit pairs w0 →
  pool_keys_unique (pool w) →
  follows w w0 ∧ Forall (λ p, p.1 ≠ p.2) pairs.
Proof.
  intros Hround Hkeys.
  pose proof (pairing_round_inv _ _ _ _ _ _ Hround) as Hge.
  destruct (pairing_round_paired clk gid w Hge)
    as (sit' & pairs' & w0' & Hround' & _ & Hperm & Hms & _ & _ & Hsit).
  rewrite Hround in Hround'. injection Hround' as <- <- <-. split.
  - apply follows_pool; [done|]. intros _.
    destruct sit as [u|].
    + destruct Hsit as (_ & -> & _). by apply mark_user_sat_out_keys_unique.
    + destruct Hsit as (_ & ->). done.
  - pose proof (eligible_NoDup clk gid w Hkeys) as Hnd.
    rewrite <-Hperm in Hnd. apply NoDup_app in Hnd as (Hnd & _ & _).
    apply Forall_forall. intros [u1 u2] Hin. simpl.
    by eapply members_NoDup_distinct.
Qed.

Lemma _run_matching_for_guild_follows pf clk g w :
  follows w (_run_matching_for_guild pf clk g w).2.
Proof.
  unfold _run_matching_for_guild.
  destruct (pairing_round clk (g_id g) w) as [| |sit pairs w0] eqn:Hround;
    simpl; try apply follows_refl.
  intros Hwf.
  destruct (pairing_round_follows _ _ _ _ _ _ Hround (proj1 Hwf))
    as [Hf0 Hd].
  revert Hwf. eapply follows_trans; [exact Hf0|].
  destruct (_get_one_on_ones_channel g) as [channel|]; simpl.
  - pose proof (create_matches_follows pf clk (g_id g) (ch_id channel)
                  pairs 0%nat w0 Hd) as Hcm.
    by destruct (create_matches _ _ _ _ pairs 0%nat w0).
  - by apply follows_same_store.
Qed.

Lemma weekly_matching_follows pf clk w : follows w (weekly_matching pf clk w).
Proof.
  unfold weekly_matching. destruct (_ || _); [apply follows_refl|].
  apply foldl_follows. intros w0 g.
  pose proof (_run_matching_for_guild_follows pf clk g w0) as Hrun.
  destruct (_run_matching_for_guild pf clk g w0) as [[n|] w1]; simpl in *;
    [done|].
  eapply follows_trans; [exact Hrun|]. by apply follows_same_store.
Qed.

(** What a rematch attempt does to the store. *)
Lemma _attempt_rematch_store pf clk gid uid w :
  pool (_attempt_rematch pf clk gid uid w) = pool w ∧
  (matches (_attempt_rematch pf clk gid uid w) = matches w ∨
   ∃ p th,
     p ∈ rematch_candidates clk gid uid w ∧
     matches (_attempt_rematch pf clk gid uid w) =
       (create_one_on_one_match gid (get_week_start clk) uid p (Some th)
          (db_now clk) (matches w)).2).
Proof.
  split; [apply _attempt_rematch_frame|].
  unfold _attempt_rematch.
  destruct (rematch_candidates clk gid uid w) as [|c0 cs] eqn:Hc.
  { left. destruct (fetch_user pf (tick w) uid);
      [|destruct (send_dm pf _ uid)]; done. }
  destruct (choice_elem_of (c0 :: cs) (rng w)) as (p & Hpick & Hin); [done|].
  destruct (choice (c0 :: cs) (rng w)) as [picked r]. simpl in Hpick.
  subst picked. simpl.
  destruct (get_guild pf gid) as [g|]; [|by left].
  destruct (_get_one_on_ones_channel g) as [ch|]; [|by left].
  pose proof (open_match_thread_frame pf (ch_id ch) (RematchIntro uid p)
                (with_rng r w)) as (Hm & _ & _).
  destruct (open_match_thread pf (ch_id ch) (RematchIntro uid p)
              (with_rng r w)) as [[e|th] w2]; simpl in *; [by left|].
  right. exists p, th. by rewrite Hm.
Qed.

Lemma rematch_candidate_other clk gid uid w p :
  p ∈ rematch_candidates clk gid uid w → p ≠ uid.
Proof.
  unfold rematch_candidates. by intros [(? & _) _]%list_elem_of_filter.
Qed.

Lemma _attempt_rematch_follows pf clk gid uid w :
  follows w (_attempt_rematch pf clk gid uid w).
Proof.
  destruct (_attempt_rematch_store pf clk gid uid w)
    as (Hp & [Hm|(p & th & Hin & Hm)]).
  - by apply follows_same_store.
  - eapply follows_create; [|exact Hp|exact Hm].
    intros ->. by eapply rematch_candidate_other.
Qed.

Lemma _handle_confirm_pool pf clk payload m w :
  pool (_handle_confirm pf clk payload m w) = pool w.
Proof.
  unfold _handle_confirm. simpl.
  destruct (get_match_by_id _ _) as [um|]; [|done].
  destruct (_ && _); [|done].
  by rewrite (proj2 (notify_channel_frame _ _ _ _ _)).
Qed.

Lemma _handle_confirm_follows pf clk payload m w :
  follows w (_handle_confirm pf clk payload m w).
Proof.
  intros Hwf.
  assert (follows w (_handle_confirm pf clk payload m w)) as Hf; [|by apply Hf].
  apply (follows_update_where _ _ (m_id m)
           (confirm_row (utcnow clk) (user_id payload))).
  - apply _handle_confirm_pool.
  - rewrite _handle_confirm_matches. apply confirm_rows_unique. apply Hwf.
  - apply evolves_confirm_row.
  - apply row_ok_confirm_row.
Qed.

End follows_facts.

Section step_facts.
Import actions one_on_ones pool_commands.

Lemma decline_recorded_store pf clk payload m w :
  pool (decline_recorded pf clk payload m w) = pool w ∧
  matches (decline_recorded pf clk payload m w) =
    complete_match (m_id m) (utcnow clk)
      (update_match_status (m_id m) (user_id payload) declined (matches w)).
Proof.
  unfold decline_recorded.
  by destruct (notify_channel_frame pf (channel_id payload)
                 (DeclineNotice (user_id payload) (decline_partner payload m))
                 DeclineMessageError
                 (with_matches
                    (complete_match (m_id m) (utcnow clk)
                       (update_match_status (m_id m) (user_id payload)
                          declined (matches w))) w)) as [-> ->].
Qed.

Lemma _handle_decline_follows pf clk payload m w :
  follows w (_handle_decline pf clk payload m w).
Proof.
  unfold _handle_decline.
  eapply follows_trans; [|apply _attempt_rematch_follows].
  intros Hwf.
  assert (follows w (decline_recorded pf clk payload m w)) as Hf;
    [|by apply Hf].
  destruct (decline_recorded_store pf clk payload m w) as [Hp Hm].
  apply (follows_update_where _ _ (m_id m)
           (decline_row (utcnow clk) (user_id payload))).
  - done.
  - rewrite Hm. apply decline_rows_unique. apply Hwf.
  - apply evolves_decline_row.
  - apply row_ok_decline_row.
Qed.

Lemma on_raw_reaction_add_follows pf clk payload w :
  follows w (on_raw_reaction_add pf clk payload w).
Proof.
  unfold on_raw_reaction_add.
  case_bool_decide; [apply follows_refl|].
  destruct (negb _); [apply follows_refl|].
  destruct (get_match_by_thread _ _) as [m|]; [|apply follows_refl].
  destruct (negb _); [apply follows_refl|].
  case_bool_decide; [apply _handle_confirm_follows|].
  case_bool_decide; [apply _handle_decline_follows|apply follows_refl].
Qed.

Lemma leave_one_on_one_pool_keys_unique g u pool :
  pool_keys_unique pool → pool_keys_unique (leave_one_on_one_pool g u pool).2.
Proof.
  unfold leave_one_on_one_pool. intros Hk.
  destruct (fetch_one _ pool); [|done]. simpl.
  unfold pool_keys_unique in *.
  induction pool as [|r pool IH]; [done|].
  rewrite fmap_cons in Hk. apply NoDup_cons in Hk as [Hr Hnd].
  rewrite filter_cons. case_decide; [|by apply IH].
  rewrite fmap_cons. apply NoDup_cons. split; [|by apply IH].
  intros (r' & Hkey & Hin)%list_elem_of_fmap.
  apply list_elem_of_filter in Hin as [_ Hin].
  apply Hr. apply list_elem_of_fmap. by exists r'.
Qed.

Lemma set_one_on_one_skip_keys_unique g u until pool :
  pool_keys_unique pool → pool_keys_unique (set_one_on_one_skip g u until pool).
Proof.
  unfold pool_keys_unique, set_one_on_one_skip, update_where.
  rewrite <-list_fmap_compose. intros Hnd.
  erewrite list_fmap_ext; [exact Hnd|]. intros _ r _. simpl.
  by destruct (_ && _).
Qed.

Lemma join_follows ctx now w : follows w (join ctx now w).2.
Proof.
  unfold join. destruct (ctx_guild ctx) as [g|]; [|apply follows_refl].
  pose proof (join_one_on_one_pool_keys_unique (g_id g) (ctx_author ctx) now
                (pool w)) as Hk.
  destruct (join_one_on_one_pool _ _ _ _) as [[] p]; simpl in *;
    by apply follows_pool.
Qed.

Lemma leave_follows ctx w : follows w (leave ctx w).2.
Proof.
  unfold leave. destruct (ctx_guild ctx) as [g|]; [|apply follows_refl].
  pose proof (leave_one_on_one_pool_keys_unique (g_id g) (ctx_author ctx)
                (pool w)) as Hk.
  destruct (leave_one_on_one_pool _ _ _) as [[] p]; simpl in *;
    by apply follows_pool.
Qed.

Lemma skip_follows ctx weeks until w : follows w (skip ctx weeks until w).2.
Proof.
  unfold skip. destruct (ctx_guild ctx) as [g|]; [|apply follows_refl].
  destruct (get_one_on_one_pool_status _ _ _); [|apply follows_refl].
  simpl. apply follows_pool; [done|].
  apply set_one_on_one_skip_keys_unique.
Qed.

Lemma run_matching_follows pf clk ctx w :
  follows w (run_matching pf clk ctx w).2.
Proof.
  unfold run_matching. destruct (negb _); [apply follows_refl|].
  destruct (ctx_guild ctx) as [g|]; [|apply follows_refl].
  pose proof (_run_matching_for_guild_follows pf clk g w) as Hrun.
  by destruct (_run_matching_for_guild pf clk g w) as [[n|] w1].
Qed.

Lemma step_follows w w' : step w w' → follows w w'.
Proof.
  destruct 1.
  - apply weekly_matching_follows.
  - apply send_reminders_follows.
  - apply on_raw_reaction_add_follows.
  - apply join_follows.
  - apply leave_follows.
  - apply skip_follows.
  - apply run_matching_follows.
Qed.

(** X1. Whatever sequence of events the cog handles (ticks of the weekly
    matching and of the reminder loop, reactions, the join, leave, skip and
    run_matching commands, with any platform behaviour, clock readings and
    random draws), a well-formed store stays well formed: one pool row per
    guild and user, one match row per id, the two users of a match
    different, a reminder count between 0 and 2, and in every open match
    nobody declined and somebody is still pending. *)
Theorem reachable_well_formed w w' :
  well_formed w → rtc step w w' → well_formed w'.
Proof.
  intros Hwf Hsteps. induction Hsteps as [w|w1 w2 w3 Hstep _ IH]; [done|].
  apply IH. by destruct (step_follows _ _ Hstep Hwf).
Qed.

(** X2. Over any sequence of events from a well-formed store no match row
    is deleted or moved, none changes its id, guild, week, users, thread or
    creation time, no reminder count goes down or past the cap, and no
    completed match becomes open again; rows are only added at the end. *)
Theorem reachable_history_kept w w' :
  well_formed w → rtc step w w' → history_kept (matches w) (matches w').
Proof.
  intros Hwf Hsteps. induction Hsteps as [w|w1 w2 w3 Hstep _ IH].
  - apply history_kept_refl.
  - destruct (step_follows _ _ Hstep Hwf) as [Hwf2 Hk].
    eapply history_kept_trans; [exact Hk|by apply IH].
Qed.

End step_facts.

(** ** Runs, re-runs and the match lifecycle *)

Section lifecycle_facts.
Import actions one_on_ones pool_commands.

Lemma pairing_round_too_few clk gid w :
  (length (eligible clk gid w) < 2)%nat → pairing_round clk gid w = TooFew.
Proof.
  intros Hlt. unfold pairing_round.
  destruct (_ <? 2)%nat; [done|].
  by destruct (Nat.ltb_spec (length (eligible clk gid w)) 2); [|lia].
Qed.

Lemma create_matches_count_le pf clk gid ch pairs n w :
  ((create_matches pf clk gid ch pairs n w).1 ≤ n + length pairs)%nat.
Proof.
  revert n w. induction pairs as [|[u1 u2] rest IH]; intros n w; simpl; [lia|].
  destruct (open_match_thread pf ch (MatchIntro u1 u2) w) as [[e|th] w1].
  - specialize (IH n (logged (thread_failure_log gid e) w1)). lia.
  - match goal with
    | |- context [create_matches _ _ _ _ rest (S n) ?w2] =>
        specialize (IH (S n) w2)
    end. lia.
Qed.

(** X3. A matching run never ends with an exception: [random.choice] is
    never given an empty list, [list.remove] always finds the sit-out and
    the list cut into pairs always has even length. It returns the number
    of match rows it appended, at most half the eligible count; every new
    row is a pending, open match of the guild for the current week, and
    the rows that were there are untouched. *)
Theorem _run_matching_for_guild_returns pf clk g w :
  ∃ n rows,
    (_run_matching_for_guild pf clk g w).1 = Some n ∧
    matches (_run_matching_for_guild pf clk g w).2 = matches w ++ rows ∧
    n = length rows ∧
    (n ≤ length (eligible clk (g_id g) w) / 2)%nat ∧
    Forall (λ r, m_guild_id r = g_id g ∧
                 week_start r = get_week_start clk ∧
                 user1_status r = pending ∧ user2_status r = pending ∧
                 completed_at r = None) rows.
Proof.
  unfold _run_matching_for_guild.
  destruct (decide (2 ≤ length (eligible clk (g_id g) w))%nat) as [Hge|Hlt].
  - destruct (pairing_round_paired clk (g_id g) w Hge)
      as (sit & pairs & w0 & -> & Hlen & _ & Hms & _).
    destruct (_get_one_on_ones_channel g) as [channel|].
    + destruct (create_matches_rows pf clk (g_id g) (ch_id channel) pairs
                  0%nat w0) as (rows & Hm & Hn & _ & Hrows).
      pose proof (create_matches_count_le pf clk (g_id g) (ch_id channel)
                    pairs 0%nat w0) as Hle.
      destruct (create_matches _ _ _ _ pairs 0%nat w0) as [n w2].
      simpl in *. exists n, rows. rewrite Hm, Hms.
      split_and!; try done; try lia.
      eapply Forall_impl; [exact Hrows|]. by intros r (_ & ?).
    + exists 0%nat, []. simpl. rewrite Hms, app_nil_r.
      split_and!; try done. lia.
  - rewrite pairing_round_too_few by lia.
    exists 0%nat, []. simpl. rewrite app_nil_r. split_and!; try done. lia.
Qed.

Lemma get_available_mark g wk g' u now pool :
  get_available_pool_members g wk (mark_user_sat_out g' u now pool) =
  get_available_pool_members g wk pool.
Proof.
  unfold get_available_pool_members, mark_user_sat_out, update_where.
  induction pool as [|r pool IH]; [done|].
  rewrite fmap_cons.
  set (r' := if bool_decide (p_guild_id r = g') && bool_decide (p_user_id r = u)
             then set_sat_out_at (Some now) r else r).
  assert (p_guild_id r' = p_guild_id r ∧ p_user_id r' = p_user_id r ∧
          not_skipping wk r' = not_skipping wk r) as (Eg & Eu & Es)
    by (unfold r'; by destruct (_ && _)).
  destruct (decide (p_guild_id r = g ∧ not_skipping wk r)) as [Hc|Hc].
  - rewrite !filter_cons_True by (by rewrite ?Eg, ?Es).
    by rewrite !fmap_cons, IH, Eu.
  - rewrite !filter_cons_False by (by rewrite ?Eg, ?Es). apply IH.
Qed.

Lemma create_matches_cooperative_rows pf clk gid ch pairs n w :
  cooperative pf →
  ∃ rows,
    matches (create_matches pf clk gid ch pairs n w).2 = matches w ++ rows ∧
    pool (create_matches pf clk gid ch pairs n w).2 = pool w ∧
    (λ r, (user1_id r, user2_id r)) <$> rows = pairs ∧
    Forall (λ r, m_guild_id r = gid ∧ week_start r = get_week_start clk)
           rows.
Proof.
  intros (Hth & Hsend & Hreact). revert n w.
  induction pairs as [|[u1 u2] rest IH]; intros n w.
  { exists []. simpl. by rewrite app_nil_r. }
  simpl. unfold open_match_thread. destruct (Hth (tick w) ch) as [th ->].
  rewrite Hsend, !Hreact.
  match goal with
  | |- context [create_matches _ _ _ _ rest (S n) ?w2] =>
      destruct (IH (S n) w2) as (rows & Hm & Hp & Hus & Hrows)
  end.
  eexists (_ :: rows). rewrite Hm, Hp. simpl matches. simpl pool.
  rewrite <-app_assoc. split_and!; try done.
  - rewrite fmap_cons. simpl. by rewrite Hus.
  - by constructor.
Qed.

(** X4. A second matching run in the same week, after a run on which the
    platform accepted every thread, post and reaction, creates nothing: it
    returns 0 and leaves the state as the first run left it (whatever the
    platform does the second time), because everyone the first run paired
    is now matched this week and at most the sit-out is left. *)
Theorem rerun_creates_nothing pf pf' clk clk' g w channel :
  cooperative pf →
  pool_keys_unique (pool w) →
  _get_one_on_ones_channel g = Some channel →
  get_week_start clk' = get_week_start clk →
  _run_matching_for_guild pf' clk' g (_run_matching_for_guild pf clk g w).2 =
  (Some 0%nat, (_run_matching_for_guild pf clk g w).2).
Proof.
  intros Hpf Hkeys Hch Hwk.
  assert (∀ w1, (length (eligible clk' (g_id g) w1) < 2)%nat →
                _run_matching_for_guild pf' clk' g w1 = (Some 0%nat, w1))
    as Hfew.
  { intros w1 Hlt. unfold _run_matching_for_guild.
    by rewrite pairing_round_too_few. }
  assert (∀ w1, eligible clk' (g_id g) w1 = eligible clk (g_id g) w1) as Hel.
  { intros w1. unfold eligible. by rewrite Hwk. }
  apply Hfew. rewrite Hel.
  destruct (decide (2 ≤ length (eligible clk (g_id g) w))%nat) as [Hge|Hlt].
  2:{ unfold _run_matching_for_guild.
      rewrite pairing_round_too_few by lia. simpl. lia. }
  unfold _run_matching_for_guild.
  destruct (pairing_round_paired clk (g_id g) w Hge)
    as (sit & pairs & w0 & -> & _ & Hperm & Hms & _ & _ & Hsit).
  rewrite Hch.
  destruct (create_matches_cooperative_rows pf clk (g_id g) (ch_id channel)
              pairs 0%nat w0 Hpf) as (rows & Hm & Hp & Hus & Hrows).
  destruct (create_matches _ _ _ _ pairs 0%nat w0) as [n w2]. simpl in *.
  assert (get_available_pool_members (g_id g) (get_week_start clk) (pool w2)
          = get_available_pool_members (g_id g) (get_week_start clk) (pool w))
    as Hav.
  { rewrite Hp. destruct sit as [u|].
    - destruct Hsit as (_ & -> & _). apply get_available_mark.
    - by destruct Hsit as (_ & ->). }
  assert (pool_keys_unique (pool w2)) as Hkeys2.
  { rewrite Hp. destruct sit as [u|].
    - destruct Hsit as (_ & -> & _). by apply mark_user_sat_out_keys_unique.
    - by destruct Hsit as (_ & ->). }
  assert (∀ u, u ∈ eligible clk (g_id g) w2 → u ∈ option_list sit) as Hsub.
  { intros u. unfold eligible at 1. rewrite Hav.
    intros [Hnm Hin]%list_elem_of_filter.
    assert (u ∈ eligible clk (g_id g) w) as Hu.
    { unfold eligible. apply list_elem_of_filter. split; [|done].
      intros Hold. apply Hnm.
      apply elem_of_matched_this_week in Hold as (r & Hr & ?).
      apply elem_of_matched_this_week. exists r. split; [|done].
      rewrite Hm, Hms. apply elem_of_app. by left. }
    rewrite <-Hperm in Hu. apply elem_of_app in Hu as [Hu|Hu]; [|done].
    exfalso. apply Hnm. apply elem_of_matched_this_week.
    unfold members in Hu. apply list_elem_of_bind in Hu as ([a b] & Hab & Hp').
    rewrite <-Hus in Hp'. apply list_elem_of_fmap in Hp' as (r & Heq & Hr).
    injection Heq as -> ->.
    exists r. split; [rewrite Hm; apply elem_of_app; by right|].
    rewrite Forall_forall in Hrows. destruct (Hrows r Hr) as [-> ->].
    split; [done|]. split; [done|]. simpl in Hab.
    apply elem_of_cons in Hab as [->|Hab]; [by left|].
    apply list_elem_of_singleton in Hab as ->. by right. }
  pose proof (eligible_NoDup clk (g_id g) w2 Hkeys2) as Hnd.
  pose proof (submseteq_length _ _ (NoDup_submseteq _ _ Hnd Hsub)) as Hlen.
  destruct sit; simpl in Hlen; lia.
Qed.

Lemma matched_this_week_update_where g wk c f ms :
  (∀ r, m_guild_id (f r) = m_guild_id r ∧ week_start (f r) = week_start r ∧
        user1_id (f r) = user1_id r ∧ user2_id (f r) = user2_id r) →
  get_users_matched_this_week g wk (update_where c f ms) =
  get_users_matched_this_week g wk ms.
Proof.
  intros Hf. apply set_eq. intros u.
  rewrite !elem_of_matched_this_week. split.
  - intros (r' & (r & Hr & ->)%elem_of_update_where & Hg & Hw & Hu).
    exists r. split; [done|]. destruct (Hf r) as (E1 & E2 & E3 & E4).
    destruct (c r); [|done]. by rewrite <-E1, <-E2, <-E3, <-E4.
  - intros (r & Hr & Hg & Hw & Hu).
    exists (if c r then f r else r). split.
    + apply elem_of_update_where. by exists r.
    + destruct (Hf r) as (E1 & E2 & E3 & E4).
      destruct (c r); [|done]. by rewrite E1, E2, E3, E4.
Qed.

Lemma partners_this_week_update_where g uid wk c f ms :
  (∀ r, m_guild_id (f r) = m_guild_id r ∧ week_start (f r) = week_start r ∧
        user1_id (f r) = user1_id r ∧ user2_id (f r) = user2_id r) →
  get_user_partners_this_week g uid wk (update_where c f ms) =
  get_user_partners_this_week g uid wk ms.
Proof.
  intros Hf. apply set_eq. intros u.
  rewrite !elem_of_partners_this_week. split.
  - intros (r' & (r & Hr & ->)%elem_of_update_where & Hg & Hw & Hu).
    exists r. split; [done|]. destruct (Hf r) as (E1 & E2 & E3 & E4).
    destruct (c r); [|done]. by rewrite <-E1, <-E2, <-E3, <-E4.
  - intros (r & Hr & Hg & Hw & Hu).
    exists (if c r then f r else r). split.
    + apply elem_of_update_where. by exists r.
    + destruct (Hf r) as (E1 & E2 & E3 & E4).
      destruct (c r); [|done]. by rewrite E1, E2, E3, E4.
Qed.

Lemma decline_row_fields now u r :
  m_guild_id (decline_row now u r) = m_guild_id r ∧
  week_start (decline_row now u r) = week_start r ∧
  user1_id (decline_row now u r) = user1_id r ∧
  user2_id (decline_row now u r) = user2_id r.
Proof.
  destruct (evolves_decline_row now u r) as (_ & ? & ? & ? & ? & _). done.
Qed.

Lemma _attempt_rematch_creates pf clk gid uid w g channel :
  cooperative pf →
  rematch_candidates clk gid uid w ≠ [] →
  get_guild pf gid = Some g →
  _get_one_on_ones_channel g = Some channel →
  ∃ p th,
    p ∈ rematch_candidates clk gid uid w ∧
    matches (_attempt_rematch pf clk gid uid w) =
      (create_one_on_one_match gid (get_week_start clk) uid p (Some th)
         (db_now clk) (matches w)).2.
Proof.
  intros (Hth & Hsend & Hreact) Hc Hg Hch. unfold _attempt_rematch.
  destruct (rematch_candidates clk gid uid w) as [|c0 cs] eqn:Hcs; [done|].
  destruct (choice_elem_of (c0 :: cs) (rng w)) as (p & Hpick & Hin); [done|].
  destruct (choice (c0 :: cs) (rng w)) as [picked r]. simpl in Hpick.
  subst picked. simpl. rewrite Hg, Hch.
  unfold open_match_thread.
  destruct (Hth (tick (with_rng r w)) (ch_id channel)) as [th ->].
  rewrite Hsend, !Hreact. simpl. by exists p, th.
Qed.

(** X5. When a participant puts the cross on a match and the platform
    accepts every call, the guild has its [1-1s] channel and the partner has
    at least one rematch candidate, the reaction records the decline on the
    match and appends exactly one new match: for the guild of the reaction
    and the week key read at the time of the reaction, pending, open,
    without reminders, with a thread, between the partner and one of the
    partner's candidates. When the declined match is of that guild and
    that week key, the new match is for the same guild and week as the
    declined one, and the new partner is neither of its two users. *)
Theorem decline_rematches_with_candidate pf clk payload w m g channel :
  match_ids_unique (matches w) →
  get_match_by_thread (channel_id payload) (matches w) = Some m →
  user_id payload ≠ bot_user_id pf →
  user_id payload ∈ [user1_id m; user2_id m] →
  emoji payload = cross_mark →
  cooperative pf →
  get_guild pf (guild_id payload) = Some g →
  _get_one_on_ones_channel g = Some channel →
  rematch_candidates clk (guild_id payload) (decline_partner payload m) w
    ≠ [] →
  ∃ r,
    matches (on_raw_reaction_add pf clk payload w) =
      update_where (λ r0, bool_decide (m_id r0 = m_id m))
        (decline_row (utcnow clk) (user_id payload)) (matches w) ++ [r] ∧
    user1_id r = decline_partner payload m ∧
    user2_id r ∈ rematch_candidates clk (guild_id payload)
                   (decline_partner payload m) w ∧
    m_guild_id r = guild_id payload ∧
    week_start r = get_week_start clk ∧
    user1_status r = pending ∧ user2_status r = pending ∧
    completed_at r = None ∧ reminder_count r = 0 ∧
    is_Some (thread_id r) ∧
    (m_guild_id m = guild_id payload →
     week_start m = get_week_start clk →
     m_guild_id r = m_guild_id m ∧ week_start r = week_start m ∧
     user2_id r ≠ user1_id m ∧ user2_id r ≠ user2_id m).
Proof.
  intros Hu Hget Hbot Hpart Hem Hpf Hg Hch Hc.
  assert (on_raw_reaction_add pf clk payload w =
          _handle_decline pf clk payload m w) as ->.
  { unfold on_raw_reaction_add.
    rewrite (bool_decide_eq_false_2 _ Hbot).
    rewrite (bool_decide_eq_true_2 (emoji payload ∈ _))
      by (rewrite Hem; right; left).
    simpl. rewrite Hget, (bool_decide_eq_true_2 _ Hpart). simpl.
    rewrite (bool_decide_eq_false_2 (emoji payload = white_check_mark))
      by (rewrite Hem; discriminate).
    by rewrite (bool_decide_eq_true_2 _ Hem). }
  unfold _handle_decline.
  set (p := decline_partner payload m) in *.
  set (w1 := decline_recorded pf clk payload m w).
  destruct (decline_recorded_store pf clk payload m w) as [Hp1 Hm1].
  rewrite decline_rows_unique in Hm1 by done. fold w1 in Hp1, Hm1.
  assert (rematch_candidates clk (guild_id payload) p w1 =
          rematch_candidates clk (guild_id payload) p w) as Hsame.
  { unfold rematch_candidates. rewrite Hp1, Hm1.
    rewrite matched_this_week_update_where, partners_this_week_update_where;
      [done|intros; apply decline_row_fields..]. }
  destruct (_attempt_rematch_creates pf clk (guild_id payload) p w1 g channel)
    as (c & th & Hin & Hms); [done|by rewrite Hsame|done|done|].
  rewrite Hms, Hm1. eexists. split; [done|]. simpl.
  rewrite Hsame in Hin. split_and!; try done; try (by eexists).
  intros Hgm Hwm. split; [done|]. split; [done|].
  apply list_elem_of_filter in Hin as [(_ & _ & Hnm) _].
  apply fetch_one_Some in Hget as [Hm _].
  split; intros Hc'; apply Hnm, elem_of_matched_this_week; exists m;
    split_and!; auto.
Qed.

(** X6. A check mark of a participant on a match (the two users different)
    sets that participant's status to confirmed and leaves the partner's
    status and the reminder count alone. If the partner had confirmed, the
    match row gets [completed_at] set to the time of the reaction;
    otherwise [completed_at] stays as it was, so one confirmation alone
    never completes an open match. *)
Theorem confirm_transition pf clk payload w m :
  match_ids_unique (matches w) →
  get_match_by_thread (channel_id payload) (matches w) = Some m →
  user_id payload ≠ bot_user_id pf →
  user_id payload ∈ [user1_id m; user2_id m] →
  user1_id m ≠ user2_id m →
  emoji payload = white_check_mark →
  ∃ m',
    get_match_by_id (m_id m)
      (matches (on_raw_reaction_add pf clk payload w)) = Some m' ∧
    status_of (user_id payload) m' = confirmed ∧
    status_of (decline_partner payload m) m' =
      status_of (decline_partner payload m) m ∧
    reminder_count m' = reminder_count m ∧
    (status_of (decline_partner payload m) m = confirmed →
     completed_at m' = Some (utcnow clk)) ∧
    (status_of (decline_partner payload m) m ≠ confirmed →
     completed_at m' = completed_at m).
Proof.
  intros Hu Hget Hbot Hpart Hne Hem.
  assert (on_raw_reaction_add pf clk payload w =
          _handle_confirm pf clk payload m w) as ->.
  { unfold on_raw_reaction_add.
    rewrite (bool_decide_eq_false_2 _ Hbot).
    rewrite (bool_decide_eq_true_2 (emoji payload ∈ _))
      by (rewrite Hem; left).
    simpl. rewrite Hget, (bool_decide_eq_true_2 _ Hpart). simpl.
    by rewrite (bool_decide_eq_true_2 _ Hem). }
  assert (get_match_by_id (m_id m) (matches w) = Some m) as Hid.
  { apply get_match_by_id_unique; [done|].
    by apply fetch_one_Some in Hget as [? _]. }
  rewrite _handle_confirm_matches, get_after_confirm_rows, Hid. simpl.
  eexists. split; [done|].
  assert (user_id payload = user1_id m ∨ user_id payload = user2_id m)
    as Hcase.
  { apply elem_of_cons in Hpart as [?|Hpart]; [by left|].
    apply list_elem_of_singleton in Hpart. by right. }
  unfold status_of, decline_partner, record_status.
  destruct Hcase as [E|E]; rewrite E;
    repeat (case_bool_decide; simpl; try done; try congruence);
    split_and!; try done; try congruence.
Qed.

Lemma rtc_step_follows w w' : rtc step w w' → follows w w'.
Proof.
  induction 1 as [w|w1 w2 w3 Hstep _ IH]; [apply follows_refl|].
  eapply follows_trans; [by apply step_follows|done].
Qed.

(** X7. Once a match is completed, no reminder scan ever selects it again,
    whatever events happen in between (from a well-formed store): the
    query [get_matches_needing_reminder] returns no row with its id, for
    any guild, week and cap. *)
Theorem completed_match_never_selected w w' r g wk cap :
  well_formed w →
  rtc step w w' →
  r ∈ matches w →
  completed_at r ≠ None →
  ∀ r', r' ∈ get_matches_needing_reminder g wk cap (matches w') →
        m_id r' ≠ m_id r.
Proof.
  intros Hwf Hsteps Hr Hdone r' Hsel Hid.
  destruct (rtc_step_follows _ _ Hsteps Hwf)
    as [(_ & Hu' & _) (old' & rows & Hm & Hev)].
  apply list_elem_of_filter in Hsel as [(_ & _ & Hopen & _) Hr'].
  apply list_elem_of_lookup in Hr as [i Hi].
  destruct (Forall2_lookup_l _ _ _ _ _ Hev Hi) as (r2 & Hi2 & Hr2).
  assert (r2 ∈ matches w') as Hin2.
  { rewrite Hm. apply elem_of_app. left. by eapply list_elem_of_lookup_2. }
  assert (r' = r2) as ->.
  { apply (unique_id_eq (matches w')); try done.
    destruct Hr2 as [-> _]. done. }
  destruct Hr2 as (_ & _ & _ & _ & _ & _ & _ & _ & _ & Hkeep).
  by apply Hkeep.
Qed.

End lifecycle_facts.

(** ** The pool and the match table as stores *)

Section store_round_trips.
Import actions one_on_ones pool_commands.

Lemma fetch_one_filter {A} (c : A → bool) (P : A → Prop)
    `{!∀ x, Decision (P x)} (t : list A) :
  (∀ r, c r = true → P r) → fetch_one c (filter P t) = fetch_one c t.
Proof.
  intros Hc. induction t as [|x t IH]; [done|].
  rewrite filter_cons. simpl. destruct (c x) eqn:Hx.
  - rewrite decide_True by auto. simpl. by rewrite Hx.
  - case_decide; simpl; by rewrite ?Hx.
Qed.

Lemma fetch_one_snoc {A} (c : A → bool) (t : list A) (x : A) :
  fetch_one c (t ++ [x]) =
  match fetch_one c t with
  | Some r => Some r
  | None => if c x then Some x else None
  end.
Proof. induction t as [|y t IH]; simpl; [done|]. by destruct (c y). Qed.

Lemma pool_status_None g u pool :
  get_one_on_one_pool_status g u pool = None ↔
  ∀ r, r ∈ pool → ¬ (p_guild_id r = g ∧ p_user_id r = u).
Proof.
  unfold get_one_on_one_pool_status. rewrite fmap_None, fetch_one_None.
  split; intros H r Hr.
  - intros [Hg Hu]. specialize (H r Hr).
    by rewrite !bool_decide_eq_true_2 in H.
  - specialize (H r Hr). apply andb_false_iff.
    destruct (decide (p_guild_id r = g)) as [Hg|Hg];
      [right|left]; apply bool_decide_eq_false_2; naive_solver.
Qed.

(** X8. Joining the pool returns [True] exactly when the user had no row
    for the guild; afterwards the user has a status (a fresh one, not
    skipping and never sat out, when newly joined), every other member's
    status is as before, and a second join returns [False] and leaves the
    pool as it is. *)
Theorem join_then_join g u now now' pool :
  ((join_one_on_one_pool g u now pool).1 = true ↔
   get_one_on_one_pool_status g u pool = None) ∧
  ((join_one_on_one_pool g u now pool).1 = true →
   get_one_on_one_pool_status g u (join_one_on_one_pool g u now pool).2 =
   Some (now, None, None)) ∧
  ((join_one_on_one_pool g u now pool).1 = false →
   (join_one_on_one_pool g u now pool).2 = pool) ∧
  (∀ g' u', ¬ (g' = g ∧ u' = u) →
     get_one_on_one_pool_status g' u' (join_one_on_one_pool g u now pool).2 =
     get_one_on_one_pool_status g' u' pool) ∧
  join_one_on_one_pool g u now' (join_one_on_one_pool g u now pool).2 =
    (false, (join_one_on_one_pool g u now pool).2).
Proof.
  unfold join_one_on_one_pool at 1 2 3 4 5 6 8,
    get_one_on_one_pool_status.
  destruct (fetch_one _ pool) as [r|] eqn:Hf; simpl.
  - split_and!; try done.
    unfold join_one_on_one_pool. by rewrite Hf.
  - split_and!; try done.
    + intros _. rewrite fetch_one_snoc, Hf. simpl.
      by rewrite !bool_decide_eq_true_2.
    + intros g' u' Hne. rewrite fetch_one_snoc. simpl.
      assert (bool_decide (g = g') && bool_decide (u = u') = false) as ->;
        [|by destruct (fetch_one
                         (λ r, bool_decide (p_guild_id r = g') &&
                               bool_decide (p_user_id r = u')) pool)].
      apply andb_false_iff. destruct (decide (g = g')) as [Hg|Hg].
      * right. apply bool_decide_eq_false_2. intros Hu. by apply Hne.
      * left. by apply bool_decide_eq_false_2.
    + unfold join_one_on_one_pool. rewrite fetch_one_snoc, Hf. simpl.
      by rewrite !bool_decide_eq_true_2.
Qed.

(** X9. Leaving the pool returns [True] exactly when the user had a row
    for the guild; afterwards the user has no status, every other member's
    status is as before, and a second leave returns [False] and changes
    nothing. *)
Theorem leave_then_leave g u pool :
  ((leave_one_on_one_pool g u pool).1 = true ↔
   is_Some (get_one_on_one_pool_status g u pool)) ∧
  get_one_on_one_pool_status g u (leave_one_on_one_pool g u pool).2 = None ∧
  (∀ g' u', ¬ (g' = g ∧ u' = u) →
     get_one_on_one_pool_status g' u' (leave_one_on_one_pool g u pool).2 =
     get_one_on_one_pool_status g' u' pool) ∧
  leave_one_on_one_pool g u (leave_one_on_one_pool g u pool).2 =
    (false, (leave_one_on_one_pool g u pool).2).
Proof.
  assert (get_one_on_one_pool_status g u
            (leave_one_on_one_pool g u pool).2 = None) as Hgone.
  { unfold leave_one_on_one_pool.
    destruct (fetch_one _ pool) as [r|] eqn:Hf; simpl.
    - apply pool_status_None. intros r' Hr'.
      by apply list_elem_of_filter in Hr' as [? _].
    - unfold get_one_on_one_pool_status. by rewrite Hf. }
  split_and!.
  - unfold leave_one_on_one_pool, get_one_on_one_pool_status.
    destruct (fetch_one _ pool); simpl; split; try done; by intros [? ?].
  - done.
  - intros g' u' Hne. unfold leave_one_on_one_pool.
    destruct (fetch_one _ pool); [|done]. simpl.
    unfold get_one_on_one_pool_status. f_equal.
    apply fetch_one_filter.
    intros r [Hg Hu]%andb_true_iff [Hg' Hu'].
    apply bool_decide_eq_true in Hg, Hu. apply Hne. by subst.
  - unfold get_one_on_one_pool_status in Hgone.
    apply fmap_None in Hgone.
    unfold leave_one_on_one_pool at 1. by rewrite Hgone.
Qed.

(** X10. Joining and then leaving gives back the pool one started from,
    row for row, when the user was not a member. *)
Theorem join_then_leave g u now pool :
  get_one_on_one_pool_status g u pool = None →
  leave_one_on_one_pool g u (join_one_on_one_pool g u now pool).2 =
  (true, pool).
Proof.
  intros Hnone. pose proof Hnone as Hrows.
  rewrite pool_status_None in Hrows.
  unfold get_one_on_one_pool_status in Hnone. apply fmap_None in Hnone.
  unfold join_one_on_one_pool. rewrite Hnone. simpl.
  unfold leave_one_on_one_pool. rewrite fetch_one_snoc, Hnone. simpl.
  rewrite !bool_decide_eq_true_2 by done. simpl. f_equal.
  rewrite filter_app, filter_cons_False, filter_nil, app_nil_r
    by (simpl; tauto).
  clear Hnone. induction pool as [|r pool IH]; [done|].
  rewrite filter_cons_True by (apply Hrows; left).
  f_equal. apply IH. intros r' Hr'. apply Hrows. by right.
Qed.

End store_round_trips.

Section store_compositions.
Import actions one_on_ones pool_commands.

Lemma pool_status_Some g u pool j sk s :
  get_one_on_one_pool_status g u pool = Some (j, sk, s) →
  ∃ r, r ∈ pool ∧ p_guild_id r = g ∧ p_user_id r = u.
Proof.
  unfold get_one_on_one_pool_status. intros (r & Hf & _)%fmap_Some.
  apply fetch_one_Some in Hf as [Hr [Hg Hu]%andb_true_iff].
  apply bool_decide_eq_true in Hg, Hu. by exists r.
Qed.

(** X11. The skip command of a user that is not in the pool answers that
    the user must join first and changes nothing. For a member it stores
    the date: from then on the member is available for a week key exactly
    when the stored date is at most that key in text order, the
    availability of every other (guild, user) is as before, and the match
    table is untouched. *)
Theorem skip_command_excludes ctx g weeks until w :
  ctx_guild ctx = Some g →
  (get_one_on_one_pool_status (g_id g) (ctx_author ctx) (pool w) = None →
   skip ctx weeks until w = (JoinFirst, w)) ∧
  (is_Some (get_one_on_one_pool_status (g_id g) (ctx_author ctx) (pool w)) →
   (skip ctx weeks until w).1 = WillSkip weeks until ∧
   matches (skip ctx weeks until w).2 = matches w ∧
   (∀ wk, ctx_author ctx ∈
            get_available_pool_members (g_id g) wk
              (pool (skip ctx weeks until w).2) ↔
          String.le until wk) ∧
   (∀ g' u' wk, ¬ (g' = g_id g ∧ u' = ctx_author ctx) →
      (u' ∈ get_available_pool_members g' wk
              (pool (skip ctx weeks until w).2) ↔
       u' ∈ get_available_pool_members g' wk (pool w)))).
Proof.
  intros Hg. unfold skip. rewrite Hg. split.
  { by intros ->. }
  intros [[[j sk] s] Hst]. rewrite Hst. simpl.
  destruct (pool_status_Some _ _ _ _ _ _ Hst) as (r0 & Hr0 & Hg0 & Hu0).
  split; [done|]. split; [done|].
  unfold set_one_on_one_skip. split.
  - intros wk. rewrite elem_of_get_available. split.
    + intros (r' & (r & Hr & ->)%elem_of_update_where & Hg' & Hu' & Hns).
      destruct (_ && _) eqn:Hkey.
      * unfold not_skipping in Hns. simpl in Hns.
        by apply bool_decide_eq_true in Hns.
      * apply andb_false_iff in Hkey as [Hk|Hk];
          apply bool_decide_eq_false in Hk; done.
    + intros Hle. exists (set_skip_until (Some until) r0). split.
      * apply elem_of_update_where. exists r0. split; [done|].
        by rewrite !bool_decide_eq_true_2.
      * split; [done|]. split; [done|]. unfold not_skipping. simpl.
        by apply bool_decide_eq_true.
  - intros g' u' wk Hne. rewrite !elem_of_get_available. split.
    + intros (r' & (r & Hr & ->)%elem_of_update_where & Hg' & Hu' & Hns).
      destruct (_ && _) eqn:Hkey.
      * apply andb_true_iff in Hkey as [Hk1 Hk2].
        apply bool_decide_eq_true in Hk1, Hk2. simpl in *.
        destruct Hne. by subst.
      * by exists r.
    + intros (r & Hr & Hg' & Hu' & Hns).
      exists r. split; [|done]. apply elem_of_update_where. exists r.
      split; [done|].
      destruct (_ && _) eqn:Hkey; [|done].
      apply andb_true_iff in Hkey as [Hk1 Hk2].
      apply bool_decide_eq_true in Hk1, Hk2. destruct Hne. by subst.
Qed.

Lemma available_after_set_skip g u until wk pool :
  (∃ r, r ∈ pool ∧ p_guild_id r = g ∧ p_user_id r = u) →
  u ∈ get_available_pool_members g wk
        (set_one_on_one_skip g u (Some until) pool) ↔
  String.le until wk.
Proof.
  intros (r0 & Hr0 & Hg0 & Hu0). unfold set_one_on_one_skip.
  rewrite elem_of_get_available. split.
  - intros (r' & (r & Hr & ->)%elem_of_update_where & Hg' & Hu' & Hns).
    destruct (_ && _) eqn:Hkey.
    + unfold not_skipping in Hns. simpl in Hns.
      by apply bool_decide_eq_true in Hns.
    + apply andb_false_iff in Hkey as [Hk|Hk];
        apply bool_decide_eq_false in Hk; done.
  - intros Hle. exists (set_skip_until (Some until) r0). split.
    + apply elem_of_update_where. exists r0. split; [done|].
      by rewrite !bool_decide_eq_true_2.
    + split; [done|]. split; [done|]. unfold not_skipping. simpl.
      by apply bool_decide_eq_true.
Qed.

(** X21. The skip command of a pool member stores the ISO text of an aware
    datetime [t]. From then on, in a week whose key is the ISO text of the
    Monday [monday], the member is available exactly when the day of [t] is
    before that Monday: for every Monday up to and including the day of
    [t] the member is left out of the weekly pairing and of every rematch,
    and for a later Monday the skip no longer holds the member back. *)
Theorem skip_command_holds_until_day ctx g weeks t monday clk w :
  ctx_guild ctx = Some g →
  is_Some (get_one_on_one_pool_status (g_id g) (ctx_author ctx) (pool w)) →
  datetime.date_in_range (datetime.dt_date t) →
  datetime.date_in_range monday →
  get_week_start clk = datetime.date_isoformat monday →
  let w' := (skip ctx weeks (datetime.isoformat t) w).2 in
  let u := ctx_author ctx in
  (u ∈ get_available_pool_members (g_id g) (get_week_start clk) (pool w') ↔
   datetime.date_lt (datetime.dt_date t) monday) ∧
  (datetime.date_le monday (datetime.dt_date t) →
   (u ∉ eligible clk (g_id g) w') ∧
   ∀ uid, u ∉ rematch_candidates clk (g_id g) uid w') ∧
  (datetime.date_lt (datetime.dt_date t) monday →
   (u ∈ eligible clk (g_id g) w' ↔
    u ∉ get_users_matched_this_week (g_id g) (get_week_start clk)
          (matches w))).
Proof.
  intros Hg [[[j sk] s] Hst] Ht Hmon Hwk w' u.
  destruct (pool_status_Some _ _ _ _ _ _ Hst) as (r0 & Hr0 & Hg0 & Hu0).
  assert (pool w' = set_one_on_one_skip (g_id g) u
                      (Some (datetime.isoformat t)) (pool w)) as Hp.
  { unfold w', skip. by rewrite Hg, Hst. }
  assert (matches w' = matches w) as Hm.
  { unfold w', skip. by rewrite Hg, Hst. }
  assert (u ∈ get_available_pool_members (g_id g) (get_week_start clk)
                (pool w') ↔
          datetime.date_lt (datetime.dt_date t) monday) as Hav.
  { rewrite Hp, available_after_set_skip by (by exists r0).
    rewrite Hwk. by apply isoformat_le_date. }
  split; [done|]. split.
  - intros Hle. apply date_le_not_lt in Hle. split.
    + unfold eligible. intros [_ Hin]%list_elem_of_filter. by apply Hle, Hav.
    + intros uid. unfold rematch_candidates.
      intros [_ Hin]%list_elem_of_filter. by apply Hle, Hav.
  - intros Hlt. unfold eligible. rewrite list_elem_of_filter, Hm.
    split; [by intros [? _]|]. intros Hnm. split; [done|]. by apply Hav.
Qed.

(** X12. After a member is marked as sat out at time [now], the member is
    listed as having sat out since any instant at most [now] in text
    order, and so is left out of the preferred sit-out candidates of a
    later round whose four-weeks-ago reading is at most [now]; nobody's
    availability changes by the marking. *)
Theorem sat_out_is_remembered clk g u now w av :
  (∃ r, r ∈ pool w ∧ p_guild_id r = g ∧ p_user_id r = u) →
  String.le (four_weeks_ago clk) now →
  let w' := with_pool (mark_user_sat_out g u now (pool w)) w in
  u ∈ get_users_who_sat_out_recently g (four_weeks_ago clk) (pool w') ∧
  (u ∉ sit_out_candidates clk g av w') ∧
  (∀ g' wk, get_available_pool_members g' wk (pool w') =
            get_available_pool_members g' wk (pool w)) ∧
  eligible clk g w' = eligible clk g w.
Proof.
  intros (r & Hr & Hg & Hu) Hle w'.
  assert (u ∈ get_users_who_sat_out_recently g (four_weeks_ago clk) (pool w'))
    as Hrec.
  { apply elem_of_sat_out_recently.
    exists (set_sat_out_at (Some now) r). split.
    - by apply mark_user_sat_out_row.
    - split; [done|]. split; [done|]. unfold sat_out_since. simpl.
      by apply bool_decide_eq_true. }
  split; [done|]. split.
  { unfold sit_out_candidates. intros [Hn _]%list_elem_of_filter.
    apply Hn. by apply elem_of_list_to_set. }
  split.
  { intros g' wk. apply get_available_mark. }
  unfold eligible. simpl. by rewrite get_available_mark.
Qed.

Lemma next_match_id_not_in ms :
  ∀ r, r ∈ ms → m_id r ≠ next_match_id ms.
Proof. intros r Hr. pose proof (next_match_id_fresh ms r Hr). lia. Qed.

(** X13. Creating a match returns an id no row had; looking that id up
    gives the new row, pending on both sides, without reminders and open;
    every lookup by another id, and every lookup by thread that found a
    row before, gives what it gave before; a lookup by the new thread
    finds the new row when no earlier row had that thread. *)
Theorem create_then_lookup g wk u1 u2 th now ms :
  let i := (create_one_on_one_match g wk u1 u2 (Some th) now ms).1 in
  let ms' := (create_one_on_one_match g wk u1 u2 (Some th) now ms).2 in
  let new := {| m_id := i; m_guild_id := g; week_start := wk;
                user1_id := u1; user2_id := u2; thread_id := Some th;
                user1_status := pending; user2_status := pending;
                reminder_count := 0; created_at := now;
                completed_at := None |} in
  (∀ r, r ∈ ms → m_id r ≠ i) ∧
  get_match_by_id i ms' = Some new ∧
  (∀ j, j ≠ i → get_match_by_id j ms' = get_match_by_id j ms) ∧
  (∀ t r, get_match_by_thread t ms = Some r →
          get_match_by_thread t ms' = Some r) ∧
  (get_match_by_thread th ms = None →
   get_match_by_thread th ms' = Some new).
Proof.
  simpl. split_and!.
  - apply next_match_id_not_in.
  - unfold get_match_by_id. rewrite fetch_one_snoc.
    destruct (fetch_one _ ms) as [r|] eqn:Hf.
    + apply fetch_one_Some in Hf as [Hr Hid%bool_decide_eq_true].
      by destruct (next_match_id_not_in ms r Hr).
    + simpl. by rewrite bool_decide_eq_true_2.
  - intros j Hj. unfold get_match_by_id. rewrite fetch_one_snoc.
    destruct (fetch_one _ ms); [done|]. simpl.
    by rewrite bool_decide_eq_false_2.
  - intros t r Hf. unfold get_match_by_thread in *.
    by rewrite fetch_one_snoc, Hf.
  - intros Hf. unfold get_match_by_thread in *.
    rewrite fetch_one_snoc, Hf. simpl. by rewrite bool_decide_eq_true_2.
Qed.

(** X14. Once a match is created for two users, both count as matched in
    that guild and week and each is a partner of the other, so neither is
    eligible for the weekly pairing nor a rematch candidate for that week
    any more; who was matched before still is. *)
Theorem created_match_blocks_pairing clk gid u1 u2 th now w uid :
  let w' := with_matches
              (create_one_on_one_match gid (get_week_start clk) u1 u2 th now
                 (matches w)).2 w in
  u1 ∈ get_users_matched_this_week gid (get_week_start clk) (matches w') ∧
  u2 ∈ get_users_matched_this_week gid (get_week_start clk) (matches w') ∧
  u2 ∈ get_user_partners_this_week gid u1 (get_week_start clk) (matches w') ∧
  (u1 ≠ u2 →
   u1 ∈ get_user_partners_this_week gid u2 (get_week_start clk)
          (matches w')) ∧
  (u1 ∉ eligible clk gid w') ∧ (u2 ∉ eligible clk gid w') ∧
  (u1 ∉ rematch_candidates clk gid uid w') ∧
  (u2 ∉ rematch_candidates clk gid uid w') ∧
  (∀ g wk, get_users_matched_this_week g wk (matches w) ⊆
           get_users_matched_this_week g wk (matches w')).
Proof.
  intros w'. simpl.
  set (new := {| m_id := next_match_id (matches w); m_guild_id := gid;
                 week_start := get_week_start clk; user1_id := u1;
                 user2_id := u2; thread_id := th; user1_status := pending;
                 user2_status := pending; reminder_count := 0;
                 created_at := now; completed_at := None |}).
  assert (new ∈ matches w ++ [new]) as Hnew
    by (apply elem_of_app; right; left).
  assert (u1 ∈ get_users_matched_this_week gid (get_week_start clk)
                 (matches w ++ [new])) as H1.
  { apply elem_of_matched_this_week. exists new. split_and!; try done.
    by left. }
  assert (u2 ∈ get_users_matched_this_week gid (get_week_start clk)
                 (matches w ++ [new])) as H2.
  { apply elem_of_matched_this_week. exists new. split_and!; try done.
    by right. }
  split; [done|]. split; [done|]. split.
  { apply elem_of_partners_this_week. exists new. split_and!; try done.
    by left. }
  split.
  { intros Hne. apply elem_of_partners_this_week. exists new.
    split_and!; try done. right. by split_and!. }
  split. { unfold eligible. simpl. by intros [? _]%list_elem_of_filter. }
  split. { unfold eligible. simpl. by intros [? _]%list_elem_of_filter. }
  split.
  { unfold rematch_candidates. simpl.
    by intros [(_ & _ & ?) _]%list_elem_of_filter. }
  split.
  { unfold rematch_candidates. simpl.
    by intros [(_ & _ & ?) _]%list_elem_of_filter. }
  intros g wk u. rewrite !elem_of_matched_this_week.
  intros (r & Hr & ?). exists r. split; [|done].
  apply elem_of_app. by left.
Qed.

End store_compositions.

(** ** Personal channels, settings and reminders *)

Section guild_store_facts.
Import guild_store.

Lemma ensure_user_frame user name now d :
  guilds (ensure_user user name now d) = guilds d ∧
  user_private_channels (ensure_user user name now d) =
    user_private_channels d ∧
  guild_settings (ensure_user user name now d) = guild_settings d ∧
  reminders (ensure_user user name now d) = reminders d ∧
  (∃ r, r ∈ users (ensure_user user name now d) ∧ u_user_id r = user) ∧
  (NoDup (u_user_id <$> users d) →
   NoDup (u_user_id <$> users (ensure_user user name now d))).
Proof.
  unfold ensure_user.
  destruct (fetch_one _ (users d)) as [r|] eqn:Hf; simpl.
  - split_and!; try done.
    apply fetch_one_Some in Hf as [Hr Hid%bool_decide_eq_true]. by exists r.
  - split_and!; try done.
    + eexists. split; [apply elem_of_app; right; left|done].
    + intros Hnd. rewrite fmap_app. apply NoDup_app.
      split; [done|]. split; [|apply NoDup_singleton].
      intros i (r & -> & Hr)%list_elem_of_fmap Hi%list_elem_of_singleton.
      rewrite fetch_one_None in Hf. specialize (Hf r Hr).
      by apply bool_decide_eq_false in Hf.
Qed.

Lemma ensure_guild_frame guild name d :
  users (ensure_guild guild name d) = users d ∧
  user_private_channels (ensure_guild guild name d) =
    user_private_channels d ∧
  guild_settings (ensure_guild guild name d) = guild_settings d ∧
  reminders (ensure_guild guild name d) = reminders d ∧
  (∃ r, r ∈ guilds (ensure_guild guild name d) ∧ gr_guild_id r = guild) ∧
  (NoDup (gr_guild_id <$> guilds d) →
   NoDup (gr_guild_id <$> guilds (ensure_guild guild name d))).
Proof.
  unfold ensure_guild.
  destruct (fetch_one _ (guilds d)) as [r|] eqn:Hf; simpl.
  - split_and!; try done.
    apply fetch_one_Some in Hf as [Hr Hid%bool_decide_eq_true]. by exists r.
  - split_and!; try done.
    + eexists. split; [apply elem_of_app; right; left|done].
    + intros Hnd. rewrite fmap_app. apply NoDup_app.
      split; [done|]. split; [|apply NoDup_singleton].
      intros i (r & -> & Hr)%list_elem_of_fmap Hi%list_elem_of_singleton.
      rewrite fetch_one_None in Hf. specialize (Hf r Hr).
      by apply bool_decide_eq_false in Hf.
Qed.

Lemma filter_all {A} (P : A → Prop) `{!∀ x, Decision (P x)} (t : list A) :
  (∀ r, r ∈ t → P r) → filter P t = t.
Proof.
  induction t as [|x t IH]; intros Hall; [done|].
  rewrite filter_cons_True by (apply Hall; left).
  f_equal. apply IH. intros r Hr. apply Hall. by right.
Qed.

Lemma channel_key_other g u g' u' r :
  ¬ (g' = g ∧ u' = u) → channel_key g u r = true →
  channel_key g' u' r = false.
Proof.
  unfold channel_key. intros Hne [Hg Hu]%andb_true_iff.
  apply bool_decide_eq_true in Hg, Hu. apply andb_false_iff.
  destruct (decide (c_guild_id r = g')) as [Hg'|Hg'].
  - right. apply bool_decide_eq_false_2. intros Hu'. apply Hne. by subst.
  - left. by apply bool_decide_eq_false_2.
Qed.

Lemma fetch_one_update_where_other {A} (c c' : A → bool) (f : A → A) t :
  (∀ r, c (f r) = c r) → (∀ r, c' r = true → c r = false) →
  fetch_one c (update_where c' f t) = fetch_one c t.
Proof.
  intros Hf Hd. unfold update_where. induction t as [|x t IH]; [done|].
  rewrite fmap_cons. cbn [fetch_one]. destruct (c' x) eqn:Hx.
  - rewrite Hf, (Hd x Hx). exact IH.
  - destruct (c x); [done|exact IH].
Qed.

(** X15. [create_user_channel] is an upsert: afterwards the user's channel
    in the guild is the one given, whether or not there was a record; the
    channel of every other (guild, user) is as before; the user and the
    guild have a row; an existing record is updated in place (the table
    does not grow); and the three tables keep one row per key. *)
Theorem create_user_channel_upsert g u ch name gname now d :
  let d' := create_user_channel g u ch name gname now d in
  get_user_channel g u d' = Some ch ∧
  (∀ g' u', ¬ (g' = g ∧ u' = u) →
     get_user_channel g' u' d' = get_user_channel g' u' d) ∧
  (is_Some (get_user_channel g u d) →
   length (user_private_channels d') = length (user_private_channels d)) ∧
  (∃ r, r ∈ users d' ∧ u_user_id r = u) ∧
  (∃ r, r ∈ guilds d' ∧ gr_guild_id r = g) ∧
  (NoDup (u_user_id <$> users d) → NoDup (u_user_id <$> users d')) ∧
  (NoDup (gr_guild_id <$> guilds d) → NoDup (gr_guild_id <$> guilds d')) ∧
  (NoDup ((λ r, (c_guild_id r, c_user_id r)) <$> user_private_channels d) →
   NoDup ((λ r, (c_guild_id r, c_user_id r)) <$> user_private_channels d')).
Proof.
  intros d'. unfold d', create_user_channel, get_user_channel.
  destruct (ensure_user_frame u name now d)
    as (Eg1 & Ec1 & _ & _ & Hu1 & Hnu1).
  destruct (ensure_guild_frame g gname (ensure_user u name now d))
    as (Eu2 & Ec2 & _ & _ & Hg2 & Hng2).
  set (d2 := ensure_guild g gname (ensure_user u name now d)) in *.
  assert (user_private_channels d2 = user_private_channels d) as Ec
    by (by rewrite Ec2, Ec1).
  assert (∀ r, channel_key g u (set_channel_id ch r) = channel_key g u r)
    as Hkey by done.
  rewrite Ec.
  destruct (fetch_one (channel_key g u) (user_private_channels d))
    as [r0|] eqn:Hf; simpl.
  - split_and!.
    + rewrite fetch_one_update_where, Hf by done. simpl.
      by apply fetch_one_Some in Hf as [_ ->].
    + intros g' u' Hne. f_equal.
      apply fetch_one_update_where_other; [done|].
      intros r. by apply channel_key_other.
    + intros _. unfold update_where. by rewrite length_fmap.
    + by rewrite Eu2.
    + done.
    + rewrite Eu2. done.
    + intros Hnd. apply Hng2. by rewrite Eg1.
    + intros Hnd. unfold update_where. rewrite <-list_fmap_compose.
      erewrite list_fmap_ext; [exact Hnd|]. intros _ r _. simpl.
      by destruct (channel_key g u r).
  - split_and!.
    + rewrite fetch_one_snoc, Hf. simpl. unfold channel_key. simpl.
      by rewrite !bool_decide_eq_true_2.
    + intros g' u' Hne. f_equal. rewrite fetch_one_snoc.
      destruct (fetch_one (channel_key g' u') _); [done|].
      rewrite (channel_key_other g u g' u'); [done|done|].
      unfold channel_key. simpl. by rewrite !bool_decide_eq_true_2.
    + by intros [? ?].
    + by rewrite Eu2.
    + done.
    + rewrite Eu2. done.
    + intros Hnd. apply Hng2. by rewrite Eg1.
    + intros Hnd. rewrite fmap_app. apply NoDup_app.
      split; [done|]. split; [|apply NoDup_singleton].
      intros k (r & -> & Hr)%list_elem_of_fmap Hk%list_elem_of_singleton.
      rewrite fetch_one_None in Hf. specialize (Hf r Hr).
      injection Hk as Hg Hu. unfold channel_key in Hf.
      by rewrite !bool_decide_eq_true_2 in Hf.
Qed.

(** X16. After [delete_user_channel] the user has no channel in the guild
    and is not listed among the guild's channels; the channel of every
    other (guild, user) is as before. Deleting right after creating a
    channel for a user that had none gives back the channel table one
    started from. *)
Theorem delete_user_channel_removes g u d :
  get_user_channel g u (delete_user_channel g u d) = None ∧
  (∀ ch, (u, ch) ∉ get_all_user_channels g (delete_user_channel g u d)) ∧
  (∀ g' u', ¬ (g' = g ∧ u' = u) →
     get_user_channel g' u' (delete_user_channel g u d) =
     get_user_channel g' u' d) ∧
  (∀ ch name gname now,
     get_user_channel g u d = None →
     user_private_channels
       (delete_user_channel g u
          (create_user_channel g u ch name gname now d)) =
     user_private_channels d).
Proof.
  split_and!.
  - unfold get_user_channel, delete_user_channel. simpl.
    apply fmap_None, fetch_one_None. intros r [Hne _]%list_elem_of_filter.
    unfold channel_key. apply andb_false_iff.
    destruct (decide (c_guild_id r = g)) as [Hg|Hg].
    + right. apply bool_decide_eq_false_2. intros Hu. by apply Hne.
    + left. by apply bool_decide_eq_false_2.
  - intros ch. unfold get_all_user_channels, delete_user_channel. simpl.
    intros (r & Heq & Hr)%list_elem_of_fmap. injection Heq as Hu Hch.
    apply list_elem_of_filter in Hr as [Hg Hr].
    apply list_elem_of_filter in Hr as [Hne _]. by apply Hne.
  - intros g' u' Hne. unfold get_user_channel, delete_user_channel. simpl.
    f_equal. apply fetch_one_filter.
    intros r [Hg Hu]%andb_true_iff [Hg' Hu'].
    apply bool_decide_eq_true in Hg, Hu. apply Hne. by subst.
  - intros ch name gname now Hnone.
    unfold get_user_channel in Hnone. apply fmap_None in Hnone.
    unfold delete_user_channel, create_user_channel.
    destruct (ensure_user_frame u name now d) as (_ & Ec1 & _).
    destruct (ensure_guild_frame g gname (ensure_user u name now d))
      as (_ & Ec2 & _).
    rewrite Ec2, Ec1, Hnone. simpl.
    rewrite filter_app, filter_cons_False, filter_nil, app_nil_r
      by (simpl; tauto).
    rewrite fetch_one_None in Hnone.
    apply filter_all. intros r Hr [Hg Hu]. specialize (Hnone r Hr).
    unfold channel_key in Hnone. by rewrite !bool_decide_eq_true_2 in Hnone.
Qed.

Lemma settings_after_ensure_guild g gname d :
  guild_settings (ensure_guild g gname d) = guild_settings d.
Proof. by destruct (ensure_guild_frame g gname d) as (_ & _ & -> & _). Qed.

Lemma settings_key_other g g' r :
  g' ≠ g → settings_key g r = true → settings_key g' r = false.
Proof.
  unfold settings_key. intros Hne Hg%bool_decide_eq_true.
  apply bool_decide_eq_false_2. congruence.
Qed.

(** X17. The two settings of a guild do not clobber each other: setting
    the welcome message makes it the one read back and leaves the active
    role as it reads, setting the active role makes it the one read back
    and leaves the welcome message as it reads, also when the guild had no
    settings row yet; the settings of every other guild read as before. *)
Theorem settings_are_independent g msg role gname d :
  get_welcome_message g (set_welcome_message g msg gname d) = Some msg ∧
  get_active_role_id g (set_welcome_message g msg gname d) =
    get_active_role_id g d ∧
  get_active_role_id g (set_active_role_id g role gname d) = Some role ∧
  get_welcome_message g (set_active_role_id g role gname d) =
    get_welcome_message g d ∧
  (∀ g', g' ≠ g →
     get_welcome_message g' (set_welcome_message g msg gname d) =
       get_welcome_message g' d ∧
     get_active_role_id g' (set_welcome_message g msg gname d) =
       get_active_role_id g' d ∧
     get_welcome_message g' (set_active_role_id g role gname d) =
       get_welcome_message g' d ∧
     get_active_role_id g' (set_active_role_id g role gname d) =
       get_active_role_id g' d).
Proof.
  unfold get_welcome_message, get_active_role_id, set_welcome_message,
    set_active_role_id.
  rewrite !settings_after_ensure_guild.
  destruct (fetch_one (settings_key g) (guild_settings d)) as [r0|] eqn:Hf;
    simpl.
  - rewrite !fetch_one_update_where, Hf by done. simpl.
    apply fetch_one_Some in Hf as [_ ->]. split_and!; try done.
    intros g' Hne.
    by rewrite !fetch_one_update_where_other
      by first [done | intros r; by apply settings_key_other].
  - rewrite !fetch_one_snoc, Hf. simpl. unfold settings_key at 1 2 3 4.
    simpl. rewrite !bool_decide_eq_true_2 by done. split_and!; try done.
    intros g' Hne. rewrite !fetch_one_snoc.
    destruct (fetch_one (settings_key g') (guild_settings d)); [done|].
    unfold settings_key. simpl.
    by rewrite !bool_decide_eq_false_2 by congruence.
Qed.

Lemma next_reminder_id_fresh t r : r ∈ t → rem_id r < next_reminder_id t.
Proof.
  unfold next_reminder_id. induction t as [|x t IH].
  - by intros ?%elem_of_nil.
  - rewrite fmap_cons. cbn [foldr].
    intros [->|Hr]%elem_of_cons; [lia|]. specialize (IH Hr). lia.
Qed.

(** X18. A created reminder gets an id no reminder had and keeps the ids
    unique; it is due at a time [now] exactly when its [remind_at] is at
    most [now] in text order; and the reminders that were due stay due. *)
Theorem created_reminder_due g u ch link preview at_ created now d :
  let d' := create_reminder g u ch link preview at_ created d in
  ∃ new,
    reminders d' = reminders d ++ [new] ∧
    (∀ r, r ∈ reminders d → rem_id r ≠ rem_id new) ∧
    (NoDup (rem_id <$> reminders d) → NoDup (rem_id <$> reminders d')) ∧
    (new ∈ get_due_reminders now d' ↔ String.le at_ now) ∧
    (∀ r, r ∈ get_due_reminders now d → r ∈ get_due_reminders now d').
Proof.
  intros d'. eexists. split; [done|]. simpl. split_and!.
  - intros r Hr. pose proof (next_reminder_id_fresh _ _ Hr). lia.
  - intros Hnd. rewrite fmap_app. apply NoDup_app.
    split; [done|]. split; [|apply NoDup_singleton].
    intros i (r & -> & Hr)%list_elem_of_fmap Hi%list_elem_of_singleton.
    pose proof (next_reminder_id_fresh _ _ Hr). simpl in Hi. lia.
  - unfold get_due_reminders. simpl. rewrite list_elem_of_filter. simpl.
    split; [by intros [[? _] _]|]. intros Hle. split; [done|].
    apply elem_of_app. right. left.
  - intros r. unfold get_due_reminders. simpl.
    rewrite !list_elem_of_filter. intros [? ?]. split; [done|].
    apply elem_of_app. by left.
Qed.

(** X19. After [mark_reminder_completed] no reminder with that id is due,
    at any time; a reminder with another id is due exactly when it was;
    and marking a second time changes nothing. *)
Theorem completed_reminder_never_due i d :
  (∀ now r, r ∈ get_due_reminders now (mark_reminder_completed i d) →
            rem_id r ≠ i) ∧
  (∀ now r, rem_id r ≠ i →
            (r ∈ get_due_reminders now (mark_reminder_completed i d) ↔
             r ∈ get_due_reminders now d)) ∧
  mark_reminder_completed i (mark_reminder_completed i d) =
    mark_reminder_completed i d.
Proof.
  split_and!.
  - intros now r. unfold get_due_reminders, mark_reminder_completed. simpl.
    intros [[_ Hc] (r0 & Hr0 & ->)%elem_of_update_where]%list_elem_of_filter.
    case_bool_decide as Hid; simpl in *; [done|]. done.
  - intros now r Hne. unfold get_due_reminders, mark_reminder_completed.
    simpl. rewrite !list_elem_of_filter, elem_of_update_where. split.
    + intros [Hdue (r0 & Hr0 & Heq)]. split; [done|].
      case_bool_decide as Hid; [|by subst]. subst r. simpl in Hne. done.
    + intros [Hdue Hr]. split; [done|]. exists r. split; [done|].
      by rewrite bool_decide_eq_false_2.
  - unfold mark_reminder_completed, with_reminders. simpl. f_equal.
    rewrite update_where_compose by done. by apply update_where_ext.
Qed.

(** X20. After [update_last_journal_message] for a user that has a
    personal channel in the guild, the user is among the active users for
    every cutoff at most the time of the update in text order; a user
    whose channels never had a journal message is never active; and for
    every other (guild, user) being active is as before. *)
Theorem journal_update_makes_active g u now d :
  let d' := update_last_journal_message g u now d in
  (is_Some (get_user_channel g u d) →
   ∀ cutoff, String.le cutoff now → u ∈ get_active_users g cutoff d') ∧
  (∀ g0 u0 cutoff,
     (∀ r, r ∈ user_private_channels d → c_guild_id r = g0 →
           c_user_id r = u0 → last_journal_message r = None) →
     u0 ∉ get_active_users g0 cutoff d) ∧
  (∀ g' u' cutoff, ¬ (g' = g ∧ u' = u) →
     (u' ∈ get_active_users g' cutoff d' ↔
      u' ∈ get_active_users g' cutoff d)).
Proof.
  intros d'. split_and!.
  - intros [ch Hch] cutoff Hle. unfold get_user_channel in Hch.
    apply fmap_Some in Hch as (r & Hf & _).
    apply fetch_one_Some in Hf as [Hr Hkey].
    unfold get_active_users, d', update_last_journal_message. simpl.
    apply list_elem_of_fmap.
    exists (set_last_journal_message (Some now) r).
    pose proof Hkey as [Hg Hu]%andb_true_iff.
    apply bool_decide_eq_true in Hg, Hu. split; [done|].
    apply list_elem_of_filter. split.
    + split; [done|]. unfold journaled_since. simpl.
      apply Is_true_true. by apply bool_decide_eq_true.
    + apply elem_of_update_where. exists r. split; [done|]. by rewrite Hkey.
  - intros g0 u0 cutoff Hnull. unfold get_active_users.
    intros (r & -> & Hr)%list_elem_of_fmap.
    apply list_elem_of_filter in Hr as [[Hg Hj] Hr].
    unfold journaled_since in Hj. by rewrite (Hnull r Hr Hg eq_refl) in Hj.
  - intros g' u' cutoff Hne.
    unfold get_active_users, d', update_last_journal_message. simpl.
    rewrite !list_elem_of_fmap. split.
    + intros (r' & -> & Hr').
      apply list_elem_of_filter in Hr'
        as [[Hg Hj] (r & Hr & ->)%elem_of_update_where].
      destruct (channel_key g u r) eqn:Hkey.
      * apply andb_true_iff in Hkey as [Hk1 Hk2].
        apply bool_decide_eq_true in Hk1, Hk2. simpl in *.
        destruct Hne. by subst.
      * exists r. split; [done|]. by apply list_elem_of_filter.
    + intros (r & -> & Hr). apply list_elem_of_filter in Hr as [[Hg Hj] Hr].
      exists r. split; [done|]. apply list_elem_of_filter. split; [done|].
      apply elem_of_update_where. exists r. split; [done|].
      destruct (channel_key g u r) eqn:Hkey; [|done].
      apply andb_true_iff in Hkey as [Hk1 Hk2].
      apply bool_decide_eq_true in Hk1, Hk2. destruct Hne. by subst.
Qed.

End guild_store_facts.

(** ** The added statements on the example guild *)

Section more_example_runs.
Import actions one_on_ones pool_commands examples more_examples.

Local Ltac by_compute := apply (bool_decide_unpack _); vm_compute; exact I.

(** The three events of [ex_after_skip], one after the other. *)
Local Ltac three_events :=
  apply (rtc_l _ _ ex_after_scan); [exact (step_send_reminders _ _ _)|];
  apply (rtc_l _ _ ex_after_decline); [exact (step_reaction _ _ _ _)|];
  apply rtc_once; exact (step_skip _ _ _ _).

(** The store after the three events is well formed. *)
Lemma reachable_well_formed_witness : well_formed ex_after_skip.
Proof.
  apply (reachable_well_formed ex_world_matched).
  - by_compute.
  - three_events.
Defined.

(** The four matches of [ex_matches] are still there after them. *)
Lemma reachable_history_kept_witness :
  history_kept ex_matches (matches ex_after_skip).
Proof.
  apply (reachable_history_kept ex_world_matched).
  - by_compute.
  - three_events.
Defined.

(** Match 2, completed, is not selected after the three events. *)
Lemma completed_match_never_selected_witness :
  Forall (λ r', m_id r' ≠ 2)
    (get_matches_needing_reminder 1 "2026-11-02" 2 (matches ex_after_skip)).
Proof.
  apply Forall_forall.
  apply (completed_match_never_selected ex_world_matched ex_after_skip
           (ex_match 2 12 14 1001 confirmed confirmed 1
              (Some "2026-11-03T09:00:00"))).
  - by_compute.
  - three_events.
  - right. left.
  - vm_compute. discriminate.
Defined.

(** A second run an hour later, on the platform that refuses a thread. *)
Lemma rerun_creates_nothing_witness :
  _run_matching_for_guild ex_platform ex_later ex_guild
    (_run_matching_for_guild ex_platform_ok ex_clock ex_guild ex_world).2 =
  (Some 0%nat,
   (_run_matching_for_guild ex_platform_ok ex_clock ex_guild ex_world).2).
Proof.
  apply (rerun_creates_nothing ex_platform_ok ex_platform ex_clock ex_later
           ex_guild ex_world {| ch_id := 500; ch_name := "1-1s" |}).
  - split; [|split]; intros t c; [eexists|..]; reflexivity.
  - by_compute.
  - vm_compute. reflexivity.
  - reflexivity.
Defined.

(** User 11 declines match 1 within its week; user 10 is rematched with a
    free member, not with 11, for the same week. *)
Lemma decline_rematches_with_candidate_witness :
  ∃ r,
    length (matches (on_raw_reaction_add ex_platform_ok ex_later
                       (reaction 11 cross_mark 1000) ex_world_open)) = 2%nat ∧
    r ∈ matches (on_raw_reaction_add ex_platform_ok ex_later
                   (reaction 11 cross_mark 1000) ex_world_open) ∧
    user1_id r = 10 ∧ completed_at r = None ∧
    week_start r = "2026-11-02" ∧ user2_id r ≠ 11.
Proof.
  destruct (decline_rematches_with_candidate ex_platform_ok ex_later
              (reaction 11 cross_mark 1000) ex_world_open
              (ex_match 1 10 11 1000 pending pending 0 None) ex_guild
              {| ch_id := 500; ch_name := "1-1s" |})
    as (r & Hms & Hu1 & _ & _ & _ & _ & _ & Hc & _ & _ & Hweek).
  - by_compute.
  - vm_compute. reflexivity.
  - vm_compute. discriminate.
  - by_compute.
  - reflexivity.
  - split; [|split]; intros t c; [eexists|..]; reflexivity.
  - vm_compute. reflexivity.
  - vm_compute. reflexivity.
  - vm_compute. discriminate.
  - destruct Hweek as (_ & Hw & _ & Hu2); [reflexivity..|].
    exists r. rewrite Hms. split; [reflexivity|].
    split; [apply elem_of_app; right; left|]. split; [exact Hu1|].
    split; [exact Hc|]. split; [exact Hw|exact Hu2].
Defined.

(** User 18 confirms match 4, which 19 had confirmed: completed. *)
Lemma confirm_transition_witness :
  ∃ m',
    get_match_by_id 4
      (matches (on_raw_reaction_add ex_platform ex_later
                  (reaction 18 white_check_mark 1003) ex_world_matched))
      = Some m' ∧
    status_of 18 m' = confirmed ∧
    completed_at m' = Some (utcnow ex_later).
Proof.
  destruct (confirm_transition ex_platform ex_later
              (reaction 18 white_check_mark 1003) ex_world_matched
              (ex_match 4 18 19 1003 pending confirmed 1 None))
    as (m' & Hget & Hst & _ & _ & Hdone & _).
  - by_compute.
  - vm_compute. reflexivity.
  - vm_compute. discriminate.
  - by_compute.
  - vm_compute. discriminate.
  - reflexivity.
  - exists m'. split; [exact Hget|]. split; [exact Hst|].
    apply Hdone. reflexivity.
Defined.

(** User 20 joins guild 1 and leaves again. *)
Lemma join_then_leave_witness :
  leave_one_on_one_pool 1 20
    (join_one_on_one_pool 1 20 "2026-11-08 12:00:00" ex_pool).2 =
  (true, ex_pool).
Proof.
  apply (join_then_leave 1 20 "2026-11-08 12:00:00" ex_pool).
  vm_compute. reflexivity.
Defined.

(** User 14 skips until the 22nd: out for the week of the 16th, back for
    the week of the 23rd. *)
Lemma skip_command_excludes_witness :
  (14 ∉ get_available_pool_members 1 "2026-11-16"
          (pool (skip (ex_ctx 14) 2 "2026-11-22T11:40:00+00:00"
                   ex_world).2)) ∧
  14 ∈ get_available_pool_members 1 "2026-11-23"
         (pool (skip (ex_ctx 14) 2 "2026-11-22T11:40:00+00:00" ex_world).2).
Proof.
  destruct (skip_command_excludes (ex_ctx 14) ex_guild 2
              "2026-11-22T11:40:00+00:00" ex_world) as [_ Hmember].
  - reflexivity.
  - destruct Hmember as (_ & _ & Hav & _).
    + vm_compute. eexists. reflexivity.
    + split.
      * intros Hin. apply Hav in Hin. revert Hin. vm_compute. exact id.
      * apply Hav. vm_compute. exact I.
Defined.

(** User 14 skips two weeks on Sunday the 8th, until the 22nd: left out of
    the pairing of the week of the 16th. *)
Lemma skip_command_holds_until_day_witness :
  14 ∉ eligible
         {| get_week_start := "2026-11-16"; weekday := 6; hour := 10;
            four_weeks_ago := "2026-10-18T10:00:00+00:00";
            utcnow := "2026-11-22T10:00:00";
            db_now := "2026-11-22 10:00:00" |} 1
         (skip (ex_ctx 14) 2 "2026-11-22T11:40:00+00:00" ex_world).2.
Proof.
  destruct (skip_command_holds_until_day (ex_ctx 14) ex_guild 2
              {| datetime.dt_date :=
                   {| datetime.year := 2026; datetime.month := 11;
                      datetime.day := 22 |};
                 datetime.dt_hour := 11; datetime.dt_minute := 40;
                 datetime.dt_second := 0; datetime.dt_microsecond := 0 |}
              {| datetime.year := 2026; datetime.month := 11;
                 datetime.day := 16 |}
              {| get_week_start := "2026-11-16"; weekday := 6; hour := 10;
                 four_weeks_ago := "2026-10-18T10:00:00+00:00";
                 utcnow := "2026-11-22T10:00:00";
                 db_now := "2026-11-22 10:00:00" |}
              ex_world) as (_ & Hout & _).
  - reflexivity.
  - vm_compute. eexists. reflexivity.
  - by_compute.
  - by_compute.
  - reflexivity.
  - destruct Hout as [Hel _]; [by_compute|exact Hel].
Defined.

(** User 16, marked at the run of [ex_clock], is no candidate an hour
    later. *)
Lemma sat_out_is_remembered_witness :
  16 ∉ sit_out_candidates ex_later 1 [10; 16; 17]
         (with_pool (mark_user_sat_out 1 16 (utcnow ex_clock) ex_pool)
            ex_world).
Proof.
  destruct (sat_out_is_remembered ex_later 1 16 (utcnow ex_clock) ex_world
              [10; 16; 17]) as (_ & Hnot & _).
  - exists (member 1 16 None None). split; [|split; reflexivity].
    do 6 right. left.
  - vm_compute. exact I.
  - exact Hnot.
Defined.

End more_example_runs.
